(** * v-network-graph 0.4.1: edge geometry state and path point engine

    A shallow embedding of [src/composables/state.ts] (node states, edge
    geometry, summarized edge states) and of the paths component
    ([pathList], [_calculatePathPoints], [_detectDirectionsOfPathEdges]).

    Numbers are JavaScript numbers, that is IEEE 754 binary64 values: they
    are modelled by Rocq's primitive floats, whose [+ - * /] and comparisons
    are the ones of JavaScript ([===] on numbers is [=?], so [-0 === 0] and
    [NaN !== NaN]).  Objects used as dictionaries are finite maps of their
    own properties; where the code tests what [o[key]] gives, the read goes
    on to [Object.prototype] when the object has no such property ([read]).

    The modules [common/vector], [common/2d], [common/edge-group] and
    [common/utility] are not part of the sources at hand.  Their functions
    are taken as operations of the classes [V.Ops], [v2d.Ops] and
    [EdgeGroup.Ops]: every theorem holds for every implementation of them.
    A reference implementation, written from the specification, is given at
    the end of the definitions so that the embedding can be run. *)

From Stdlib Require Import Floats.
From stdpp Require Import gmap strings list.

(** ** Data model ([common/types.ts], [common/configs.ts]) *)

Record Position := mkPosition { x : float; y : float }.

Record LinePosition := mkLinePosition { x1 : float; y1 : float; x2 : float; y2 : float }.

(** [Node]: an open property bag. *)
Definition Node := gmap string string.

(** *** Property reads

    [nodes], [edges], the node positions and a node itself are plain
    objects: a read [o[key]] gives the own property of that name or, when
    there is none, what the object inherits from [Object.prototype] under
    that name, as for [constructor], [toString] or [hasOwnProperty].  The
    members of [Object.prototype] are functions and objects: they are
    truthy, and not null. *)

(** The host: the names that [Object.prototype] defines. *)
Class Host := { inherited : string → bool }.

(** What a read finds: the own property, or the member of
    [Object.prototype] of that name. *)
Inductive Read (A : Type) :=
  | Own (a : A)
  | Member (name : string).
Arguments Own {A} a.
Arguments Member {A} name.

(** [o[key]]; [None] is [undefined]. *)
Definition read `{Host} {A : Type} (o : gmap string A) (key : string) : option (Read A) :=
  match o !! key with
  | Some a => Some (Own a)
  | None => if inherited key then Some (Member key) else None
  end.

(** [Edge]: the two endpoint identifiers; the remaining open properties are
    read by none of the functions below. *)
Module Edge.
Record t := mk { source : string; target : string }.
End Edge.

(** [Path]: the ordered edge identifiers and its open property bag. *)
Module Path.
Record t := mk { edges : list string; props : gmap string string }.
End Path.

Inductive ShapeType := shape_circle | shape_rect.

(** [ShapeStyle] is "an object that contains all fields". *)
Module ShapeStyle.
Record t := mk {
  type : ShapeType;
  radius : float;
  width : float;
  height : float;
  borderRadius : float;
  strokeWidth : float;
  color : string }.
End ShapeStyle.

Module NodeLabelStyle.
Record t := mk {
  visible : bool;
  margin : float;
  direction : string;
  text : string;
  fontSize : float;
  color : string;
  lineHeight : float }.
End NodeLabelStyle.

Inductive EdgeHeadType := head_none | head_arrow | head_angle | head_circle | head_custom.
Inductive MarkerUnits := strokeWidth | userSpaceOnUse.

Module MarkerStyle.
Record t := mk {
  type : EdgeHeadType;
  width : float;
  height : float;
  margin : float;
  units : MarkerUnits;
  color : option string }.
End MarkerStyle.

Inductive EdgeType := type_straight | type_curve.
Inductive EdgeKeepOrderType := clock | vertical | horizontal.
Inductive PathEndType := centerOfNode | edgeOfNode.

(** [selectable] is a boolean or a number (the maximum selection count). *)
Inductive Selectable := sel_bool (b : bool) | sel_num (n : float).

(** *** [Config.value] and [Config.values] *)

Inductive CallableValue (V T : Type) :=
  | Literal (v : V)
  | Callable (f : T → V).
Arguments Literal {V T} v.
Arguments Callable {V T} f.

Module Config.
Definition value {V T} (value : CallableValue V T) (target : T) : V :=
  match value with
  | Callable f => f target
  | Literal v => v
  end.

Definition isFunction {V T} (value : CallableValue V T) : bool :=
  match value with Callable _ => true | Literal _ => false end.
End Config.

(** [CallableValues<ShapeStyle, N>]: one callable-or-literal entry per field.
    [Config.values] resolves each entry against the target (and hands the
    object back as it is when no entry is a function, which is the same
    record of values). *)
Module ShapeConfig.
Record t := mk {
  type : CallableValue ShapeType (Read Node);
  radius : CallableValue float (Read Node);
  width : CallableValue float (Read Node);
  height : CallableValue float (Read Node);
  borderRadius : CallableValue float (Read Node);
  strokeWidth : CallableValue float (Read Node);
  color : CallableValue string (Read Node) }.

Definition values (c : t) (n : Read Node) : ShapeStyle.t :=
  ShapeStyle.mk
    (Config.value (type c) n) (Config.value (radius c) n)
    (Config.value (width c) n) (Config.value (height c) n)
    (Config.value (borderRadius c) n) (Config.value (strokeWidth c) n)
    (Config.value (color c) n).
End ShapeConfig.

Module NodeLabelConfig.
Record t := mk {
  visible : CallableValue bool (Read Node);
  margin : CallableValue float (Read Node);
  direction : CallableValue string (Read Node);
  text : CallableValue string (Read Node);
  fontSize : CallableValue float (Read Node);
  color : CallableValue string (Read Node);
  lineHeight : CallableValue float (Read Node) }.

Definition values (c : t) (n : Read Node) : NodeLabelStyle.t :=
  NodeLabelStyle.mk
    (Config.value (visible c) n) (Config.value (margin c) n)
    (Config.value (direction c) n) (Config.value (text c) n)
    (Config.value (fontSize c) n) (Config.value (color c) n)
    (Config.value (lineHeight c) n).
End NodeLabelConfig.

Module NodeConfig.
Record t := mk {
  normal : ShapeConfig.t;
  hover : option ShapeConfig.t;
  selected : option ShapeConfig.t;
  draggable : CallableValue bool (Read Node);
  selectable : CallableValue Selectable (Read Node);
  label : NodeLabelConfig.t }.
End NodeConfig.

(** ** Vectors, lines and the missing geometry modules *)

(** [V.Vector] is victor's vector: an object with [x] and [y], used
    interchangeably with [Position] by the sources.  In this value model
    [clone], [toObject] and [Vector.fromObject] are the identity. *)
Module V.
Definition Vector := Position.

Record Line := mkLine { source : Vector; target : Vector; v : Vector }.

(** The functions of [common/vector] and the vector methods used by the
    sources. *)
Class Ops := {
  fromLinePosition : LinePosition → Line;
  fromPositions : Position → Position → Line;
  fromVectors : Vector → Vector → Line;
  toVectorsFromLinePosition : LinePosition → Vector * Vector;
  getCenterOfLinePosition : LinePosition → Vector;
  calculateCircleCenterAndRadiusBy3Points : Vector → Vector → Vector → Vector * float;
  calculateRelativeAngleRadian : Line → Line → float;
  calculateDistance : Vector → Vector → float;
  getIntersectionOfLineTargetAndCircle : Vector → Vector → Vector → float → option Vector;
  getIntersectionOfLineTargetAndCircle2 :
    Vector → Vector → Vector → float → Vector → option Vector;
  getIntersectionOfCircles : Vector → float → Vector → float → Vector → option Vector;
  getIntersectionPointOfLines : Line → Line → option Vector;
  add : Vector → Vector → Vector;
  normalize : Vector → Vector;
  multiplyScalar : Vector → float → Vector;
  isEqualTo : Vector → Vector → bool }.
End V.

Module Circle.
Record t := mk { center : V.Vector; radius : float }.
End Circle.

Module Curve.
Record t := mk {
  center : V.Vector;
  theta : float;
  circle : Circle.t;
  control : list Position }.
End Curve.

Module v2d.
Class Ops := {
  positionsToLinePosition : Position → Position → LinePosition;
  applyMarginToLine : LinePosition → float → float → LinePosition;
  inverseLine : LinePosition → LinePosition;
  moveOnCircumference : Position → Position → float → Position;
  reverseAngleRadian : float → float;
  calculateBezierCurveControlPoint :
    V.Vector → V.Vector → V.Vector → float → list V.Vector;
  calculateDistancesFromCenterOfNodeToEndOfNode :
    Position → Position → ShapeStyle.t → ShapeStyle.t → float * float }.
End v2d.

Module EdgeLayoutPoint.
Record t := mk { groupWidth : float; pointInGroup : float }.
End EdgeLayoutPoint.

Module EdgeGroup.
Record t := mk { edges : gmap string Edge.t; summarize : bool }.

Class Ops := {
  calculateEdgeShiftedPosition :
    EdgeLayoutPoint.t → bool → Position → Position → float → EdgeKeepOrderType →
    LinePosition }.
End EdgeGroup.

(** Modelled from the spec: [findFirstNonNull] of [common/utility], "the
    core-circle crossings of each line (or fall back to the node-circle
    crossing, or the raw line endpoint)": the first argument that is not
    null, the last one being a value. *)
Definition findFirstNonNull {A} (a b : option A) (c : A) : A :=
  match a, b with
  | Some p, _ => p
  | None, Some p => p
  | None, None => c
  end.

(** *** The host's [Math] functions on numbers *)

Module Math.
Definition isNaN (a : float) : bool := negb (a =? a)%float.

(** [Math.max]: NaN if either argument is NaN, and [+0] is larger than
    [-0]. *)
Definition max (a b : float) : float :=
  if isNaN a then a
  else if isNaN b then b
  else if (a <? b)%float then b
  else if (b <? a)%float then a
  else if (1 / a <? 1 / b)%float then b else a.

(** [Math.min]: NaN if either argument is NaN, and [-0] is smaller than
    [+0]. *)
Definition min (a b : float) : float :=
  if isNaN a then a
  else if isNaN b then b
  else if (a <? b)%float then a
  else if (b <? a)%float then b
  else if (1 / a <? 1 / b)%float then a else b.

Definition abs (a : float) : float := PrimFloat.abs a.

(** [isFinite]: neither NaN nor an infinity. *)
Definition isFinite (a : float) : bool := (PrimFloat.abs a <? infinity)%float.
End Math.

(** [EPSILON = Number.EPSILON * 100] of the paths component. *)
Definition EPSILON : float := (0x1p-52 * 100)%float.

(** ** [composables/state.ts] *)

(** A property read on [undefined] throws. *)
Inductive Completion (A : Type) :=
  | Normal (a : A)
  | TypeError.
Arguments Normal {A} a.
Arguments TypeError {A}.

(** What [labelText] holds: a string, or a value of the host, the one
    that reading the names of [path] one after the other gives, starting
    from [Object.prototype], with [""] in its place when it is undefined
    or null. *)
Inductive Text :=
  | Str (s : string)
  | HostValue (path : list string).

(** [node[key] ?? ""] *)
Definition textOf `{Host} (node : Read Node) (key : string) : Text :=
  match node with
  | Own props =>
      match read props key with
      | Some (Own s) => Str s
      | Some (Member name) => HostValue [name]
      | None => Str EmptyString
      end
  | Member name => HostValue [name; key]
  end.

(** *** States of nodes

    Every [Ref] field of a node state is a computed value.  The record holds
    the value each of them has cached ([None]: [undefined], nothing cached
    yet); a getter that reads its own field, [unref(state.shape)] inside the
    getter of [state.shape], gets that cached value. *)
Module NodeState.
Record t := mk {
  shape : option ShapeStyle.t;
  staticShape : option ShapeStyle.t;
  label : option NodeLabelStyle.t;
  labelText : option Text;
  selected : bool;
  hovered : bool;
  draggable : option bool;
  selectable : option Selectable }.
End NodeState.

Definition getNodeStaticShape (node : Read Node) (selected : bool) (config : NodeConfig.t)
  : ShapeStyle.t :=
  match selected, NodeConfig.selected config with
  | true, Some c => ShapeConfig.values c node
  | _, _ => ShapeConfig.values (NodeConfig.normal config) node
  end.

Definition getNodeShape (node : Read Node) (selected hovered : bool) (config : NodeConfig.t)
  : ShapeStyle.t :=
  match hovered, NodeConfig.hover config with
  | true, Some c => ShapeConfig.values c node
  | _, _ => getNodeStaticShape node selected config
  end.

(** The getters that [createNodeState] installs, one per computed field.
    The test [!nodes.value[id]] of a getter is on what the read of the node
    gives, which is also what the getter goes on with. *)
Module createNodeState.
Section getters.
Context `{!Host} (nodes : gmap string Node) (id : string) (config : NodeConfig.t).

Definition shape (state : NodeState.t) : option ShapeStyle.t :=
  match read nodes id with
  | None => NodeState.shape state
  | Some node =>
    Some (getNodeShape node (NodeState.selected state) (NodeState.hovered state) config)
  end.

Definition staticShape (state : NodeState.t) : option ShapeStyle.t :=
  match read nodes id with
  | None => NodeState.staticShape state
  | Some node => Some (getNodeStaticShape node (NodeState.selected state) config)
  end.

Definition label (state : NodeState.t) : option NodeLabelStyle.t :=
  match read nodes id with
  | None => NodeState.label state
  | Some node => Some (NodeLabelConfig.values (NodeConfig.label config) node)
  end.

(** [unref(state.label).text]: the current value of the [label] computed,
    whose [text] is read. *)
Definition labelDotText (state : NodeState.t) : Completion string :=
  match label state with
  | Some l => Normal (NodeLabelStyle.text l)
  | None => TypeError
  end.

Definition labelText (state : NodeState.t) : Completion (option Text) :=
  if Config.isFunction (NodeLabelConfig.text (NodeConfig.label config)) then
  match labelDotText state with
  | Normal s => Normal (Some (Str s))
  | TypeError => TypeError
  end
  else
  match read nodes id with
  | None => Normal (NodeState.labelText state)
  | Some node =>
      match labelDotText state with
      | Normal key => Normal (Some (textOf node key))
      | TypeError => TypeError
      end
  end.

Definition draggable (state : NodeState.t) : option bool :=
  match read nodes id with
  | None => NodeState.draggable state
  | Some node => Some (Config.value (NodeConfig.draggable config) node)
  end.

Definition selectable (state : NodeState.t) : option Selectable :=
  match read nodes id with
  | None => NodeState.selectable state
  | Some node => Some (Config.value (NodeConfig.selectable config) node)
  end.
End getters.
End createNodeState.

(** *** States of edges *)

(** The [Line] of an edge state: the resolved markers and the normal stroke
    width (the stroke style itself is only handed to the marker registry). *)
Module Line.
Record t := mk {
  normalWidth : float;
  source : MarkerStyle.t;
  target : MarkerStyle.t }.
End Line.

Module EdgeConfig.
Record t := mk {
  type : EdgeType;
  margin : option float;
  keepOrder : EdgeKeepOrderType }.
End EdgeConfig.

(** The geometry fields of an edge state, and the two flags. *)
Module EdgeState.
Record t := mk {
  selected : bool;
  hovered : bool;
  origin : LinePosition;
  labelPosition : LinePosition;
  position : LinePosition;
  curve : option Curve.t }.

Definition set_labelPosition (p : LinePosition) (s : t) : t :=
  mk (selected s) (hovered s) (origin s) p (position s) (curve s).
Definition set_origin (p : LinePosition) (s : t) : t :=
  mk (selected s) (hovered s) p (labelPosition s) (position s) (curve s).
Definition set_position (p : LinePosition) (s : t) : t :=
  mk (selected s) (hovered s) (origin s) (labelPosition s) p (curve s).
Definition set_curve (c : option Curve.t) (s : t) : t :=
  mk (selected s) (hovered s) (origin s) (labelPosition s) (position s) c.
End EdgeState.

Definition is_none (t : EdgeHeadType) : bool :=
  match t with head_none => true | _ => false end.

Definition is_strokeWidth (u : MarkerUnits) : bool :=
  match u with strokeWidth => true | userSpaceOnUse => false end.

Section state.
Context `{!Host, !V.Ops, !v2d.Ops, !EdgeGroup.Ops}.

(** An invocation of [V.calculateCircleCenterAndRadiusBy3Points], by its
    three arguments. *)
Definition CircleCall : Type := V.Vector * V.Vector * V.Vector.

(** [calculateCurvePositionAndState], together with the invocations of the
    circumcircle routine it makes, in order. *)
Definition calculateCurvePositionAndState_traced
    (originPosition shiftedPosition : LinePosition)
    (shift sourceMargin targetMargin : float)
  : (LinePosition * option Curve.t) * list CircleCall :=
  let origin := V.fromLinePosition originPosition in
  let shifted := V.fromLinePosition shiftedPosition in
  let shiftedCenter := V.getCenterOfLinePosition shiftedPosition in
  (* Calculate the center and radius of the circle of the curve. *)
  let '(center, radius) :=
    V.calculateCircleCenterAndRadiusBy3Points
      (V.source origin) (V.target origin) shiftedCenter in
  let calls := [(V.source origin, V.target origin, shiftedCenter)] in
  let curve : option Curve.t := None in
  if (shift =? 0)%float then
    if (sourceMargin =? 0)%float && (targetMargin =? 0)%float then
      ((originPosition, curve), calls)
    else
      ((v2d.applyMarginToLine originPosition sourceMargin targetMargin, curve), calls)
  else
    let centerToTop := V.fromVectors center shiftedCenter in
    (* Direction of rotation from source to center: *)
    let theta0 :=
      V.calculateRelativeAngleRadian (V.fromVectors center (V.source origin)) centerToTop in
    let finish (position : LinePosition) :=
      let '(p1, p2) := V.toVectorsFromLinePosition position in
      let control := v2d.calculateBezierCurveControlPoint p1 center p2 theta0 in
      ((position,
        Some (Curve.mk shiftedCenter theta0 (Circle.mk center radius) control)), calls) in
    if (sourceMargin =? 0)%float && (targetMargin =? 0)%float then
      finish originPosition
    else
      let sourceMoveRad := (sourceMargin / radius)%float in
      let targetMoveRad := (targetMargin / radius)%float in
      (* Determine which direction to move. *)
      let sourceMoveRad :=
        if (0 <? theta0)%float then (sourceMoveRad * -1)%float else sourceMoveRad in
      let targetMoveRad :=
        if (0 <? theta0)%float then (targetMoveRad * -1)%float else targetMoveRad in
      let position :=
        v2d.positionsToLinePosition
          (v2d.moveOnCircumference (V.source origin) center sourceMoveRad)
          (v2d.moveOnCircumference (V.target origin) center (- targetMoveRad)%float) in
      let theta1 :=
        V.calculateRelativeAngleRadian
          (V.fromVectors center (V.source origin))
          (V.fromVectors center (V.target origin)) in
      let theta2 :=
        V.calculateRelativeAngleRadian
          (V.fromPositions center (mkPosition (x1 position) (y1 position)))
          (V.fromPositions center (mkPosition (x2 position) (y2 position))) in
      let '(theta1, theta2) :=
        if (theta0 * theta1 <? 0)%float then
          (v2d.reverseAngleRadian theta1,
           if (theta0 * theta2 <? 0)%float then v2d.reverseAngleRadian theta2 else theta2)
        else (theta1, theta2) in
      if (theta1 * theta2 <? 0)%float then
        (* reversed *)
        let c :=
          V.add shiftedCenter (V.multiplyScalar (V.normalize (V.v shifted)) 0.5) in
        ((v2d.positionsToLinePosition shiftedCenter c, curve), calls)
      else
        finish position.

Definition calculateCurvePositionAndState
    (originPosition shiftedPosition : LinePosition)
    (shift sourceMargin targetMargin : float) : LinePosition * option Curve.t :=
  (calculateCurvePositionAndState_traced
     originPosition shiftedPosition shift sourceMargin targetMargin).1.

(** The quantities [calculateCurvePositionAndState] computes on its way,
    each as a function of the arguments. *)

(** The circle of the curve: through the two ends of the origin line and
    the middle of the shifted line. *)
Definition curveCircle (originPosition shiftedPosition : LinePosition)
  : V.Vector * float :=
  let origin := V.fromLinePosition originPosition in
  V.calculateCircleCenterAndRadiusBy3Points
    (V.source origin) (V.target origin) (V.getCenterOfLinePosition shiftedPosition).

(** [theta0], the direction of rotation from source to center. *)
Definition curveTheta0 (originPosition shiftedPosition : LinePosition) : float :=
  let origin := V.fromLinePosition originPosition in
  let center := (curveCircle originPosition shiftedPosition).1 in
  V.calculateRelativeAngleRadian
    (V.fromVectors center (V.source origin))
    (V.fromVectors center (V.getCenterOfLinePosition shiftedPosition)).

(** The ends of the origin line moved on the circumference by the
    margins. *)
Definition marginedPosition (originPosition shiftedPosition : LinePosition)
    (sourceMargin targetMargin : float) : LinePosition :=
  let origin := V.fromLinePosition originPosition in
  let '(center, radius) := curveCircle originPosition shiftedPosition in
  let theta0 := curveTheta0 originPosition shiftedPosition in
  let sourceMoveRad := (sourceMargin / radius)%float in
  let targetMoveRad := (targetMargin / radius)%float in
  let sourceMoveRad :=
    if (0 <? theta0)%float then (sourceMoveRad * -1)%float else sourceMoveRad in
  let targetMoveRad :=
    if (0 <? theta0)%float then (targetMoveRad * -1)%float else targetMoveRad in
  v2d.positionsToLinePosition
    (v2d.moveOnCircumference (V.source origin) center sourceMoveRad)
    (v2d.moveOnCircumference (V.target origin) center (- targetMoveRad)%float).

(** "If the endpoints are swapped by applying the margin": margins are
    applied (they are not both zero) and the angle from the source end to
    the target end, seen from the center and taken in the direction of
    [theta0], changes sign. *)
Definition marginsReverseEndpoints (originPosition shiftedPosition : LinePosition)
    (sourceMargin targetMargin : float) : bool :=
  if (sourceMargin =? 0)%float && (targetMargin =? 0)%float then false
  else
    let origin := V.fromLinePosition originPosition in
    let center := (curveCircle originPosition shiftedPosition).1 in
    let theta0 := curveTheta0 originPosition shiftedPosition in
    let position :=
      marginedPosition originPosition shiftedPosition sourceMargin targetMargin in
    let theta1 :=
      V.calculateRelativeAngleRadian
        (V.fromVectors center (V.source origin))
        (V.fromVectors center (V.target origin)) in
    let theta2 :=
      V.calculateRelativeAngleRadian
        (V.fromPositions center (mkPosition (x1 position) (y1 position)))
        (V.fromPositions center (mkPosition (x2 position) (y2 position))) in
    let '(theta1, theta2) :=
      if (theta0 * theta1 <? 0)%float then
        (v2d.reverseAngleRadian theta1,
         if (theta0 * theta2 <? 0)%float then v2d.reverseAngleRadian theta2 else theta2)
      else (theta1, theta2) in
    (theta1 * theta2 <? 0)%float.

(** The short line shown "at the center" when the endpoints are swapped. *)
Definition stubPosition (shiftedPosition : LinePosition) : LinePosition :=
  let shifted := V.fromLinePosition shiftedPosition in
  let shiftedCenter := V.getCenterOfLinePosition shiftedPosition in
  v2d.positionsToLinePosition shiftedCenter
    (V.add shiftedCenter (V.multiplyScalar (V.normalize (V.v shifted)) 0.5)).

(** The curve descriptor stored with a display line [position]. *)
Definition curveOf (originPosition shiftedPosition position : LinePosition) : Curve.t :=
  let '(center, radius) := curveCircle originPosition shiftedPosition in
  let theta0 := curveTheta0 originPosition shiftedPosition in
  let '(p1, p2) := V.toVectorsFromLinePosition position in
  Curve.mk (V.getCenterOfLinePosition shiftedPosition) theta0 (Circle.mk center radius)
    (v2d.calculateBezierCurveControlPoint p1 center p2 theta0).

(** What the specification gives for a straight edge on [line]: "position =
    origin shifted by the margins at each end; curve = undefined", and
    "with zero margins position equals origin exactly". *)
Definition straightPositionAndState (line : LinePosition)
    (sourceMargin targetMargin : float) : LinePosition * option Curve.t :=
  (if (sourceMargin =? 0)%float && (targetMargin =? 0)%float then line
   else v2d.applyMarginToLine line sourceMargin targetMargin,
   None).

(** The margin a marker asks for: [marker.margin + marker.width], times
    the normal stroke width when its units are ["strokeWidth"]. *)
Definition markerMargin (marker : MarkerStyle.t) (normalWidth : float) : float :=
  if is_none (MarkerStyle.type marker) then 0%float
  else
    let m := (MarkerStyle.margin marker + MarkerStyle.width marker)%float in
    if is_strokeWidth (MarkerStyle.units marker) then (m * normalWidth)%float else m.

(** The block "calculate margins" of the geometry effect: the margins of
    the two markers, to which the shape margins are added when a marker is
    drawn or a margin is configured. *)
Definition edgeMargins (l : Line.t) (config : EdgeConfig.t)
    (sourceShapeMargin targetShapeMargin : float) : float * float :=
  let sourceMargin := markerMargin (Line.source l) (Line.normalWidth l) in
  let targetMargin := markerMargin (Line.target l) (Line.normalWidth l) in
  match EdgeConfig.margin config with
  | None =>
      if negb (is_none (MarkerStyle.type (Line.source l)))
         || negb (is_none (MarkerStyle.type (Line.target l)))
      then ((sourceMargin + sourceShapeMargin)%float,
            (targetMargin + targetShapeMargin)%float)
      else (sourceMargin, targetMargin)
  | Some margin =>
      ((sourceMargin + (margin + sourceShapeMargin))%float,
       (targetMargin + (margin + targetShapeMargin))%float)
  end.

(** [edge?.source] and [edge?.target], as the property keys they are used
    for.  A member of [Object.prototype] has no [source] and no [target],
    and the key that [undefined] gives is ["undefined"]. *)
Definition endsOf (edge : Read Edge.t) : string * string :=
  match edge with
  | Own edge => (Edge.source edge, Edge.target edge)
  | Member _ => ("undefined", "undefined")
  end.

(** What [layouts[key]] hands on as a position.  A member of
    [Object.prototype] has no [x] and no [y]: its coordinates are
    [undefined], for which the model has NaN, the number that [undefined]
    is in arithmetic. *)
Definition positionOf (position : Read Position) : Position :=
  match position with
  | Own position => position
  | Member _ => mkPosition nan nan
  end.

(** The body of the geometry effect of [createEdgeState] (the first
    [watchEffect]), as a transformer of the edge state.  The group layout
    point and the summarized flag are read through [toRef]; [l] is the
    value of the [line] computed.  [nodeStates[key]?.staticShape] is the
    static shape of the own state of that key: a member of
    [Object.prototype] has no [staticShape]. *)
Definition calcEdgeGeometry
    (edges : gmap string Edge.t) (id : string)
    (layouts : gmap string Position) (nodeStates : gmap string NodeState.t)
    (edgeLayoutPoint : EdgeLayoutPoint.t) (isEdgeSummarized : bool)
    (l : Line.t) (config : EdgeConfig.t) (scale : float)
    (state : EdgeState.t) : EdgeState.t :=
  match read edges id with
  | None => state
  | Some edge =>
    match positionOf <$> read layouts (endsOf edge).1,
          positionOf <$> read layouts (endsOf edge).2,
          nodeStates !! (endsOf edge).1 ≫= NodeState.staticShape,
          nodeStates !! (endsOf edge).2 ≫= NodeState.staticShape with
    | Some source, Some target, Some sourceShape, Some targetShape =>
      (* calculate the line segment between center of nodes *)
      let shiftedPosition :=
        EdgeGroup.calculateEdgeShiftedPosition
          edgeLayoutPoint isEdgeSummarized source target scale
          (EdgeConfig.keepOrder config) in
      let '(sourceShapeMargin, targetShapeMargin) :=
        v2d.calculateDistancesFromCenterOfNodeToEndOfNode
          source target sourceShape targetShape in
      let s := scale in
      (* calculate the line segment between the outermost of the nodes *)
      let state :=
        EdgeState.set_labelPosition
          (v2d.applyMarginToLine shiftedPosition
             (sourceShapeMargin * s) (targetShapeMargin * s)) state in
      (* calculate margins *)
      let '(sourceMargin, targetMargin) :=
        edgeMargins l config sourceShapeMargin targetShapeMargin in
      (* calculate the line segments to be displayed with margins applied *)
      match EdgeConfig.type config with
      | type_straight =>
          let state := EdgeState.set_origin shiftedPosition state in
          let state := EdgeState.set_curve None state in
          if (sourceMargin =? 0)%float && (targetMargin =? 0)%float then
            EdgeState.set_position (EdgeState.origin state) state
          else
            EdgeState.set_position
              (v2d.applyMarginToLine (EdgeState.origin state)
                 (sourceMargin * s) (targetMargin * s)) state
      | type_curve =>
          let state :=
            EdgeState.set_origin (v2d.positionsToLinePosition source target) state in
          let shift :=
            (EdgeLayoutPoint.groupWidth edgeLayoutPoint / 2
             - EdgeLayoutPoint.pointInGroup edgeLayoutPoint)%float in
          let '(position, curve) :=
            calculateCurvePositionAndState
              (EdgeState.origin state) shiftedPosition shift
              (sourceMargin * s) (targetMargin * s) in
          let state := EdgeState.set_position position state in
          EdgeState.set_curve curve state
      end
    | _, _, _, _ => state
    end
  end.

(** The state record [createEdgeState] installs before the effect runs. *)
Definition initialEdgeState (selected : bool) : EdgeState.t :=
  let zero := mkLinePosition 0 0 0 0 in
  EdgeState.mk selected false zero zero zero None.
End state.

(** *** Summarized edge states *)

(** A summarized edge state holds one computed stroke, whose getter closes
    over the group object it was created for. *)
Module SummarizedEdgeState.
Record t := mk { group : EdgeGroup.t }.
End SummarizedEdgeState.

Definition isSummarized (edgeGroups : gmap string EdgeGroup.t) (id : string) : bool :=
  match edgeGroups !! id with
  | Some group => EdgeGroup.summarize group
  | None => false
  end.

(** [createSummarizedEdgeStates]: the entries of [groups] are filtered
    against the states as they are on entry, a state is stored for each of
    the remaining ones, and then every key of the states is visited and
    deleted when its group is missing or not summarized. *)
Definition createSummarizedEdgeStates
    (summarizedEdgeStates : gmap string SummarizedEdgeState.t)
    (edgeGroups : gmap string EdgeGroup.t) : gmap string SummarizedEdgeState.t :=
  let groups := edgeGroups in
  let missing :=
    List.filter
      (λ '(id, group),
         EdgeGroup.summarize group && bool_decide (summarizedEdgeStates !! id = None))
      (map_to_list groups) in
  let states :=
    foldl (λ states '(id, group), <[id := SummarizedEdgeState.mk group]> states)
      summarizedEdgeStates missing in
  foldl (λ states id, if isSummarized edgeGroups id then states else delete id states)
    states (map_to_list states).*1.

(** ** The paths component *)

Module EdgeObject.
Record t := mk { edgeId : string; edge : Edge.t }.
End EdgeObject.

Module PathObject.
Record t := mk { path : Path.t; edges : list EdgeObject.t }.
End PathObject.

Module EdgeLine.
Record t := mk {
  edgeId : string;
  source : string;
  target : string;
  line : V.Line;
  curve : option Curve.t }.
End EdgeLine.

(** The objects that [pathList] builds.  The interfaces [EdgeObject] and
    [PathObject] type the [edge] of an entry as an [Edge]; what the read
    [props.edges[edgeId]] puts there is an edge of the edge map or, for a
    name that [Object.prototype] defines, that member. *)
Module ListedEdge.
Record t := mk { edgeId : string; edge : Read Edge.t }.
End ListedEdge.

Module ListedPath.
Record t := mk { path : Path.t; edges : list ListedEdge.t }.
End ListedPath.

(** [pathList]: each identifier of a path is paired with what the read of
    the edge map gives for it, the pairs whose read is [undefined] are
    filtered out, and the path is skipped when anything was filtered. *)
Definition pathList `{!Host} (paths : list Path.t) (edgeMap : gmap string Edge.t)
  : list ListedPath.t :=
  omap
    (λ path,
       let edges :=
         omap (λ edgeId, ListedEdge.mk edgeId <$> read edgeMap edgeId) (Path.edges path) in
       if bool_decide (length edges ≠ length (Path.edges path)) then None
       else Some (ListedPath.mk path edges))
    paths.

(** A listed entry as the [EdgeObject] and the [PathObject] of the
    interfaces, which it is when its edge is an edge, respectively when
    each of its edges is one. *)
Definition asEdgeObject (entry : ListedEdge.t) : option EdgeObject.t :=
  match ListedEdge.edge entry with
  | Own edge => Some (EdgeObject.mk (ListedEdge.edgeId entry) edge)
  | Member _ => None
  end.

Definition asPathObject (entry : ListedPath.t) : option PathObject.t :=
  PathObject.mk (ListedPath.path entry) <$> mapM asEdgeObject (ListedPath.edges entry).

(** An entry of the point sequence: a point, or a non-empty array of points
    (control points followed by a target point), given by its leading
    entries and its last entry. *)
Inductive PointItem :=
  | Point (p : V.Vector)
  | Points (leading : list V.Vector) (last : V.Vector).

Definition lastPointOf (item : PointItem) : V.Vector :=
  match item with
  | Point p => p
  | Points _ p => p
  end.

Definition firstPointOf (leading : list V.Vector) (last : V.Vector) : V.Vector :=
  match leading with
  | p :: _ => p
  | [] => last
  end.

Definition _getNodeRadius (shape : ShapeStyle.t) : float :=
  match ShapeStyle.type shape with
  | shape_circle => ShapeStyle.radius shape
  | shape_rect => (Math.min (ShapeStyle.width shape) (ShapeStyle.height shape) / 2)%float
  end.

(** [[a, b].sort()]: the default order of strings. *)
Definition sort2 (a b : string) : string * string :=
  if String.ltb b a then (b, a) else (a, b).

(** [[a, b].includes(c)] *)
Definition includes2 (a b c : string) : bool :=
  bool_decide (a = c) || bool_decide (b = c).

(** The iterations [i >= 1] of the loop of [_detectDirectionsOfPathEdges],
    entered with the value of [lastNode]. *)
Fixpoint detectDirectionsFrom (lastNode : option string) (edges : list EdgeObject.t)
  : list bool :=
  match edges with
  | [] => []
  | e :: rest =>
      let source := Edge.source (EdgeObject.edge e) in
      let target := Edge.target (EdgeObject.edge e) in
      let isForward := bool_decide (lastNode = Some source) in
      isForward :: detectDirectionsFrom (Some (if isForward then target else source)) rest
  end.

Definition _detectDirectionsOfPathEdges (edges : list EdgeObject.t) : list bool :=
  match edges with
  | [] | [_] => [true]
  | e0 :: ((e1 :: rest) as tail) =>
      let source := Edge.source (EdgeObject.edge e0) in
      let target := Edge.target (EdgeObject.edge e0) in
      let source1 := Edge.source (EdgeObject.edge e1) in
      let target1 := Edge.target (EdgeObject.edge e1) in
      let isForward :=
        match rest with
        | e2 :: _ =>
            (* length > 2 *)
            let edge0 := sort2 source target in
            let edge1 := sort2 source1 target1 in
            if bool_decide (edge0.1 = edge1.1) && bool_decide (edge0.2 = edge1.2) then
              if includes2 (Edge.source (EdgeObject.edge e2))
                   (Edge.target (EdgeObject.edge e2)) target1
              then bool_decide (target = source1)   (* edge1 is forward *)
              else bool_decide (target = target1)   (* edge1 is reverse *)
            else includes2 source1 target1 target
        | [] => includes2 source1 target1 target
        end in
      isForward :: detectDirectionsFrom (Some (if isForward then target else source)) tail
  end.

Section paths.
Context `{!V.Ops, !v2d.Ops}.

Definition _getEdgeLine (edge : EdgeObject.t) (direction : bool) (state : EdgeState.t)
  : EdgeLine.t :=
  let position := EdgeState.origin state in
  let source := Edge.source (EdgeObject.edge edge) in
  let target := Edge.target (EdgeObject.edge edge) in
  let curve := EdgeState.curve state in
  if direction then
    EdgeLine.mk (EdgeObject.edgeId edge) source target (V.fromLinePosition position) curve
  else
    EdgeLine.mk (EdgeObject.edgeId edge) target source
      (V.fromLinePosition (v2d.inverseLine position))
      ((λ c, Curve.mk (Curve.center c) (- Curve.theta c)%float
               (Curve.circle c) (Curve.control c)) <$> curve).

Definition _getSlope (pos : V.Line) : float :=
  ((y (V.target pos) - y (V.source pos)) / (x (V.target pos) - x (V.source pos)))%float.

Definition _calculateEdgeOfNode
    (edge : EdgeLine.t) (nodeRadius : float) (nodeLayouts : gmap string Position)
    (direction : bool) : option V.Vector :=
  let nodeId := if direction then EdgeLine.source edge else EdgeLine.target edge in
  match EdgeLine.curve edge with
  | Some curve =>
      let moveRad := (nodeRadius / Circle.radius (Curve.circle curve))%float in
      let moveRad := if (0 <? Curve.theta curve)%float then (moveRad * -1)%float else moveRad in
      let moveRad := if negb direction then (moveRad * -1)%float else moveRad in
      Some (v2d.moveOnCircumference
              (if direction then V.source (EdgeLine.line edge)
               else V.target (EdgeLine.line edge))
              (Circle.center (Curve.circle curve)) moveRad)
  | None =>
      let '(source, target) :=
        if direction then (V.target (EdgeLine.line edge), V.source (EdgeLine.line edge))
        else (V.source (EdgeLine.line edge), V.target (EdgeLine.line edge)) in
      (* straight *)
      center ← nodeLayouts !! nodeId;
      Some (default source
              (V.getIntersectionOfLineTargetAndCircle source target center nodeRadius))
  end.

Definition _getIntersectionOfLines (prev next : EdgeLine.t) (nodePos : V.Vector)
  : option V.Vector :=
  match EdgeLine.curve prev, EdgeLine.curve next with
  | Some pc, Some nc =>
      if V.isEqualTo (V.target (EdgeLine.line prev)) (V.source (EdgeLine.line next)) then
        Some (V.target (EdgeLine.line prev))
      else
        (* curve -- curve *)
        V.getIntersectionOfCircles
          (Circle.center (Curve.circle pc)) (Circle.radius (Curve.circle pc))
          (Circle.center (Curve.circle nc)) (Circle.radius (Curve.circle nc))
          (Curve.center pc)
  | Some pc, None =>
      (* curve -- straight *)
      V.getIntersectionOfLineTargetAndCircle2
        (V.target (EdgeLine.line next)) (V.source (EdgeLine.line next))
        (Circle.center (Curve.circle pc)) (Circle.radius (Curve.circle pc)) nodePos
  | None, Some nc =>
      (* straight -- curve *)
      V.getIntersectionOfLineTargetAndCircle
        (V.source (EdgeLine.line prev)) (V.target (EdgeLine.line prev))
        (Circle.center (Curve.circle nc)) (Circle.radius (Curve.circle nc))
  | None, None =>
      (* straight -- straight *)
      let prevSlope := _getSlope (EdgeLine.line prev) in
      let nextSlope := _getSlope (EdgeLine.line next) in
      let isParallel :=
        (negb (Math.isFinite prevSlope) && negb (Math.isFinite nextSlope))
        || (Math.abs (prevSlope - nextSlope) <? EPSILON)%float in
      if isParallel then None
      else V.getIntersectionPointOfLines (EdgeLine.line prev) (EdgeLine.line next)
  end.

Definition _getIntersectionOfLineAndNode
    (edge : EdgeLine.t) (nodeCenter : V.Vector) (nodeRadius : float) (targetSide : bool)
  : option V.Vector :=
  match EdgeLine.curve edge with
  | Some curve =>
      V.getIntersectionOfCircles nodeCenter nodeRadius
        (Circle.center (Curve.circle curve)) (Circle.radius (Curve.circle curve))
        (Curve.center curve)
  | None =>
      V.getIntersectionOfLineTargetAndCircle
        (if targetSide then V.source (EdgeLine.line edge) else V.target (EdgeLine.line edge))
        (if targetSide then V.target (EdgeLine.line edge) else V.source (EdgeLine.line edge))
        nodeCenter nodeRadius
  end.

(** The block "Calculate transit points in the node" of the loop of
    [_calculatePathPoints]: the array [pos], whose three entries are the
    incoming transit point, the Bezier control point and the outgoing
    transit point. *)
Definition calculateTransitPos
    (prev next : EdgeLine.t) (nodePos : V.Vector) (crossPoint : option V.Vector)
    (nodeRadius nodeCoreRadius : float)
    (prevCoreIp nextCoreIp prevNodeIp nextNodeIp : option V.Vector)
  : V.Vector * V.Vector * V.Vector :=
  let prevTarget := V.target (EdgeLine.line prev) in
  let nextSource := V.source (EdgeLine.line next) in
  match crossPoint with
  | Some crossPoint =>
      let d := V.calculateDistance crossPoint nodePos in
      if (d <? nodeCoreRadius)%float then
        (* (1) the inner circle includes the intersection *)
        (findFirstNonNull prevCoreIp prevNodeIp prevTarget,
         crossPoint,
         findFirstNonNull nextCoreIp nextNodeIp nextSource)
      else if (d <=? nodeRadius)%float then
        (* (2) the node circle includes the intersection *)
        let p1 :=
          match prevNodeIp, prevCoreIp with
          | Some prevNodeIp, Some prevCoreIp =>
              if (V.calculateDistance crossPoint prevCoreIp
                  <? V.calculateDistance crossPoint prevNodeIp)%float
              then prevCoreIp else prevNodeIp
          | _, _ => default prevTarget prevNodeIp
          end in
        let p2 :=
          match nextNodeIp, nextCoreIp with
          | Some nextNodeIp, Some nextCoreIp =>
              if (V.calculateDistance crossPoint nextCoreIp
                  <? V.calculateDistance crossPoint nextNodeIp)%float
              then nextCoreIp else nextNodeIp
          | _, _ => default nextSource nextNodeIp
          end in
        (p1, crossPoint, p2)
      else
        (* (3) the intersection is out of the node *)
        match prevCoreIp, nextCoreIp, prevNodeIp, nextNodeIp with
        | Some prevCoreIp, Some nextCoreIp, _, _ => (prevCoreIp, nodePos, nextCoreIp)
        | _, _, Some prevNodeIp, Some nextNodeIp => (prevNodeIp, nodePos, nextNodeIp)
        | _, _, _, _ =>
            (findFirstNonNull prevCoreIp prevNodeIp prevTarget,
             nodePos,
             findFirstNonNull nextCoreIp nextNodeIp nextSource)
        end
  | None =>
      (* There is no intersection of two lines *)
      match prevCoreIp, nextCoreIp, prevNodeIp, nextNodeIp with
      | Some prevCoreIp, Some nextCoreIp, _, _ => (prevCoreIp, nodePos, nextCoreIp)
      | _, _, Some prevNodeIp, Some nextNodeIp => (prevNodeIp, nodePos, nextNodeIp)
      | _, _, _, _ => (prevTarget, nodePos, nextSource)
      end
  end.

(** [_getNodeRadius(nodeStates[nodeId].shape) * scale]; the read throws
    when the node has no state or no shape. *)
Definition scaledNodeRadius
    (nodeStates : gmap string NodeState.t) (nodeId : string) (scale : float)
  : option float :=
  state ← nodeStates !! nodeId;
  shape ← NodeState.shape state;
  Some (_getNodeRadius shape * scale)%float.

(** The guide radius of the inner circle of a node. *)
Definition coreRadius (nodeRadius scale : float) : float :=
  Math.max (nodeRadius * (2 / 3)) (nodeRadius - 4 * scale).

(** One iteration of the transit loop: [points] with the entries pushed
    for the node shared by [prev] and [next]. *)
Definition transitStep
    (nodeStates : gmap string NodeState.t) (nodeLayouts : gmap string Position)
    (scale : float) (curveInNode : bool)
    (prev next : EdgeLine.t) (points : list PointItem) : option (list PointItem) :=
  let nodeId := EdgeLine.source next in
  let nodePos := default (mkPosition 0 0) (nodeLayouts !! nodeId) in
  (* The intersection point of two lines *)
  let crossPoint := _getIntersectionOfLines prev next nodePos in
  nodeRadius ← scaledNodeRadius nodeStates nodeId scale;
  let nodeCoreRadius := coreRadius nodeRadius scale in
  let prevCoreIp := _getIntersectionOfLineAndNode prev nodePos nodeCoreRadius true in
  let nextCoreIp := _getIntersectionOfLineAndNode next nodePos nodeCoreRadius false in
  let prevNodeIp := _getIntersectionOfLineAndNode prev nodePos nodeRadius true in
  let nextNodeIp := _getIntersectionOfLineAndNode next nodePos nodeRadius false in
  let '(p1, c, p2) :=
    calculateTransitPos prev next nodePos crossPoint nodeRadius nodeCoreRadius
      prevCoreIp nextCoreIp prevNodeIp nextNodeIp in
  (* Specify points on the curve. *)
  match EdgeLine.curve prev with
  | Some prevCurve =>
      match last points with
      | Some lastPoints =>
          let lastPoint := lastPointOf lastPoints in
          let nextPoint := if curveInNode then p1 else c in
          let control :=
            v2d.calculateBezierCurveControlPoint
              lastPoint (Circle.center (Curve.circle prevCurve)) nextPoint
              (Curve.theta prevCurve) in
          if curveInNode then Some (points ++ [Points (control ++ [p1; c]) p2])
          else Some (points ++ [Points control nextPoint])
      | None => Some points
      end
  | None =>
      if curveInNode then Some (points ++ [Points [p1; c] p2])
      else
        match EdgeLine.curve next with
        | Some _ => Some (points ++ [Point c])      (* use control point as transit point *)
        | None => Some (points ++ [Point p1; Point p2])
        end
  end.

(** The transit loop, [i = 1 .. length - 1], over consecutive edge lines. *)
Fixpoint transitLoop
    (nodeStates : gmap string NodeState.t) (nodeLayouts : gmap string Position)
    (scale : float) (curveInNode : bool)
    (prev : EdgeLine.t) (rest : list EdgeLine.t) (points : list PointItem)
  : option (list PointItem) :=
  match rest with
  | [] => Some points
  | next :: rest' =>
      points' ← transitStep nodeStates nodeLayouts scale curveInNode prev next points;
      transitLoop nodeStates nodeLayouts scale curveInNode next rest' points'
  end.

(** The test that sets [isMarginOverRunStart] and [isMarginOverRunEnd]. *)
Definition isMarginOverRun (margin lineMargin nodeRadius : float) (line : V.Line) : bool :=
  (0 <? margin)%float
  && (V.calculateDistance (V.source line) (V.target line) <=? lineMargin + nodeRadius)%float.

(** The two trimming statements that end [_calculatePathPoints]. *)
Definition trimStart (points : list PointItem) : list PointItem :=
  match points with
  | [] => []
  | _ :: rest =>
      match rest with
      | Points leading lastp :: _ => Point (firstPointOf leading lastp) :: rest
      | _ => rest
      end
  end.

Definition trimEnd (points : list PointItem) : list PointItem := removelast points.

Definition trimOverrun (isMarginOverRunStart isMarginOverRunEnd : bool)
    (points : list PointItem) : list PointItem :=
  let points := if isMarginOverRunStart then trimStart points else points in
  if isMarginOverRunEnd then trimEnd points else points.

(** [margin + (pathEndType === "edgeOfNode" ? nodeRadius : 0)] *)
Definition lineMarginOf (pathEndType : PathEndType) (margin nodeRadius : float) : float :=
  (margin + match pathEndType with edgeOfNode => nodeRadius | centerOfNode => 0 end)%float.

(** The edge lines [edgePos] of a path: each edge with its detected
    direction and its state; a missing state is dereferenced, which
    throws. *)
Definition edgeLines (edges : list EdgeObject.t) (edgeStates : gmap string EdgeState.t)
  : option (list EdgeLine.t) :=
  let directions := _detectDirectionsOfPathEdges edges in
  mapM (λ '(edge, direction),
          _getEdgeLine edge direction <$> edgeStates !! EdgeObject.edgeId edge)
       (zip edges directions).

(** "Determine the starting point": the point pushed first and
    [isMarginOverRunStart]. *)
Definition startBlock
    (firstEdge : EdgeLine.t)
    (nodeStates : gmap string NodeState.t) (nodeLayouts : gmap string Position)
    (scale : float) (pathEndType : PathEndType) (margin : float)
  : option (V.Vector * bool) :=
  nodeRadius ← scaledNodeRadius nodeStates (EdgeLine.source firstEdge) scale;
  let lineMargin := lineMarginOf pathEndType margin nodeRadius in
  nextPoint ← (if (lineMargin <=? 0)%float then Some (V.source (EdgeLine.line firstEdge))
               else _calculateEdgeOfNode firstEdge lineMargin nodeLayouts true);
  nodeRadius ← scaledNodeRadius nodeStates (EdgeLine.target firstEdge) scale;
  Some (nextPoint, isMarginOverRun margin lineMargin nodeRadius (EdgeLine.line firstEdge)).

(** "Determine the terminate point": [points] with the last entry pushed,
    and [isMarginOverRunEnd]. *)
Definition endBlock
    (lastEdge : EdgeLine.t)
    (nodeStates : gmap string NodeState.t) (nodeLayouts : gmap string Position)
    (scale : float) (pathEndType : PathEndType) (margin : float)
    (points : list PointItem) : option (list PointItem * bool) :=
  nodeRadius ← scaledNodeRadius nodeStates (EdgeLine.target lastEdge) scale;
  let lineMargin := lineMarginOf pathEndType margin nodeRadius in
  nextPoint ← (if (lineMargin <=? 0)%float then Some (V.target (EdgeLine.line lastEdge))
               else _calculateEdgeOfNode lastEdge lineMargin nodeLayouts false);
  nodeRadius ← scaledNodeRadius nodeStates (EdgeLine.source lastEdge) scale;
  points ← match EdgeLine.curve lastEdge with
           | Some curve =>
               (* curve *)
               pos ← last points;
               let lastPoint := lastPointOf pos in
               let control :=
                 v2d.calculateBezierCurveControlPoint
                   lastPoint (Circle.center (Curve.circle curve)) nextPoint
                   (Curve.theta curve) in
               Some (points ++ [Points control nextPoint])
           | None =>
               (* straight *)
               Some (points ++ [Point nextPoint])
           end;
  Some (points, isMarginOverRun margin lineMargin nodeRadius (EdgeLine.line lastEdge)).

(** [_calculatePathPoints] up to the trimming: the points pushed by the
    start block, the transit loop and the terminate block, with the two
    overrun flags.  [None]: a [TypeError] (an edge without state, a node
    without state, shape or position where one is dereferenced). *)
Definition calculatePathPointsUntrimmed
    (path : PathObject.t)
    (nodeStates : gmap string NodeState.t) (nodeLayouts : gmap string Position)
    (edgeStates : gmap string EdgeState.t)
    (scale : float) (curveInNode : bool) (pathEndType : PathEndType) (margin : float)
  : option (list PointItem * bool * bool) :=
  (* Edge ID list -> List of Edge locations *)
  edgePos ← edgeLines (PathObject.edges path) edgeStates;
  firstEdge ← head edgePos;
  '(nextPoint, isMarginOverRunStart) ←
    startBlock firstEdge nodeStates nodeLayouts scale pathEndType margin;
  let points := [Point nextPoint] in
  points ← transitLoop nodeStates nodeLayouts scale curveInNode
             firstEdge (tail edgePos) points;
  lastEdge ← last edgePos;
  '(points, isMarginOverRunEnd) ←
    endBlock lastEdge nodeStates nodeLayouts scale pathEndType margin points;
  Some (points, isMarginOverRunStart, isMarginOverRunEnd).

Definition _calculatePathPoints
    (path : PathObject.t)
    (nodeStates : gmap string NodeState.t) (nodeLayouts : gmap string Position)
    (edgeStates : gmap string EdgeState.t)
    (scale : float) (curveInNode : bool) (pathEndType : PathEndType) (margin : float)
  : option (list PointItem) :=
  '(points, isMarginOverRunStart, isMarginOverRunEnd) ←
    calculatePathPointsUntrimmed path nodeStates nodeLayouts edgeStates
      scale curveInNode pathEndType margin;
  Some (trimOverrun isMarginOverRunStart isMarginOverRunEnd points).
End paths.

Module PathConfig.
Record t := mk {
  curveInNode : bool;
  end_ : PathEndType;
  margin : CallableValue float Path.t }.
End PathConfig.

(** [calcPathPoints] of the component. *)
Definition calcPathPoints `{!V.Ops, !v2d.Ops}
    (pathConfig : PathConfig.t)
    (nodeStates : gmap string NodeState.t) (nodeLayouts : gmap string Position)
    (edgeStates : gmap string EdgeState.t) (scale : float)
    (path : PathObject.t) : option (list PointItem) :=
  if bool_decide (length (PathObject.edges path) = 0) then Some []
  else
    let margin := (Config.value (PathConfig.margin pathConfig) (PathObject.path path) * scale)%float in
    _calculatePathPoints path nodeStates nodeLayouts edgeStates scale
      (PathConfig.curveInNode pathConfig) (PathConfig.end_ pathConfig) margin.

(** ** A reference implementation of the missing modules

    Used to run the embedding on concrete graphs.  The trigonometric
    functions stand for the host's [Math.sin], [Math.cos] and [Math.atan2],
    which the language leaves implementation-approximated: they are computed
    here by range reduction and Taylor series. *)
Module Reference.
Local Open Scope float_scope.

Definition PI : float := 0x1.921fb54442d18p+1.

(** Nearest integer, for arguments below [2^51] in magnitude. *)
Definition roundToInteger (a : float) : float := (a + 0x1.8p+52) - 0x1.8p+52.

(** [s + s*q/(k+1)/(k+2) ...]: the alternating series of [sin] and [cos],
    summed from the last term, where [q = -r*r]. *)
Fixpoint alternating (n : nat) (k : float) (q : float) : float :=
  match n with
  | O => 1
  | S n' => 1 + q / ((k + 1) * (k + 2)) * alternating n' (k + 2) q
  end.

Definition reduce (a : float) : float := a - 2 * PI * roundToInteger (a / (2 * PI)).

Definition sin (a : float) : float :=
  let r := reduce a in r * alternating 14 1 (- (r * r)).

Definition cos (a : float) : float :=
  let r := reduce a in alternating 14 0 (- (r * r)).

(** [t - t^3/3 + t^5/5 - ...], summed from the last term. *)
Fixpoint atanSeries (n : nat) (k : float) (q : float) : float :=
  match n with
  | O => 1 / k
  | S n' => 1 / k + q * atanSeries n' (k + 2) q
  end.

Definition halveTangent (t : float) : float := t / (1 + sqrt (1 + t * t)).

Definition atanSmall (t : float) : float :=
  let u := halveTangent (halveTangent t) in
  4 * (u * atanSeries 14 1 (- (u * u))).

Definition atan (t : float) : float :=
  if 1 <? t then PI / 2 - atanSmall (1 / t)
  else if t <? -1 then - (PI / 2) - atanSmall (1 / t)
  else atanSmall t.

Definition atan2 (b a : float) : float :=
  if 0 <? a then atan (b / a)
  else if a <? 0 then
    (if (b <? 0) || ((b =? 0) && (1 / b <? 0)) then atan (b / a) - PI
     else atan (b / a) + PI)
  else if 0 <? b then PI / 2
  else if b <? 0 then - (PI / 2)
  else 0.

Definition subtract (a b : V.Vector) : V.Vector := mkPosition (x a - x b) (y a - y b).
Definition dot (a b : V.Vector) : float := x a * x b + y a * y b.
Definition cross (a b : V.Vector) : float := x a * y b - y a * x b.
Definition length (a : V.Vector) : float := sqrt (dot a a).

(** Modelled from the spec: victor's [add]. *)
Definition add (a b : V.Vector) : V.Vector := mkPosition (x a + x b) (y a + y b).

(** Modelled from the spec: victor's [multiplyScalar]. *)
Definition multiplyScalar (a : V.Vector) (k : float) : V.Vector :=
  mkPosition (x a * k) (y a * k).

(** Modelled from the spec: victor's [normalize], the unit vector of the
    same direction, and [(1, 0)] for the zero vector. *)
Definition normalize (a : V.Vector) : V.Vector :=
  let l := length a in
  if l =? 0 then mkPosition 1 0 else mkPosition (x a / l) (y a / l).

(** Modelled from the spec: victor's [isEqualTo]. *)
Definition isEqualTo (a b : V.Vector) : bool := (x a =? x b) && (y a =? y b).

(** Modelled from the spec: [V.fromPositions] and [V.fromVectors], the
    line between two points with its direction vector. *)
Definition fromVectors (s t : V.Vector) : V.Line := V.mkLine s t (subtract t s).

(** Modelled from the spec: [V.fromLinePosition]. *)
Definition fromLinePosition (l : LinePosition) : V.Line :=
  fromVectors (mkPosition (x1 l) (y1 l)) (mkPosition (x2 l) (y2 l)).

(** Modelled from the spec: [V.toVectorsFromLinePosition]. *)
Definition toVectorsFromLinePosition (l : LinePosition) : V.Vector * V.Vector :=
  (mkPosition (x1 l) (y1 l), mkPosition (x2 l) (y2 l)).

(** Modelled from the spec: [V.getCenterOfLinePosition], the midpoint. *)
Definition getCenterOfLinePosition (l : LinePosition) : V.Vector :=
  mkPosition ((x1 l + x2 l) / 2) ((y1 l + y2 l) / 2).

(** Modelled from the spec: [V.calculateDistance]. *)
Definition calculateDistance (a b : V.Vector) : float := length (subtract b a).

(** Modelled from the spec: [circleFrom3Points], "circumcircle of three
    points": the circumcenter by the determinant formula and its distance
    to the first point. *)
Definition calculateCircleCenterAndRadiusBy3Points (p1 p2 p3 : V.Vector)
  : V.Vector * float :=
  let d := 2 * (x p1 * (y p2 - y p3) + x p2 * (y p3 - y p1) + x p3 * (y p1 - y p2)) in
  let n1 := dot p1 p1 in
  let n2 := dot p2 p2 in
  let n3 := dot p3 p3 in
  let center :=
    mkPosition
      ((n1 * (y p2 - y p3) + n2 * (y p3 - y p1) + n3 * (y p1 - y p2)) / d)
      ((n1 * (x p3 - x p2) + n2 * (x p1 - x p3) + n3 * (x p2 - x p1)) / d) in
  (center, calculateDistance center p1).

(** Three points are collinear when the triangle they span has no area. *)
Definition collinear (p1 p2 p3 : V.Vector) : bool :=
  cross (subtract p2 p1) (subtract p3 p1) =? 0.

(** Modelled from the spec: [relativeAngle], "signed radians in (-pi, pi]"
    between the directions of two lines; the sign is the one for which
    walking a margin along the circumference shortens the arc. *)
Definition calculateRelativeAngleRadian (l1 l2 : V.Line) : float :=
  atan2 (- cross (V.v l1) (V.v l2)) (dot (V.v l1) (V.v l2)).

(** The points [s + t (e - s)] of a line on a circle: the two parameters
    [t], smallest first, when there are any. *)
Definition lineCircleParameters (s e center : V.Vector) (radius : float)
  : option (float * float) :=
  let d := subtract e s in
  let f := subtract s center in
  let a := dot d d in
  let b := 2 * dot f d in
  let c := dot f f - radius * radius in
  let disc := b * b - 4 * a * c in
  if (disc <? 0) || (a =? 0) || Math.isNaN disc then None
  else Some ((- b - sqrt disc) / (2 * a), (- b + sqrt disc) / (2 * a)).

Definition pointAt (s e : V.Vector) (t : float) : V.Vector :=
  add s (multiplyScalar (subtract e s) t).

Definition onSegment (t : float) : bool := (0 <=? t) && (t <=? 1).

(** Modelled from the spec: [intersectLineCircle], "intersection of the
    ray/segment nearest source-side with a circle; returns null if the line
    does not meet the circle within the relevant half". *)
Definition getIntersectionOfLineTargetAndCircle
    (source target center : V.Vector) (radius : float) : option V.Vector :=
  match lineCircleParameters source target center radius with
  | Some (t1, t2) =>
      if onSegment t1 then Some (pointAt source target t1)
      else if onSegment t2 then Some (pointAt source target t2)
      else None
  | None => None
  end.

(** The one of two points that is nearer to a third. *)
Definition nearer (near a b : V.Vector) : V.Vector :=
  if calculateDistance near b <? calculateDistance near a then b else a.

(** Modelled from the spec: the "second variant" of [intersectLineCircle],
    which chooses between the two crossings of the line by a bias point. *)
Definition getIntersectionOfLineTargetAndCircle2
    (source target center : V.Vector) (radius : float) (near : V.Vector)
  : option V.Vector :=
  match lineCircleParameters source target center radius with
  | Some (t1, t2) => Some (nearer near (pointAt source target t1) (pointAt source target t2))
  | None => None
  end.

(** Modelled from the spec: [intersectCircles], "one of up to two
    intersection points, selecting the one nearer biasPoint; null if
    circles do not intersect". *)
Definition getIntersectionOfCircles
    (c1 : V.Vector) (r1 : float) (c2 : V.Vector) (r2 : float) (near : V.Vector)
  : option V.Vector :=
  let d := calculateDistance c1 c2 in
  if (d =? 0) || (r1 + r2 <? d) || (d <? PrimFloat.abs (r1 - r2)) || Math.isNaN d then None
  else
    let a := (r1 * r1 - r2 * r2 + d * d) / (2 * d) in
    let h := sqrt (r1 * r1 - a * a) in
    let u := multiplyScalar (subtract c2 c1) (1 / d) in
    let m := add c1 (multiplyScalar u a) in
    let n := mkPosition (- y u) (x u) in
    Some (nearer near (add m (multiplyScalar n h)) (add m (multiplyScalar n (- h)))).

(** Modelled from the spec: [intersectLines], the crossing of the two
    unbounded lines, null when they are parallel. *)
Definition getIntersectionPointOfLines (l1 l2 : V.Line) : option V.Vector :=
  let den := cross (V.v l1) (V.v l2) in
  if (den =? 0) || Math.isNaN den then None
  else
    let t := cross (subtract (V.source l2) (V.source l1)) (V.v l2) / den in
    Some (add (V.source l1) (multiplyScalar (V.v l1) t)).

(** Modelled from the spec: [v2d.positionsToLinePosition]. *)
Definition positionsToLinePosition (p1 p2 : Position) : LinePosition :=
  mkLinePosition (x p1) (y p1) (x p2) (y p2).

(** Modelled from the spec: [v2d.inverseLine], "endpoints swapped". *)
Definition inverseLine (l : LinePosition) : LinePosition :=
  mkLinePosition (x2 l) (y2 l) (x1 l) (y1 l).

(** Modelled from the spec: [v2d.applyMarginToLine], each end moved
    towards the other by its margin; when the ends would pass each other
    "the edge collapses to the trimmed/stub form". *)
Definition applyMarginToLine (l : LinePosition) (sourceMargin targetMargin : float)
  : LinePosition :=
  let line := fromLinePosition l in
  let u := normalize (V.v line) in
  let sv := add (V.source line) (multiplyScalar u sourceMargin) in
  let tv := subtract (V.target line) (multiplyScalar u targetMargin) in
  if dot (subtract tv sv) u <? 0 then
    let c1 := getCenterOfLinePosition l in
    positionsToLinePosition c1 (add c1 (multiplyScalar u 0.5))
  else positionsToLinePosition sv tv.

(** Modelled from the spec: [moveOnCircumference], "rotate point about
    center by a signed angle". *)
Definition moveOnCircumference (pos center : Position) (radian : float) : Position :=
  let dx := x pos - x center in
  let dy := y pos - y center in
  mkPosition (dx * cos radian - dy * sin radian + x center)
             (dx * sin radian + dy * cos radian + y center).

(** Modelled from the spec: [v2d.reverseAngleRadian], the same direction
    reached the other way round. *)
Definition reverseAngleRadian (theta : float) : float :=
  if 0 <? theta then - (PI * 2 - theta) else PI * 2 + theta.

(** Modelled from the spec: [bezierControlPoints], two control points on
    the tangents at the ends of the arc, at "a fixed control-point distance
    ratio (kappa) scaled by |theta|" of the radius. *)
Definition calculateBezierCurveControlPoint
    (p1 center p2 : V.Vector) (theta : float) : list V.Vector :=
  let kappa := 2 / 3 in
  let k := kappa * PrimFloat.abs theta in
  let turn (w : V.Vector) :=
    if 0 <? theta then mkPosition (y w) (- x w) else mkPosition (- y w) (x w) in
  [ add p1 (multiplyScalar (turn (subtract p1 center)) k);
    subtract p2 (multiplyScalar (turn (subtract p2 center)) k) ].

(** Distance from the center of a shape to its boundary in a direction. *)
Definition distanceToEndOfNode (u : V.Vector) (shape : ShapeStyle.t) : float :=
  match ShapeStyle.type shape with
  | shape_circle => ShapeStyle.radius shape
  | shape_rect =>
      Math.min (ShapeStyle.width shape / 2 / PrimFloat.abs (x u))
               (ShapeStyle.height shape / 2 / PrimFloat.abs (y u))
  end.

(** Modelled from the spec: "distance from node center to the node's
    visual boundary along the line direction (circle: radius; rectangle:
    boundary intersection with the line)". *)
Definition calculateDistancesFromCenterOfNodeToEndOfNode
    (source target : Position) (sourceShape targetShape : ShapeStyle.t) : float * float :=
  let u := normalize (subtract target source) in
  (distanceToEndOfNode u sourceShape, distanceToEndOfNode u targetShape).

(** Modelled from the spec: [calculateEdgeShiftedPosition], "origin
    laterally displaced by the group offset, perpendicular to the
    source-to-target direction, scaled by zoom scale"; a summarized edge is
    drawn on the origin line.  The order-keeping option is not described
    and is not interpreted. *)
Definition calculateEdgeShiftedPosition
    (edgeLayoutPoint : EdgeLayoutPoint.t) (isEdgeSummarized : bool)
    (source target : Position) (scale : float) (keepOrder : EdgeKeepOrderType)
  : LinePosition :=
  if isEdgeSummarized then positionsToLinePosition source target
  else
    let diff :=
      (EdgeLayoutPoint.pointInGroup edgeLayoutPoint
       - EdgeLayoutPoint.groupWidth edgeLayoutPoint / 2) * scale in
    let u := normalize (subtract target source) in
    let n := multiplyScalar (mkPosition (- y u) (x u)) diff in
    positionsToLinePosition (add source n) (add target n).

#[export] Instance V_ops : V.Ops := {|
  V.fromLinePosition := fromLinePosition;
  V.fromPositions := fromVectors;
  V.fromVectors := fromVectors;
  V.toVectorsFromLinePosition := toVectorsFromLinePosition;
  V.getCenterOfLinePosition := getCenterOfLinePosition;
  V.calculateCircleCenterAndRadiusBy3Points := calculateCircleCenterAndRadiusBy3Points;
  V.calculateRelativeAngleRadian := calculateRelativeAngleRadian;
  V.calculateDistance := calculateDistance;
  V.getIntersectionOfLineTargetAndCircle := getIntersectionOfLineTargetAndCircle;
  V.getIntersectionOfLineTargetAndCircle2 := getIntersectionOfLineTargetAndCircle2;
  V.getIntersectionOfCircles := getIntersectionOfCircles;
  V.getIntersectionPointOfLines := getIntersectionPointOfLines;
  V.add := add;
  V.normalize := normalize;
  V.multiplyScalar := multiplyScalar;
  V.isEqualTo := isEqualTo |}.

(** The names that [Object.prototype] defines. *)
Definition objectPrototype : list string :=
  [ "constructor"; "__defineGetter__"; "__defineSetter__"; "hasOwnProperty";
    "__lookupGetter__"; "__lookupSetter__"; "isPrototypeOf";
    "propertyIsEnumerable"; "toString"; "valueOf"; "__proto__"; "toLocaleString" ].

#[export] Instance host : Host := {|
  inherited name := bool_decide (name ∈ objectPrototype) |}.

#[export] Instance v2d_ops : v2d.Ops := {|
  v2d.positionsToLinePosition := positionsToLinePosition;
  v2d.applyMarginToLine := applyMarginToLine;
  v2d.inverseLine := inverseLine;
  v2d.moveOnCircumference := moveOnCircumference;
  v2d.reverseAngleRadian := reverseAngleRadian;
  v2d.calculateBezierCurveControlPoint := calculateBezierCurveControlPoint;
  v2d.calculateDistancesFromCenterOfNodeToEndOfNode :=
    calculateDistancesFromCenterOfNodeToEndOfNode |}.

#[export] Instance EdgeGroup_ops : EdgeGroup.Ops := {|
  EdgeGroup.calculateEdgeShiftedPosition := calculateEdgeShiftedPosition |}.
End Reference.


(** ** What the specification says, where it is compared with the code *)

Section specification.
Context `{!V.Ops, !v2d.Ops}.

(** "A short stub centered at the shifted midpoint (half-length = 0.5,
    direction = the shift vector normalized)": the line from half a unit
    before the middle to half a unit after it. *)
Definition centeredStub (shiftedPosition : LinePosition) : LinePosition :=
  let shiftedCenter := V.getCenterOfLinePosition shiftedPosition in
  let direction := V.normalize (V.v (V.fromLinePosition shiftedPosition)) in
  v2d.positionsToLinePosition
    (V.add shiftedCenter (V.multiplyScalar direction (-0.5)))
    (V.add shiftedCenter (V.multiplyScalar direction 0.5)).

(** "Transit points are the core-circle crossings if both lines have one,
    else the node-circle crossings if both have one, else fall back to the
    raw line endpoints", with the node center as control point. *)
Definition specTransitPos
    (prev next : EdgeLine.t) (nodePos : V.Vector)
    (prevCoreIp nextCoreIp prevNodeIp nextNodeIp : option V.Vector)
  : V.Vector * V.Vector * V.Vector :=
  match prevCoreIp, nextCoreIp, prevNodeIp, nextNodeIp with
  | Some prevCoreIp, Some nextCoreIp, _, _ => (prevCoreIp, nodePos, nextCoreIp)
  | _, _, Some prevNodeIp, Some nextNodeIp => (prevNodeIp, nodePos, nextNodeIp)
  | _, _, _, _ => (V.target (EdgeLine.line prev), nodePos, V.source (EdgeLine.line next))
  end.

(** "If the offset meets or exceeds the source-to-target distance, flag
    margin overrun", for a positive margin. *)
Definition specOverrun (margin lineMargin : float) (line : V.Line) : bool :=
  (0 <? margin)%float
  && (V.calculateDistance (V.source line) (V.target line) <=? lineMargin)%float.
End specification.

(** Every identifier of the path is the key of an edge. *)
Definition resolves (edgeMap : gmap string Edge.t) (path : Path.t) : Prop :=
  Forall (λ edgeId, is_Some (edgeMap !! edgeId)) (Path.edges path).

(** Every identifier of the path is the key of an edge or a name that
    [Object.prototype] defines. *)
Definition reads `{!Host} (edgeMap : gmap string Edge.t) (path : Path.t) : Prop :=
  Forall (λ edgeId, is_Some (edgeMap !! edgeId) ∨ inherited edgeId = true) (Path.edges path).

#[export] Instance reads_dec `{!Host} edgeMap path : Decision (reads edgeMap path).
Proof. unfold reads. apply _. Defined.

(** What a listed path holds for an identifier: the edge of that
    identifier, or the member of [Object.prototype] of that name when the
    identifier is not a key of the edge map. *)
Definition found (edgeMap : gmap string Edge.t) (edgeId : string) : ListedEdge.t :=
  ListedEdge.mk edgeId
    match edgeMap !! edgeId with
    | Some edge => Own edge
    | None => Member edgeId
    end.

(** Two edges "connect the identical unordered node pair". *)
Definition connectSameNodes (a b : Edge.t) : Prop :=
  (Edge.source a = Edge.source b ∧ Edge.target a = Edge.target b)
  ∨ (Edge.source a = Edge.target b ∧ Edge.target a = Edge.source b).

(** The node a path is at after an edge traversed forward or in reverse. *)
Definition reachedNode (edge : Edge.t) (forward : bool) : string :=
  if forward then Edge.target edge else Edge.source edge.

(** The entry put in front of a point sequence whose first entry was
    dropped: the first point of the entry that follows, when that entry is
    an array. *)
Definition reentry (rest : list PointItem) : list PointItem :=
  match rest with
  | Points leading lastp :: _ => [Point (firstPointOf leading lastp)]
  | _ => []
  end.

(** The edge configuration with another edge type. *)
Definition withType (type : EdgeType) (config : EdgeConfig.t) : EdgeConfig.t :=
  EdgeConfig.mk type (EdgeConfig.margin config) (EdgeConfig.keepOrder config).

(** The edge of the effect, a position of one of its ends or the static
    shape of one of its ends is missing: what the effect reads for it is
    [undefined]. *)
Definition entityMissing `{!Host} (edges : gmap string Edge.t) (id : string)
    (layouts : gmap string Position) (nodeStates : gmap string NodeState.t) : Prop :=
  read edges id = None
  ∨ ∃ edge, read edges id = Some edge
      ∧ (read layouts (endsOf edge).1 = None
         ∨ read layouts (endsOf edge).2 = None
         ∨ nodeStates !! (endsOf edge).1 ≫= NodeState.staticShape = None
         ∨ nodeStates !! (endsOf edge).2 ≫= NodeState.staticShape = None).

(** The operations [O] with another circumcircle routine. *)
Definition withCircleRoutine (O : V.Ops)
    (routine : V.Vector → V.Vector → V.Vector → V.Vector * float) : V.Ops :=
  {| V.fromLinePosition := V.fromLinePosition;
     V.fromPositions := V.fromPositions;
     V.fromVectors := V.fromVectors;
     V.toVectorsFromLinePosition := V.toVectorsFromLinePosition;
     V.getCenterOfLinePosition := V.getCenterOfLinePosition;
     V.calculateCircleCenterAndRadiusBy3Points := routine;
     V.calculateRelativeAngleRadian := V.calculateRelativeAngleRadian;
     V.calculateDistance := V.calculateDistance;
     V.getIntersectionOfLineTargetAndCircle := V.getIntersectionOfLineTargetAndCircle;
     V.getIntersectionOfLineTargetAndCircle2 := V.getIntersectionOfLineTargetAndCircle2;
     V.getIntersectionOfCircles := V.getIntersectionOfCircles;
     V.getIntersectionPointOfLines := V.getIntersectionPointOfLines;
     V.add := V.add;
     V.normalize := V.normalize;
     V.multiplyScalar := V.multiplyScalar;
     V.isEqualTo := V.isEqualTo |}.

(** ** Sample graphs *)

Module Sample.
Import Reference.
Local Open Scope float_scope.

Definition circleShape (radius : float) : ShapeStyle.t :=
  ShapeStyle.mk shape_circle radius 0 0 0 0 "#4466cc".

Definition labelStyle (text : string) : NodeLabelStyle.t :=
  NodeLabelStyle.mk true 4 "south" text 11 "#000000" 1.25.

Definition nodeState (radius : float) : NodeState.t :=
  NodeState.mk (Some (circleShape radius)) (Some (circleShape radius)) None None
    false false None None.

Definition straightEdgeState (origin : LinePosition) : EdgeState.t :=
  EdgeState.mk false false origin origin origin None.

(** Two nodes [A], [B] ten units apart and one edge between them. *)
Definition edges : gmap string Edge.t := {[ "e1" := Edge.mk "A" "B" ]}.
Definition layouts : gmap string Position :=
  {[ "A" := mkPosition 0 0; "B" := mkPosition 10 0 ]}.
Definition nodeStates : gmap string NodeState.t :=
  {[ "A" := nodeState 1; "B" := nodeState 1 ]}.

Definition noMarker : MarkerStyle.t := MarkerStyle.mk head_none 0 0 0 strokeWidth None.
Definition arrow : MarkerStyle.t := MarkerStyle.mk head_arrow 4 4 0 strokeWidth None.
Definition plainLine : Line.t := Line.mk 2 noMarker noMarker.
Definition arrowLine : Line.t := Line.mk 2 arrow arrow.

Definition curveConfig : EdgeConfig.t := EdgeConfig.mk type_curve None clock.
Definition straightConfig : EdgeConfig.t := EdgeConfig.mk type_straight None clock.

(** The only edge of its group, and the first of two edges four apart. *)
Definition alone : EdgeLayoutPoint.t := EdgeLayoutPoint.mk 0 0.
Definition firstOfTwo : EdgeLayoutPoint.t := EdgeLayoutPoint.mk 4 0.

(** The arguments of the curve computation for the edge [e1]: its origin
    line, its shifted line as the first of two edges, and the margin of
    nine units that the arrows and the node shapes ask for at each end. *)
Definition originAB : LinePosition :=
  positionsToLinePosition (mkPosition 0 0) (mkPosition 10 0).
Definition shiftedAB : LinePosition :=
  calculateEdgeShiftedPosition firstOfTwo false (mkPosition 0 0) (mkPosition 10 0) 1 clock.
Definition unshiftedAB : LinePosition :=
  calculateEdgeShiftedPosition alone false (mkPosition 0 0) (mkPosition 10 0) 1 clock.

(** Two paths over the edges of the first graph: one names an edge that
    does not exist. *)
Definition knownPath : Path.t := Path.mk ["e1"] ∅.
Definition unknownPath : Path.t := Path.mk ["e1"; "unknown"] ∅.
Definition inheritedPath : Path.t := Path.mk ["e1"; "constructor"] ∅.

(** Edge groups: one summarized, one not. *)
Definition groups : gmap string EdgeGroup.t :=
  {[ "A<=>B" := EdgeGroup.mk edges true; "B<=>C" := EdgeGroup.mk ∅ false ]}.
Definition staleStates : gmap string SummarizedEdgeState.t :=
  {[ "B<=>C" := SummarizedEdgeState.mk (EdgeGroup.mk ∅ true) ]}.

(** Three edges of which the first two join the same two nodes. *)
Definition backAndForth : list EdgeObject.t :=
  [EdgeObject.mk "a" (Edge.mk "A" "B"); EdgeObject.mk "b" (Edge.mk "A" "B");
   EdgeObject.mk "c" (Edge.mk "B" "C")].

(** The same with a third edge that leaves from [A]. *)
Definition awayFromThird : list EdgeObject.t :=
  [EdgeObject.mk "a" (Edge.mk "A" "B"); EdgeObject.mk "b" (Edge.mk "A" "B");
   EdgeObject.mk "c" (Edge.mk "A" "C")].

(** A node configuration whose label text is a function of the node. *)
Definition shapeConfig : ShapeConfig.t :=
  ShapeConfig.mk (Literal shape_circle) (Literal 16) (Literal 0) (Literal 0)
    (Literal 0) (Literal 0) (Literal "#4466cc").
Definition labelConfig (text : CallableValue string (Read Node)) : NodeLabelConfig.t :=
  NodeLabelConfig.mk (Literal true) (Literal 4) (Literal "south") text
    (Literal 11) (Literal "#000000") (Literal 1.25).
Definition nodeConfig (text : CallableValue string (Read Node)) : NodeConfig.t :=
  NodeConfig.mk shapeConfig None None (Literal true) (Literal (sel_bool true))
    (labelConfig text).
Definition nameOf : CallableValue string (Read Node) :=
  Callable (λ node,
    match node with
    | Own props => default EmptyString (props !! "name")
    | Member _ => EmptyString
    end).

(** The cached values of a node whose label was evaluated after its name
    changed from "A" to "B", while its label text was not. *)
Definition staleLabelText : NodeState.t :=
  NodeState.mk (Some (circleShape 16)) (Some (circleShape 16))
    (Some (labelStyle "B")) (Some (Str "A")) false false (Some true) (Some (sel_bool true)).

(** A path of two straight edges through [Q]: the first one ends at the
    center of [Q], the second one is the outer edge of a wide group and
    starts ten units beside the center; the radius of [Q] is four. *)
Definition pathEdges : gmap string Edge.t :=
  {[ "p1" := Edge.mk "P" "Q"; "p2" := Edge.mk "Q" "R" ]}.
Definition pathLayouts : gmap string Position :=
  {[ "P" := mkPosition (-100) 0; "Q" := mkPosition 0 0; "R" := mkPosition 100 50 ]}.
Definition pathNodeStates : gmap string NodeState.t :=
  {[ "P" := nodeState 4; "Q" := nodeState 4; "R" := nodeState 4 ]}.
Definition pathEdgeStates : gmap string EdgeState.t :=
  {[ "p1" := straightEdgeState (mkLinePosition (-100) 0 0 0);
     "p2" := straightEdgeState (mkLinePosition 0 10 100 60) ]}.
Definition pathObject : PathObject.t :=
  PathObject.mk (Path.mk ["p1"; "p2"] ∅)
    [EdgeObject.mk "p1" (Edge.mk "P" "Q"); EdgeObject.mk "p2" (Edge.mk "Q" "R")].

(** The transit of that path at [Q]. *)
Definition prevLine : EdgeLine.t :=
  _getEdgeLine (EdgeObject.mk "p1" (Edge.mk "P" "Q")) true
    (straightEdgeState (mkLinePosition (-100) 0 0 0)).
Definition nextLine : EdgeLine.t :=
  _getEdgeLine (EdgeObject.mk "p2" (Edge.mk "Q" "R")) true
    (straightEdgeState (mkLinePosition 0 10 100 60)).
Definition centerQ : V.Vector := mkPosition 0 0.
Definition radiusQ : float := 4.
Definition coreRadiusQ : float := coreRadius radiusQ 1.
Definition crossQ : option V.Vector := _getIntersectionOfLines prevLine nextLine centerQ.
Definition transitQ : V.Vector * V.Vector * V.Vector :=
  calculateTransitPos prevLine nextLine centerQ crossQ radiusQ coreRadiusQ
    (_getIntersectionOfLineAndNode prevLine centerQ coreRadiusQ true)
    (_getIntersectionOfLineAndNode nextLine centerQ coreRadiusQ false)
    (_getIntersectionOfLineAndNode prevLine centerQ radiusQ true)
    (_getIntersectionOfLineAndNode nextLine centerQ radiusQ false).
Definition specTransitQ : V.Vector * V.Vector * V.Vector :=
  specTransitPos prevLine nextLine centerQ
    (_getIntersectionOfLineAndNode prevLine centerQ coreRadiusQ true)
    (_getIntersectionOfLineAndNode nextLine centerQ coreRadiusQ false)
    (_getIntersectionOfLineAndNode prevLine centerQ radiusQ true)
    (_getIntersectionOfLineAndNode nextLine centerQ radiusQ false).

(** A straight chain [S - T - U] with nodes of radius 16, the first edge
    100 long and the second 200. *)
Definition chainLayouts : gmap string Position :=
  {[ "S" := mkPosition 0 0; "T" := mkPosition 100 0; "U" := mkPosition 300 0 ]}.
Definition chainNodeStates : gmap string NodeState.t :=
  {[ "S" := nodeState 16; "T" := nodeState 16; "U" := nodeState 16 ]}.
Definition chainEdgeStates : gmap string EdgeState.t :=
  {[ "c1" := straightEdgeState (mkLinePosition 0 0 100 0);
     "c2" := straightEdgeState (mkLinePosition 100 0 300 0) ]}.
Definition chain : PathObject.t :=
  PathObject.mk (Path.mk ["c1"; "c2"] ∅)
    [EdgeObject.mk "c1" (Edge.mk "S" "T"); EdgeObject.mk "c2" (Edge.mk "T" "U")].

(** The same chain with its first edge curved: the first of two edges
    forty apart, as the geometry effect computes it. *)
Definition chainEdges : gmap string Edge.t :=
  {[ "c1" := Edge.mk "S" "T"; "c2" := Edge.mk "T" "U" ]}.
Definition curvedFirst : EdgeState.t :=
  calcEdgeGeometry chainEdges "c1" chainLayouts chainNodeStates
    (EdgeLayoutPoint.mk 40 0) false plainLine curveConfig 1 (initialEdgeState false).
Definition curvedChainEdgeStates : gmap string EdgeState.t :=
  <[ "c1" := curvedFirst ]> chainEdgeStates.

(** The first edge line of the chain. *)
Definition firstLine : V.Line := fromLinePosition (mkLinePosition 0 0 100 0).
Definition lastLine : V.Line := fromLinePosition (mkLinePosition 100 0 300 0).
End Sample.

(** ** The rest of [provideStates]: the watchers, and the creation of states *)

Definition setNodeSelected (value : bool) (state : NodeState.t) : NodeState.t :=
  NodeState.mk (NodeState.shape state) (NodeState.staticShape state)
    (NodeState.label state) (NodeState.labelText state)
    value (NodeState.hovered state)
    (NodeState.draggable state) (NodeState.selectable state).

Definition setNodeHovered (value : bool) (state : NodeState.t) : NodeState.t :=
  NodeState.mk (NodeState.shape state) (NodeState.staticShape state)
    (NodeState.label state) (NodeState.labelText state)
    (NodeState.selected state) value
    (NodeState.draggable state) (NodeState.selectable state).

Definition setEdgeSelected (value : bool) (state : EdgeState.t) : EdgeState.t :=
  EdgeState.mk value (EdgeState.hovered state) (EdgeState.origin state)
    (EdgeState.labelPosition state) (EdgeState.position state) (EdgeState.curve state).

Definition setEdgeHovered (value : bool) (state : EdgeState.t) : EdgeState.t :=
  EdgeState.mk (EdgeState.selected state) value (EdgeState.origin state)
    (EdgeState.labelPosition state) (EdgeState.position state) (EdgeState.curve state).

(** [ids.forEach(id => { const state = states[id]; if (state && state.flag
    !== value) state.flag = value })], the loop the four flag watchers run
    over the identifiers that joined with [value = true] and over those that
    left with [value = false]. *)
Definition markStates {S : Type} (flag : S → bool) (setFlag : bool → S → S)
    (value : bool) (ids : list string) (states : gmap string S) : gmap string S :=
  foldl
    (λ states id,
       match states !! id with
       | Some state =>
           if eqb (flag state) value then states
           else <[id := setFlag value state]> states
       | None => states
       end)
    states ids.

(** What the loop of a flag watcher does to one state. *)
Definition marked {S : Type} (flag : S → bool) (setFlag : bool → S → S)
    (value : bool) (state : S) : S :=
  if eqb (flag state) value then state else setFlag value state.

(** The callback of a flag watcher, called with the new and the previous
    content of the selection (or hover) set, both spread into arrays. *)
Definition updateFlags {S : Type} (flag : S → bool) (setFlag : bool → S → S)
    (nodes prev : list string) (states : gmap string S) : gmap string S :=
  let append := List.filter (λ n, negb (bool_decide (n ∈ prev))) nodes in
  let removed := List.filter (λ n, negb (bool_decide (n ∈ nodes))) prev in
  markStates flag setFlag false removed (markStates flag setFlag true append states).

(** "update `node.selected` flag" *)
Definition watchSelectedNodes :=
  updateFlags NodeState.selected setNodeSelected.

(** "update `node.hovered` flag" *)
Definition watchHoveredNodes :=
  updateFlags NodeState.hovered setNodeHovered.

(** "update `edge.selected` flag" *)
Definition watchSelectedEdges :=
  updateFlags EdgeState.selected setEdgeSelected.

(** "update `edge.hovered` flag" *)
Definition watchHoveredEdges :=
  updateFlags EdgeState.hovered setEdgeHovered.

(** The entry [createNodeState] stores: the two flags, and computed fields
    that have nothing cached yet. *)
Definition newNodeState (selected hovered : bool) : NodeState.t :=
  NodeState.mk None None None None selected hovered None None.

(** [createNodeState], as far as the map of states goes. *)
Definition createNodeStateEntry (states : gmap string NodeState.t) (id : string)
    (selected hovered : bool) : gmap string NodeState.t :=
  <[id := newNodeState selected hovered]> states.

(** What the watcher of the node identifiers works on: the node states, the
    node positions of the layouts, and the two sets of selected and hovered
    nodes. *)
Module NodeWorld.
Record t := mk {
  nodeStates : gmap string NodeState.t;
  positions : gmap string Position;
  selectedNodes : gset string;
  hoveredNodes : gset string }.
End NodeWorld.

(** "node removed" *)
Definition removeNode (nodeId : string) (w : NodeWorld.t) : NodeWorld.t :=
  NodeWorld.mk
    (delete nodeId (NodeWorld.nodeStates w))
    (delete nodeId (NodeWorld.positions w))
    (NodeWorld.selectedNodes w ∖ {[nodeId]})
    (NodeWorld.hoveredNodes w ∖ {[nodeId]}).

(** "handle increase/decrease nodes": the callback of the watcher of the
    set of node identifiers. *)
Definition watchNodeIds (idSet prev : gset string) (w : NodeWorld.t) : NodeWorld.t :=
  let nodeStates :=
    foldl
      (λ states nodeId,
         if bool_decide (nodeId ∈ prev) then states
         else createNodeStateEntry states nodeId false false)
      (NodeWorld.nodeStates w) (elements idSet) in
  let w :=
    NodeWorld.mk nodeStates (NodeWorld.positions w)
      (NodeWorld.selectedNodes w) (NodeWorld.hoveredNodes w) in
  foldl
    (λ w nodeId, if bool_decide (nodeId ∈ idSet) then w else removeNode nodeId w)
    w (elements prev).


Section edge_states.
Context `{!Host, !V.Ops, !v2d.Ops, !EdgeGroup.Ops}.

(** What an edge state reads besides the topology: the layout point and
    the summarized flag of each edge in the group states, the value of its
    [line], the edge configuration and the scale. *)
Record EdgeInputs := mkEdgeInputs {
  layoutPointOf : string → EdgeLayoutPoint.t;
  summarizedOf : string → bool;
  lineOf : string → Line.t;
  edgeConfig : EdgeConfig.t;
  scaleValue : float }.

(** A run of the geometry effect of the edge [id]. *)
Definition runEdgeEffect (inputs : EdgeInputs)
    (edges : gmap string Edge.t) (layouts : gmap string Position)
    (nodeStates : gmap string NodeState.t) (id : string) (state : EdgeState.t)
  : EdgeState.t :=
  calcEdgeGeometry edges id layouts nodeStates
    (layoutPointOf inputs id) (summarizedOf inputs id) (lineOf inputs id)
    (edgeConfig inputs) (scaleValue inputs) state.

(** [createEdgeState]: nothing for an identifier without edge; otherwise
    the initial state is stored and the geometry effect runs at once. *)
Definition createEdgeState (inputs : EdgeInputs)
    (states : gmap string EdgeState.t) (nodeStates : gmap string NodeState.t)
    (edges : gmap string Edge.t) (id : string) (selected : bool)
    (layouts : gmap string Position) : gmap string EdgeState.t :=
  match edges !! id with
  | None => states
  | Some _ =>
      <[id := runEdgeEffect inputs edges layouts nodeStates id (initialEdgeState selected)]>
        states
  end.


(** What the watcher of the edge identifiers works on. *)
Record EdgeWorld := mkEdgeWorld {
  edgeStates : gmap string EdgeState.t;
  selectedEdges : gset string;
  hoveredEdges : gset string }.

(** "remove edge"; the state of the edge is dereferenced to stop its
    effects, which throws when there is none. *)
Definition removeEdge (edgeId : string) (w : EdgeWorld) : option EdgeWorld :=
  _ ← edgeStates w !! edgeId;
  Some (mkEdgeWorld (delete edgeId (edgeStates w))
          (selectedEdges w ∖ {[edgeId]}) (hoveredEdges w ∖ {[edgeId]})).

(** "handle increase/decrease edges": the callback of the watcher of the
    set of edge identifiers; [None] when it throws. *)
Definition watchEdgeIds (inputs : EdgeInputs)
    (edges : gmap string Edge.t) (layouts : gmap string Position)
    (nodeStates : gmap string NodeState.t)
    (idSet prev : gset string) (w : EdgeWorld) : option EdgeWorld :=
  let states :=
    foldl
      (λ states edgeId,
         if bool_decide (edgeId ∈ prev) then states
         else createEdgeState inputs states nodeStates edges edgeId false layouts)
      (edgeStates w) (elements idSet) in
  foldl
    (λ w edgeId,
       w ← w;
       if bool_decide (edgeId ∈ idSet) then Some w else removeEdge edgeId w)
    (Some (mkEdgeWorld states (selectedEdges w) (hoveredEdges w)))
    (elements prev).
End edge_states.

(** ** Walks *)

(** An edge joins two nodes, in one orientation or the other. *)
Definition joins (edge : Edge.t) (a b : string) : Prop :=
  (Edge.source edge = a ∧ Edge.target edge = b)
  ∨ (Edge.source edge = b ∧ Edge.target edge = a).

(** [nodes] is a walk along [edges]: there is one node more than there are
    edges, and the edge [i] joins the nodes [i] and [i + 1]. *)
Fixpoint isWalk (nodes : list string) (edges : list EdgeObject.t) : Prop :=
  match edges, nodes with
  | [], [_] => True
  | e :: edges', a :: nodes' =>
      match nodes' with
      | b :: _ => joins (EdgeObject.edge e) a b ∧ isWalk nodes' edges'
      | [] => False
      end
  | _, _ => False
  end.

(** An entry of the point sequence is a single point. *)
Definition isPoint (item : PointItem) : bool :=
  match item with Point _ => true | Points _ _ => false end.

(** A flag of the states mirrors a list of identifiers. *)
Definition mirrors {S : Type} (flag : S → bool) (ids : list string)
    (states : gmap string S) : Prop :=
  ∀ id state, states !! id = Some state → flag state = bool_decide (id ∈ ids).

(** ** More sample data *)

Module Scene.
Import Reference.

(** A triangle walk [A - B - C - A] over edges stored in mixed
    orientations. *)
Definition triangle : list EdgeObject.t :=
  [EdgeObject.mk "ba" (Edge.mk "B" "A"); EdgeObject.mk "bc" (Edge.mk "B" "C");
   EdgeObject.mk "ac" (Edge.mk "A" "C")].

(** Two vertical edge lines through a node at the origin. *)
Definition upLine : EdgeLine.t :=
  _getEdgeLine (EdgeObject.mk "u1" (Edge.mk "D" "O")) true
    (Sample.straightEdgeState (mkLinePosition 0 (-50) 0 0)).
Definition furtherUpLine : EdgeLine.t :=
  _getEdgeLine (EdgeObject.mk "u2" (Edge.mk "O" "U")) true
    (Sample.straightEdgeState (mkLinePosition 0 0 0 80)).

(** One selected node state and one that is not. *)
Definition flaggedStates : gmap string NodeState.t :=
  {[ "A" := setNodeSelected true (Sample.nodeState 1); "B" := Sample.nodeState 1 ]}.

Definition world : NodeWorld.t :=
  NodeWorld.mk Sample.nodeStates Sample.layouts {[ "A" ]} {[ "B" ]}.

Definition inputs : EdgeInputs :=
  mkEdgeInputs (λ _, Sample.firstOfTwo) (λ _, false) (λ _, Sample.plainLine)
    Sample.curveConfig 1.

Definition edgeWorld : EdgeWorld :=
  mkEdgeWorld
    {[ "old" := initialEdgeState true ]} {[ "old" ]} {[ "old" ]}.

Definition textByKey : NodeConfig.t := Sample.nodeConfig (Literal "name").
Definition namedNode : Node := {[ "name" := "Alice" ]}.

(** The edge states of the triangle, with the nodes at [A = (0, 0)],
    [B = (50, 0)] and [C = (50, 50)]. *)
Definition triangleStates : gmap string EdgeState.t :=
  {[ "ba" := Sample.straightEdgeState (mkLinePosition 50 0 0 0);
     "bc" := Sample.straightEdgeState (mkLinePosition 50 0 50 50);
     "ac" := Sample.straightEdgeState (mkLinePosition 0 0 50 50) ]}.

(** The edges after the edge [old] was replaced by the edge [new]. *)
Definition newEdges : gmap string Edge.t := {[ "new" := Edge.mk "A" "B" ]}.
End Scene.

(** * Properties *)

(** ** Comparisons of numbers *)

Ltac compare_cases :=
  repeat match goal with
    | |- context [Z.compare ?a ?b] => destruct (Z.compare_spec a b)
    | H : context [Z.compare ?a ?b] |- _ => destruct (Z.compare_spec a b)
    | |- context [Pos.compare ?a ?b] => destruct (Pos.compare_spec a b)
    | H : context [Pos.compare ?a ?b] |- _ => destruct (Pos.compare_spec a b)
    end.

Lemma SFltb_SFleb_false (a b c : spec_float) :
  SFltb a b = true → SFleb c a = true → SFltb b c = false.
Proof.
  unfold SFltb, SFleb, SFcompare.
  change (Pos.compare_cont Eq) with Pos.compare.
  destruct a as [sa|sa| |sa ma ea], b as [sb|sb| |sb mb eb], c as [sc|sc| |sc mc ec];
    try destruct sa; try destruct sb; try destruct sc; simpl; try congruence;
    intros; compare_cases; simpl in *; subst; try congruence; try lia.
Qed.

(** [r < d] and [c <= r] exclude [d < c]. *)
Lemma ltb_leb_false (r d c : float) :
  (r <? d)%float = true → (c <=? r)%float = true → (d <? c)%float = false.
Proof. rewrite !ltb_spec, leb_spec. apply SFltb_SFleb_false. Qed.

(** [r < d] excludes [d <= r]. *)
Lemma ltb_leb_asym (r d : float) : (r <? d)%float = true → (d <=? r)%float = false.
Proof.
  rewrite ltb_spec, leb_spec. unfold SFltb, SFleb, SFcompare.
  change (Pos.compare_cont Eq) with Pos.compare.
  destruct (Prim2SF r) as [sa|sa| |sa ma ea], (Prim2SF d) as [sb|sb| |sb mb eb];
    try destruct sa; try destruct sb; simpl; try congruence;
    intros; compare_cases; simpl in *; subst; try congruence; try lia.
Qed.

(** ** The renderable path list *)

Section pathList.
Context `{!Host} (edgeMap : gmap string Edge.t).

Lemma read_own {A : Type} (o : gmap string A) (key : string) (a : A) :
  o !! key = Some a → read o key = Some (Own a).
Proof. unfold read. by intros ->. Qed.

Lemma read_None {A : Type} (o : gmap string A) (key : string) :
  read o key = None ↔ o !! key = None ∧ inherited key = false.
Proof.
  unfold read. destruct (o !! key); [by split; [|intros [? _]]|].
  destruct (inherited key); by split; [|intros [_ ?]].
Qed.

Lemma read_is_Some {A : Type} (o : gmap string A) (key : string) :
  is_Some (read o key) ↔ is_Some (o !! key) ∨ inherited key = true.
Proof.
  unfold read. destruct (o !! key) as [a|].
  - split; [by left; eexists | by eexists].
  - destruct (inherited key).
    + split; [by right | by eexists].
    + split; [by intros [? ?] | by intros [[? ?]|?]].
Qed.

Abbreviation pair_up := (omap (λ edgeId, ListedEdge.mk edgeId <$> read edgeMap edgeId)).

Lemma pair_up_cons i ids :
  pair_up (i :: ids)
  = match read edgeMap i with
    | Some e => ListedEdge.mk i e :: pair_up ids
    | None => pair_up ids
    end.
Proof. cbn. by destruct (read edgeMap i). Qed.

Lemma pair_up_length ids : length (pair_up ids) ≤ length ids.
Proof.
  induction ids as [|i ids IH]; [done|].
  rewrite pair_up_cons. destruct (read edgeMap i); simpl; lia.
Qed.

Lemma pair_up_full ids :
  length (pair_up ids) = length ids
  ↔ Forall (λ i, is_Some (edgeMap !! i) ∨ inherited i = true) ids.
Proof.
  induction ids as [|i ids IH].
  - split; [constructor | done].
  - pose proof (pair_up_length ids).
    rewrite pair_up_cons, Forall_cons, <- read_is_Some.
    destruct (read edgeMap i) as [e|] eqn:Hi; simpl.
    + split.
      * intros Hl. split; [by eexists | apply IH; lia].
      * intros [_ Hf]. apply IH in Hf. lia.
    + split; [lia|]. by intros [[e He] _].
Qed.

Lemma pair_up_all ids :
  Forall (λ i, is_Some (edgeMap !! i) ∨ inherited i = true) ids →
  pair_up ids = found edgeMap <$> ids.
Proof.
  induction 1 as [|i ids Hi _ IH]; [done|].
  rewrite pair_up_cons, fmap_cons, IH. unfold found, read.
  destruct (edgeMap !! i) as [e|]; [done|].
  destruct Hi as [[e He]|Hi]; [done|]. by rewrite Hi.
Qed.

Lemma pathList_cons path paths :
  pathList (path :: paths) edgeMap
  = if decide (reads edgeMap path)
    then ListedPath.mk path (found edgeMap <$> Path.edges path) :: pathList paths edgeMap
    else pathList paths edgeMap.
Proof.
  unfold pathList. cbn [omap list_omap].
  destruct (decide (reads edgeMap path)) as [Hr|Hr].
  - rewrite bool_decide_eq_false_2; [by rewrite pair_up_all|].
    intros Hne. apply Hne. by apply pair_up_full.
  - rewrite bool_decide_eq_true_2; [done|].
    intros Heq. apply Hr. by apply pair_up_full.
Qed.

Lemma pathList_paths paths :
  ListedPath.path <$> pathList paths edgeMap = filter (reads edgeMap) paths.
Proof.
  induction paths as [|path paths IH]; [done|].
  rewrite pathList_cons, filter_cons.
  destruct (decide (reads edgeMap path)); [|done].
  rewrite fmap_cons. simpl. by f_equal.
Qed.

Lemma pathList_entries paths entry :
  entry ∈ pathList paths edgeMap ↔
  ListedPath.path entry ∈ paths ∧ reads edgeMap (ListedPath.path entry)
  ∧ ListedPath.edges entry = found edgeMap <$> Path.edges (ListedPath.path entry).
Proof.
  induction paths as [|path paths IH].
  - split; [by intros ?%elem_of_nil | by intros [?%elem_of_nil _]].
  - rewrite pathList_cons. destruct (decide (reads edgeMap path)) as [Hr|Hr].
    + rewrite !elem_of_cons, IH. split.
      * intros [->|(? & ? & ?)]; simpl; [by split; [left|] | by split; [right|]].
      * intros ([Heq|Hin] & Hreads & Hedges); [left | by right].
        destruct entry as [p es]. simpl in *. by subst.
    + rewrite IH, elem_of_cons. split; [by intros (? & ? & ?); split; [right|]|].
      intros ([Heq|Hin] & Hreads & Hedges); [|done].
      by subst.
Qed.

(** An entry of the list whose identifiers are keys of the edge map is a
    [PathObject], each edge of which is the edge of its identifier. *)
Lemma asPathObject_found path :
  resolves edgeMap path →
  ∃ edges,
    asPathObject (ListedPath.mk path (found edgeMap <$> Path.edges path))
    = Some (PathObject.mk path edges)
    ∧ Forall2 (λ edgeId eo,
                 EdgeObject.edgeId eo = edgeId
                 ∧ edgeMap !! edgeId = Some (EdgeObject.edge eo))
        (Path.edges path) edges.
Proof.
  unfold resolves, asPathObject. cbn [ListedPath.path ListedPath.edges].
  intros Hall.
  cut (∃ edges,
         mapM asEdgeObject (found edgeMap <$> Path.edges path) = Some edges
         ∧ Forall2 (λ edgeId eo,
                      EdgeObject.edgeId eo = edgeId
                      ∧ edgeMap !! edgeId = Some (EdgeObject.edge eo))
             (Path.edges path) edges).
  { intros (edges & -> & Hedges). by exists edges. }
  induction Hall as [|i ids [e He] _ (edges & Hedges & Hall)].
  - exists []. by split; [|constructor].
  - exists (EdgeObject.mk i e :: edges). split; [|by constructor].
    rewrite fmap_cons. cbn [mapM]. rewrite Hedges.
    unfold asEdgeObject, found. cbn [ListedEdge.edge ListedEdge.edgeId].
    by rewrite He.
Qed.

(** C1.  What the list holds, against the comment "reject a path includes
    unknown edge ID" of the code.  The paths of the entries are the given
    paths each identifier of which is a key of the edge map or a name of
    [Object.prototype], as given and in the order given, and an entry
    holds, for each identifier of its path in order, the edge of that
    identifier or, for an identifier that is no key of the edge map, the
    member of [Object.prototype] of that name.  So a path with an
    identifier that is no key of the edge map is left out when that
    identifier is no name of [Object.prototype]; but it is listed, with all
    its identifiers, when each of its unknown identifiers is such a
    name. *)
Theorem pathList_lists_inherited_names (paths : list Path.t) :
  ListedPath.path <$> pathList paths edgeMap = filter (reads edgeMap) paths
  ∧ (∀ entry, entry ∈ pathList paths edgeMap →
       ListedPath.edges entry = found edgeMap <$> Path.edges (ListedPath.path entry))
  ∧ (∀ path edgeId,
       edgeId ∈ Path.edges path → edgeMap !! edgeId = None → inherited edgeId = false →
       ∀ entry, entry ∈ pathList paths edgeMap → ListedPath.path entry ≠ path)
  ∧ (∀ path edgeId,
       path ∈ paths → edgeId ∈ Path.edges path → edgeMap !! edgeId = None →
       (∀ i, i ∈ Path.edges path → is_Some (edgeMap !! i) ∨ inherited i = true) →
       ListedPath.mk path (found edgeMap <$> Path.edges path) ∈ pathList paths edgeMap).
Proof.
  split; [apply pathList_paths|]. split; [|split].
  - by intros entry (_ & _ & ?)%pathList_entries.
  - intros path edgeId Hin Hnone Hname entry (_ & Hreads & _)%pathList_entries Heq.
    subst path. unfold reads in Hreads. rewrite Forall_forall in Hreads.
    destruct (Hreads _ Hin) as [[e He]|Hi]; congruence.
  - intros path edgeId Hpath _ _ Hall. apply pathList_entries. simpl.
    split; [done|]. split; [|done]. by apply Forall_forall.
Qed.
End pathList.

(** ** Summarized edge states *)

Section summarized.
Implicit Types (states : gmap string SummarizedEdgeState.t).
Implicit Types (groups : gmap string EdgeGroup.t).

Abbreviation store_all :=
  (foldl (λ states '(id, group), <[id := SummarizedEdgeState.mk group]> states)).

Lemma store_all_other (l : list (string * EdgeGroup.t)) states id :
  id ∉ l.*1 → store_all states l !! id = states !! id.
Proof.
  revert states. induction l as [|[k g] l IH]; intros states Hid; [done|].
  rewrite fmap_cons, not_elem_of_cons in Hid. destruct Hid as [Hne Hid].
  simpl. rewrite IH by done. by rewrite lookup_insert_ne.
Qed.

Lemma store_all_stored (l : list (string * EdgeGroup.t)) states id group :
  NoDup l.*1 → (id, group) ∈ l →
  store_all states l !! id = Some (SummarizedEdgeState.mk group).
Proof.
  revert states. induction l as [|[k g] l IH]; intros states Hnd Hin.
  - by apply elem_of_nil in Hin.
  - rewrite fmap_cons in Hnd. apply NoDup_cons in Hnd as [Hk Hnd].
    apply elem_of_cons in Hin as [[= <- <-]|Hin]; simpl.
    + rewrite store_all_other by done. apply lookup_insert_eq.
    + by apply IH.
Qed.

Lemma delete_unless_lookup (keep : string → bool) (ids : list string) states id :
  foldl (λ states id, if keep id then states else delete id states) states ids !! id
  = if keep id then states !! id
    else if decide (id ∈ ids) then None else states !! id.
Proof.
  revert states. induction ids as [|k ids IH]; intros states.
  - simpl. by destruct (keep id).
  - cbn [foldl]. rewrite IH. destruct (keep id) eqn:Hkeep.
    + destruct (keep k) eqn:Hk; [done|].
      rewrite lookup_delete_ne; [done|]. intros ->. congruence.
    + destruct (decide (id ∈ ids)) as [Hin|Hin].
      * by rewrite decide_True by (by right).
      * destruct (decide (id = k)) as [->|Hne].
        -- rewrite decide_True by left. rewrite Hkeep. apply lookup_delete_eq.
        -- rewrite decide_False by (rewrite elem_of_cons; tauto).
           destruct (keep k); [done | by rewrite lookup_delete_ne].
Qed.

Lemma filter_fst_NoDup {A} (f : string * A → bool) (l : list (string * A)) :
  NoDup l.*1 → NoDup (List.filter f l).*1.
Proof.
  induction l as [|[k a] l IH]; [done|].
  rewrite fmap_cons, NoDup_cons. intros [Hk Hnd].
  cbn [List.filter]. destruct (f (k, a)); [|by apply IH].
  rewrite fmap_cons, NoDup_cons. split; [|by apply IH].
  intros Hin. apply Hk. apply list_elem_of_fmap in Hin as ([k' a'] & -> & Hin).
  apply list_elem_of_In, filter_In in Hin as [Hin _].
  apply list_elem_of_fmap. exists (k', a'). split; [done | by apply list_elem_of_In].
Qed.

(** The state of every identifier after a run. *)
Lemma createSummarizedEdgeStates_lookup states groups id :
  createSummarizedEdgeStates states groups !! id
  = if isSummarized groups id then
      match states !! id with
      | Some state => Some state
      | None => SummarizedEdgeState.mk <$> groups !! id
      end
    else None.
Proof.
  unfold createSummarizedEdgeStates.
  set (missing := List.filter _ (map_to_list groups)).
  set (states1 := store_all states missing).
  assert (Hmissing : ∀ group, (id, group) ∈ missing ↔
            groups !! id = Some group ∧ EdgeGroup.summarize group = true
            ∧ states !! id = None).
  { intros group. unfold missing.
    rewrite list_elem_of_In, filter_In, <- list_elem_of_In, elem_of_map_to_list.
    rewrite andb_true_iff, bool_decide_eq_true. tauto. }
  assert (Hnd : NoDup missing.*1)
    by apply filter_fst_NoDup, NoDup_fst_map_to_list.
  assert (Hstates1 : states1 !! id
            = match states !! id with
              | Some state => Some state
              | None => if isSummarized groups id
                        then SummarizedEdgeState.mk <$> groups !! id else None
              end).
  { unfold states1, isSummarized.
    destruct (states !! id) as [state|] eqn:Hs.
    - rewrite store_all_other; [done|].
      intros ([k g] & Hk & Hin)%list_elem_of_fmap. simpl in Hk. subst k.
      apply Hmissing in Hin as (_ & _ & ?). congruence.
    - destruct (groups !! id) as [group|] eqn:Hg.
      + destruct (EdgeGroup.summarize group) eqn:Hsum.
        * apply store_all_stored; [done|]. by apply Hmissing.
        * rewrite store_all_other; [done|].
          intros ([k g] & Hk & Hin)%list_elem_of_fmap. simpl in Hk. subst k.
          apply Hmissing in Hin as (? & ? & _). congruence.
      + rewrite store_all_other; [done|].
        intros ([k g] & Hk & Hin)%list_elem_of_fmap. simpl in Hk. subst k.
        apply Hmissing in Hin as (? & _). congruence. }
  rewrite (delete_unless_lookup (isSummarized groups)).
  destruct (isSummarized groups id) eqn:Hsum.
  - rewrite Hstates1. by destruct (states !! id).
  - destruct (decide (id ∈ (map_to_list states1).*1)) as [Hin|Hin]; [done|].
    destruct (states1 !! id) as [state|] eqn:Hs; [|done].
    exfalso. apply Hin. apply list_elem_of_fmap. exists (id, state).
    split; [done | by apply elem_of_map_to_list].
Qed.

(** C10.  After a run of the maintenance an identifier has a summarized
    state exactly when its group exists and is summarized; the state of a
    group that was summarized and still is, is the one it had; the state of
    a group that is gone or no longer summarized is deleted; and a group
    that is summarized and had no state gets one, made for it. *)
Theorem summarized_states_follow_groups states groups id :
  let states' := createSummarizedEdgeStates states groups in
  (is_Some (states' !! id)
   ↔ ∃ group, groups !! id = Some group ∧ EdgeGroup.summarize group = true)
  ∧ (∀ state, states !! id = Some state → isSummarized groups id = true →
       states' !! id = Some state)
  ∧ (isSummarized groups id = false → states' !! id = None)
  ∧ (∀ group, states !! id = None → groups !! id = Some group →
       EdgeGroup.summarize group = true →
       states' !! id = Some (SummarizedEdgeState.mk group)).
Proof.
  intros states'. unfold states'. rewrite createSummarizedEdgeStates_lookup.
  unfold isSummarized. repeat split.
  - destruct (groups !! id) as [group|]; [|by intros [? [=]]].
    destruct (EdgeGroup.summarize group) eqn:Hsum; [by eexists | by intros [? [=]]].
  - intros (group & -> & ->). destruct (states !! id); by eexists.
  - intros state -> Hsum. by rewrite Hsum.
  - by intros ->.
  - intros group -> -> ->. done.
Qed.
End summarized.

(** ** Node states and edge geometry *)

Section state_properties.
Context `{host : !Host, vectorOps : !V.Ops, planeOps : !v2d.Ops, groupOps : !EdgeGroup.Ops}.

(** The four ways [calculateCurvePositionAndState] returns. *)
Lemma calculateCurvePositionAndState_cases originPosition shiftedPosition
    shift sourceMargin targetMargin :
  calculateCurvePositionAndState originPosition shiftedPosition
    shift sourceMargin targetMargin
  = if (shift =? 0)%float then
      straightPositionAndState originPosition sourceMargin targetMargin
    else if marginsReverseEndpoints originPosition shiftedPosition
              sourceMargin targetMargin
    then (stubPosition shiftedPosition, None)
    else
      let position :=
        if (sourceMargin =? 0)%float && (targetMargin =? 0)%float then originPosition
        else marginedPosition originPosition shiftedPosition sourceMargin targetMargin in
      (position, Some (curveOf originPosition shiftedPosition position)).
Proof.
  unfold calculateCurvePositionAndState, calculateCurvePositionAndState_traced,
    straightPositionAndState, marginsReverseEndpoints, marginedPosition, curveOf,
    stubPosition, curveTheta0, curveCircle.
  destruct (V.calculateCircleCenterAndRadiusBy3Points _ _ _) as [center radius].
  cbn [fst snd].
  destruct (shift =? 0)%float; [by destruct (_ && _)|].
  destruct ((sourceMargin =? 0)%float && (targetMargin =? 0)%float).
  - cbn [fst snd]. by destruct (V.toVectorsFromLinePosition _).
  - destruct (_ * _ <? 0)%float; cbn [fst snd];
      destruct (_ * _ <? 0)%float; cbn [fst snd]; try done;
      try (by destruct (V.toVectorsFromLinePosition _));
      destruct (_ * _ <? 0)%float; cbn [fst snd]; try done;
      by destruct (V.toVectorsFromLinePosition _).
Qed.

Lemma calculateCurvePositionAndState_calls originPosition shiftedPosition
    shift sourceMargin targetMargin :
  (calculateCurvePositionAndState_traced originPosition shiftedPosition
     shift sourceMargin targetMargin).2
  = [(V.source (V.fromLinePosition originPosition),
      V.target (V.fromLinePosition originPosition),
      V.getCenterOfLinePosition shiftedPosition)].
Proof.
  unfold calculateCurvePositionAndState_traced.
  destruct (V.calculateCircleCenterAndRadiusBy3Points _ _ _) as [center radius].
  repeat case_match; done.
Qed.

(** *** Missing entities *)

Lemma calcEdgeGeometry_missing edges id layouts nodeStates
    edgeLayoutPoint isEdgeSummarized l config scale state :
  entityMissing edges id layouts nodeStates →
  calcEdgeGeometry edges id layouts nodeStates
    edgeLayoutPoint isEdgeSummarized l config scale state = state.
Proof.
  unfold calcEdgeGeometry.
  intros [->|(edge & -> & Hmissing)]; [done|].
  destruct Hmissing as [-> | [-> | [-> | ->]]]; repeat case_match; done.
Qed.

(** C9, as the code has it.  While the read of the node is undefined (its
    identifier is no key of [nodes] and no name of [Object.prototype]), the
    getters of [shape], [staticShape], [label], [draggable] and
    [selectable] return the value they have cached, and so does the getter
    of [labelText] when the configured label text is a literal; when it is
    a function, the getter of [labelText] returns the text of the value
    cached for [label] (and throws when nothing is cached for it).  The
    geometry effect leaves the whole edge state, hence [origin],
    [labelPosition], [position] and [curve], as it is when the read of the
    edge is undefined and, for an edge of the edge map, when the read of
    the position of one of its ends is undefined or the node state of one
    of its ends is missing or has no static shape. *)
Theorem missing_entities_keep_cached_values
    (nodes : gmap string Node) (nodeId : string) (nodeConfig : NodeConfig.t)
    (nodeState : NodeState.t)
    (edges : gmap string Edge.t) (id : string)
    (layouts : gmap string Position) (nodeStates : gmap string NodeState.t)
    (edgeLayoutPoint : EdgeLayoutPoint.t) (isEdgeSummarized : bool)
    (l : Line.t) (config : EdgeConfig.t) (scale : float) (state : EdgeState.t) :
  (nodes !! nodeId = None → inherited nodeId = false →
     createNodeState.shape nodes nodeId nodeConfig nodeState = NodeState.shape nodeState
     ∧ createNodeState.staticShape nodes nodeId nodeConfig nodeState
       = NodeState.staticShape nodeState
     ∧ createNodeState.label nodes nodeId nodeConfig nodeState = NodeState.label nodeState
     ∧ createNodeState.draggable nodes nodeId nodeConfig nodeState
       = NodeState.draggable nodeState
     ∧ createNodeState.selectable nodes nodeId nodeConfig nodeState
       = NodeState.selectable nodeState
     ∧ createNodeState.labelText nodes nodeId nodeConfig nodeState
       = if Config.isFunction (NodeLabelConfig.text (NodeConfig.label nodeConfig)) then
           match NodeState.label nodeState with
           | Some cached => Normal (Some (Str (NodeLabelStyle.text cached)))
           | None => TypeError
           end
         else Normal (NodeState.labelText nodeState))
  ∧ (edges !! id = None → inherited id = false →
     calcEdgeGeometry edges id layouts nodeStates
       edgeLayoutPoint isEdgeSummarized l config scale state = state)
  ∧ (∀ edge, edges !! id = Some edge →
     (layouts !! Edge.source edge = None ∧ inherited (Edge.source edge) = false)
     ∨ (layouts !! Edge.target edge = None ∧ inherited (Edge.target edge) = false)
     ∨ nodeStates !! Edge.source edge ≫= NodeState.staticShape = None
     ∨ nodeStates !! Edge.target edge ≫= NodeState.staticShape = None →
     calcEdgeGeometry edges id layouts nodeStates
       edgeLayoutPoint isEdgeSummarized l config scale state = state).
Proof.
  split; [|split].
  - intros Hnode Hname.
    assert (Hread : read nodes nodeId = None) by by apply read_None.
    unfold createNodeState.shape, createNodeState.staticShape, createNodeState.label,
      createNodeState.draggable, createNodeState.selectable, createNodeState.labelText,
      createNodeState.labelDotText, createNodeState.label.
    rewrite Hread. repeat split.
    destruct (Config.isFunction _); [|done]. by destruct (NodeState.label nodeState).
  - intros Hedge Hname. apply calcEdgeGeometry_missing. left. by apply read_None.
  - intros edge Hedge Hmissing. apply calcEdgeGeometry_missing.
    right. exists (Own edge). split; [by apply read_own|]. cbn [endsOf fst snd].
    rewrite !read_None. tauto.
Qed.

(** The state after a run in which every read finds something. *)
Lemma calcEdgeGeometry_reads edges id layouts nodeStates
    edgeLayoutPoint isEdgeSummarized l config scale state
    edge sourceRead targetRead sourceShape targetShape :
  read edges id = Some edge →
  read layouts (endsOf edge).1 = Some sourceRead →
  read layouts (endsOf edge).2 = Some targetRead →
  nodeStates !! (endsOf edge).1 ≫= NodeState.staticShape = Some sourceShape →
  nodeStates !! (endsOf edge).2 ≫= NodeState.staticShape = Some targetShape →
  let source := positionOf sourceRead in
  let target := positionOf targetRead in
  let shiftedPosition :=
    EdgeGroup.calculateEdgeShiftedPosition edgeLayoutPoint isEdgeSummarized
      source target scale (EdgeConfig.keepOrder config) in
  let shapeMargins :=
    v2d.calculateDistancesFromCenterOfNodeToEndOfNode
      source target sourceShape targetShape in
  let labelPosition :=
    v2d.applyMarginToLine shiftedPosition
      (shapeMargins.1 * scale) (shapeMargins.2 * scale) in
  let margins := edgeMargins l config shapeMargins.1 shapeMargins.2 in
  let shift :=
    (EdgeLayoutPoint.groupWidth edgeLayoutPoint / 2
     - EdgeLayoutPoint.pointInGroup edgeLayoutPoint)%float in
  calcEdgeGeometry edges id layouts nodeStates
    edgeLayoutPoint isEdgeSummarized l config scale state
  = match EdgeConfig.type config with
    | type_straight =>
        EdgeState.mk (EdgeState.selected state) (EdgeState.hovered state)
          shiftedPosition labelPosition
          (if (margins.1 =? 0)%float && (margins.2 =? 0)%float then shiftedPosition
           else v2d.applyMarginToLine shiftedPosition
                  (margins.1 * scale) (margins.2 * scale))
          None
    | type_curve =>
        let result :=
          calculateCurvePositionAndState
            (v2d.positionsToLinePosition source target) shiftedPosition shift
            (margins.1 * scale) (margins.2 * scale) in
        EdgeState.mk (EdgeState.selected state) (EdgeState.hovered state)
          (v2d.positionsToLinePosition source target) labelPosition
          result.1 result.2
    end.
Proof.
  intros Hedge Hsource Htarget HsourceShape HtargetShape.
  unfold calcEdgeGeometry.
  rewrite Hedge, Hsource, Htarget, HsourceShape, HtargetShape.
  cbn [fmap option_fmap option_map].
  destruct (v2d.calculateDistancesFromCenterOfNodeToEndOfNode _ _ _ _)
    as [sourceShapeMargin targetShapeMargin].
  cbn [fst snd].
  destruct (edgeMargins _ _ _ _) as [sourceMargin targetMargin].
  cbn [fst snd].
  destruct (EdgeConfig.type config).
  - by destruct (_ && _).
  - cbn [EdgeState.origin EdgeState.set_origin EdgeState.set_labelPosition].
    by destruct (calculateCurvePositionAndState _ _ _ _ _).
Qed.

(** Something the effect reads is missing, or every read finds something. *)
Lemma entityMissing_or_read edges id layouts nodeStates :
  entityMissing edges id layouts nodeStates
  ∨ ∃ edge sourceRead targetRead sourceShape targetShape,
      read edges id = Some edge
      ∧ read layouts (endsOf edge).1 = Some sourceRead
      ∧ read layouts (endsOf edge).2 = Some targetRead
      ∧ nodeStates !! (endsOf edge).1 ≫= NodeState.staticShape = Some sourceShape
      ∧ nodeStates !! (endsOf edge).2 ≫= NodeState.staticShape = Some targetShape.
Proof.
  unfold entityMissing.
  destruct (read edges id) as [edge|]; [|by left; left].
  destruct (read layouts (endsOf edge).1) as [sourceRead|] eqn:Hsource; cycle 1.
  { left. right. exists edge. split; [done|]. by left. }
  destruct (read layouts (endsOf edge).2) as [targetRead|] eqn:Htarget; cycle 1.
  { left. right. exists edge. split; [done|]. right. by left. }
  destruct (nodeStates !! (endsOf edge).1 ≫= NodeState.staticShape)
    as [sourceShape|] eqn:HsourceShape; cycle 1.
  { left. right. exists edge. split; [done|]. right. right. by left. }
  destruct (nodeStates !! (endsOf edge).2 ≫= NodeState.staticShape)
    as [targetShape|] eqn:HtargetShape; cycle 1.
  { left. right. exists edge. split; [done|]. right. right. by right. }
  right. by exists edge, sourceRead, targetRead, sourceShape, targetShape.
Qed.

(** *** The geometry an effect run produces *)

Section present.
Context (edges : gmap string Edge.t) (id : string)
  (layouts : gmap string Position) (nodeStates : gmap string NodeState.t)
  (edgeLayoutPoint : EdgeLayoutPoint.t) (isEdgeSummarized : bool)
  (l : Line.t) (scale : float) (state : EdgeState.t).
Context (edge : Edge.t) (source target : Position)
  (sourceShape targetShape : ShapeStyle.t).
Context
  (Hedge : edges !! id = Some edge)
  (Hsource : layouts !! Edge.source edge = Some source)
  (Htarget : layouts !! Edge.target edge = Some target)
  (HsourceShape : nodeStates !! Edge.source edge ≫= NodeState.staticShape
                  = Some sourceShape)
  (HtargetShape : nodeStates !! Edge.target edge ≫= NodeState.staticShape
                  = Some targetShape).

(** The state after a run in which everything is present. *)
Lemma calcEdgeGeometry_present config :
  let shiftedPosition :=
    EdgeGroup.calculateEdgeShiftedPosition edgeLayoutPoint isEdgeSummarized
      source target scale (EdgeConfig.keepOrder config) in
  let shapeMargins :=
    v2d.calculateDistancesFromCenterOfNodeToEndOfNode
      source target sourceShape targetShape in
  let labelPosition :=
    v2d.applyMarginToLine shiftedPosition
      (shapeMargins.1 * scale) (shapeMargins.2 * scale) in
  let margins := edgeMargins l config shapeMargins.1 shapeMargins.2 in
  let shift :=
    (EdgeLayoutPoint.groupWidth edgeLayoutPoint / 2
     - EdgeLayoutPoint.pointInGroup edgeLayoutPoint)%float in
  calcEdgeGeometry edges id layouts nodeStates
    edgeLayoutPoint isEdgeSummarized l config scale state
  = match EdgeConfig.type config with
    | type_straight =>
        EdgeState.mk (EdgeState.selected state) (EdgeState.hovered state)
          shiftedPosition labelPosition
          (if (margins.1 =? 0)%float && (margins.2 =? 0)%float then shiftedPosition
           else v2d.applyMarginToLine shiftedPosition
                  (margins.1 * scale) (margins.2 * scale))
          None
    | type_curve =>
        let result :=
          calculateCurvePositionAndState
            (v2d.positionsToLinePosition source target) shiftedPosition shift
            (margins.1 * scale) (margins.2 * scale) in
        EdgeState.mk (EdgeState.selected state) (EdgeState.hovered state)
          (v2d.positionsToLinePosition source target) labelPosition
          result.1 result.2
    end.
Proof.
  apply (calcEdgeGeometry_reads edges id layouts nodeStates
           edgeLayoutPoint isEdgeSummarized l config scale state
           (Own edge) (Own source) (Own target) sourceShape targetShape);
    try done; by apply read_own.
Qed.

(** C2.  After a run of the geometry effect in which the edge, the
    positions and the static shapes are present: the curve is undefined
    when the edge type is "straight"; it is defined exactly when the edge
    type is "curve", the group shift is not zero and the margins do not
    swap the endpoints; and a curve that is defined carries the circle
    through the two ends of the origin line and the middle of the shifted
    line. *)
Theorem curve_defined_iff_curved_shifted_unreversed (config : EdgeConfig.t) :
  let shiftedPosition :=
    EdgeGroup.calculateEdgeShiftedPosition edgeLayoutPoint isEdgeSummarized
      source target scale (EdgeConfig.keepOrder config) in
  let originPosition := v2d.positionsToLinePosition source target in
  let shapeMargins :=
    v2d.calculateDistancesFromCenterOfNodeToEndOfNode
      source target sourceShape targetShape in
  let margins := edgeMargins l config shapeMargins.1 shapeMargins.2 in
  let shift :=
    (EdgeLayoutPoint.groupWidth edgeLayoutPoint / 2
     - EdgeLayoutPoint.pointInGroup edgeLayoutPoint)%float in
  let state' :=
    calcEdgeGeometry edges id layouts nodeStates
      edgeLayoutPoint isEdgeSummarized l config scale state in
  (EdgeConfig.type config = type_straight → EdgeState.curve state' = None)
  ∧ (is_Some (EdgeState.curve state')
     ↔ EdgeConfig.type config = type_curve
       ∧ (shift =? 0)%float = false
       ∧ marginsReverseEndpoints originPosition shiftedPosition
           (margins.1 * scale) (margins.2 * scale) = false)
  ∧ (∀ c, EdgeState.curve state' = Some c →
       let origin := V.fromLinePosition originPosition in
       let circle :=
         V.calculateCircleCenterAndRadiusBy3Points
           (V.source origin) (V.target origin)
           (V.getCenterOfLinePosition shiftedPosition) in
       Curve.circle c = Circle.mk circle.1 circle.2).
Proof.
  intros shiftedPosition originPosition shapeMargins margins shift state'.
  unfold state'. rewrite calcEdgeGeometry_present.
  fold shiftedPosition originPosition shapeMargins margins shift.
  destruct (EdgeConfig.type config); cbn [EdgeState.curve].
  - split; [done|]. split; [|done].
    split; [by intros [? [=]] | by intros [[=] _]].
  - rewrite calculateCurvePositionAndState_cases.
    destruct (shift =? 0)%float.
    { split; [done|]. split; [|done].
      split; [by intros [? [=]] | by intros (_ & [=] & _)]. }
    destruct (marginsReverseEndpoints _ _ _ _).
    { split; [done|]. split; [|done].
      split; [by intros [? [=]] | by intros (_ & _ & [=])]. }
    cbn [fst snd]. split; [done|]. split.
    + split; [done | by eexists].
    + intros c [= <-]. unfold curveOf, curveCircle.
      destruct (V.calculateCircleCenterAndRadiusBy3Points _ _ _).
      by destruct (V.toVectorsFromLinePosition _).
Qed.

(** C3.  For a group shift of zero the curve computation returns what
    the specification gives for a straight edge on the origin line with
    the same margins: the origin line with the margins applied, the
    origin line itself when both margins are zero, and no curve.  This
    is the position and the curve of the edge state after a run with edge
    type "curve".  A run with edge type "straight" gives no curve either,
    and the position it gives is computed in the same way from its own
    origin, the shifted line; the two runs give the same edge state as
    soon as the shifted line is the origin line and the margins are zero
    before scaling exactly when they are zero after it. *)
Theorem zero_shift_curve_equals_straight (config : EdgeConfig.t) :
  let shift :=
    (EdgeLayoutPoint.groupWidth edgeLayoutPoint / 2
     - EdgeLayoutPoint.pointInGroup edgeLayoutPoint)%float in
  (shift =? 0)%float = true →
  let shiftedPosition :=
    EdgeGroup.calculateEdgeShiftedPosition edgeLayoutPoint isEdgeSummarized
      source target scale (EdgeConfig.keepOrder config) in
  let originPosition := v2d.positionsToLinePosition source target in
  let shapeMargins :=
    v2d.calculateDistancesFromCenterOfNodeToEndOfNode
      source target sourceShape targetShape in
  let margins := edgeMargins l config shapeMargins.1 shapeMargins.2 in
  let curved :=
    calcEdgeGeometry edges id layouts nodeStates
      edgeLayoutPoint isEdgeSummarized l (withType type_curve config) scale state in
  let straightened :=
    calcEdgeGeometry edges id layouts nodeStates
      edgeLayoutPoint isEdgeSummarized l (withType type_straight config) scale state in
  (∀ shifted sourceMargin targetMargin,
     calculateCurvePositionAndState originPosition shifted shift
       sourceMargin targetMargin
     = straightPositionAndState originPosition sourceMargin targetMargin)
  ∧ (EdgeState.position curved, EdgeState.curve curved)
    = straightPositionAndState originPosition
        (margins.1 * scale) (margins.2 * scale)
  ∧ EdgeState.origin curved = originPosition
  ∧ EdgeState.origin straightened = shiftedPosition
  ∧ EdgeState.curve straightened = None
  ∧ EdgeState.position straightened
    = (if (margins.1 =? 0)%float && (margins.2 =? 0)%float then shiftedPosition
       else v2d.applyMarginToLine shiftedPosition
              (margins.1 * scale) (margins.2 * scale))
  ∧ (shiftedPosition = originPosition →
     (margins.1 =? 0)%float && (margins.2 =? 0)%float
     = (margins.1 * scale =? 0)%float && (margins.2 * scale =? 0)%float →
     curved = straightened).
Proof.
  intros shift Hshift shiftedPosition originPosition shapeMargins margins
    curved straightened.
  assert (Hfun : ∀ shifted sourceMargin targetMargin,
            calculateCurvePositionAndState originPosition shifted shift
              sourceMargin targetMargin
            = straightPositionAndState originPosition sourceMargin targetMargin).
  { intros. by rewrite calculateCurvePositionAndState_cases, Hshift. }
  unfold curved, straightened. rewrite !calcEdgeGeometry_present.
  cbn [withType EdgeConfig.type EdgeConfig.keepOrder
         EdgeState.position EdgeState.curve EdgeState.origin].
  change (edgeMargins l (withType _ config)) with (edgeMargins l config).
  fold shiftedPosition originPosition shapeMargins margins shift.
  rewrite Hfun. unfold straightPositionAndState. cbn [fst snd].
  repeat split; try done.
  intros -> ->. done.
Qed.
End present.

(** C4, as the code has it.  When the group shift is not zero and the
    margins swap the endpoints, the position returned is the line from the
    middle of the shifted line to the point half a unit further in the
    direction of the shifted line, and no curve is returned. *)
Theorem swapped_endpoints_give_stub
    (originPosition shiftedPosition : LinePosition)
    (shift sourceMargin targetMargin : float) :
  (shift =? 0)%float = false →
  marginsReverseEndpoints originPosition shiftedPosition sourceMargin targetMargin
  = true →
  let shiftedCenter := V.getCenterOfLinePosition shiftedPosition in
  let direction := V.normalize (V.v (V.fromLinePosition shiftedPosition)) in
  calculateCurvePositionAndState originPosition shiftedPosition
    shift sourceMargin targetMargin
  = (v2d.positionsToLinePosition shiftedCenter
       (V.add shiftedCenter (V.multiplyScalar direction 0.5)),
     None).
Proof.
  intros Hshift Hreversed. cbn zeta.
  by rewrite calculateCurvePositionAndState_cases, Hshift, Hreversed.
Qed.

End state_properties.

(** C8, as the code has it.  The circumcircle routine is invoked once by
    every call of the curve computation, with the two ends of the origin
    line and the middle of the shifted line, whatever the shift is; for a
    shift of zero the position and the curve returned are those of the
    straight-line shortcut and do not depend on what the routine
    returns. *)
Theorem circumcircle_result_unused_for_zero_shift
    `{vectorOps : !V.Ops, planeOps : !v2d.Ops}
    (originPosition shiftedPosition : LinePosition)
    (shift sourceMargin targetMargin : float) :
  (calculateCurvePositionAndState_traced originPosition shiftedPosition
     shift sourceMargin targetMargin).2
  = [(V.source (V.fromLinePosition originPosition),
      V.target (V.fromLinePosition originPosition),
      V.getCenterOfLinePosition shiftedPosition)]
  ∧ ((shift =? 0)%float = true →
     ∀ routine,
       @calculateCurvePositionAndState (withCircleRoutine vectorOps routine) planeOps
         originPosition shiftedPosition shift sourceMargin targetMargin
       = straightPositionAndState originPosition sourceMargin targetMargin).
Proof.
  split; [apply calculateCurvePositionAndState_calls|].
  intros Hshift routine.
  by rewrite (@calculateCurvePositionAndState_cases (withCircleRoutine vectorOps routine)),
    Hshift.
Qed.

(** ** Directions of the edges of a path *)

Lemma sort2_comm (a b : string) : sort2 a b = sort2 b a.
Proof.
  unfold sort2, String.ltb. rewrite (String.compare_antisym b a).
  destruct (String.compare a b) eqn:Hab; simpl; [|done..].
  by apply String.compare_eq_iff in Hab as ->.
Qed.

Lemma detectDirectionsFrom_length lastNode edges :
  length (detectDirectionsFrom lastNode edges) = length edges.
Proof.
  revert lastNode. induction edges as [|e edges IH]; intros lastNode; simpl; [done|].
  by rewrite IH.
Qed.

Lemma detectDirectionsFrom_head node e edges :
  detectDirectionsFrom (Some node) (e :: edges) !! 0
  = Some (bool_decide (Edge.source (EdgeObject.edge e) = node)).
Proof.
  simpl. f_equal. apply bool_decide_ext. split; [by intros [= ->] | by intros ->].
Qed.

Lemma detectDirectionsFrom_next lastNode edges i e previous forward :
  edges !! S i = Some e → edges !! i = Some previous →
  detectDirectionsFrom lastNode edges !! i = Some forward →
  detectDirectionsFrom lastNode edges !! S i
  = Some (bool_decide (Edge.source (EdgeObject.edge e)
                       = reachedNode (EdgeObject.edge previous) forward)).
Proof.
  revert lastNode i. induction edges as [|e0 edges IH]; intros lastNode i; [done|].
  destruct i as [|i].
  - intros He [= ->]. cbn [detectDirectionsFrom lookup list_lookup]. intros [= <-].
    destruct edges as [|e1 edges]; [done|]. simpl in He. injection He as ->.
    apply detectDirectionsFrom_head.
  - intros He Hprevious Hforward. by apply (IH _ i).
Qed.

(** C6.  In a path of at least three edges whose first two edges connect
    the same unordered pair of nodes, the direction of edge 0 is read off the
    third edge.  When the source or the target of the third edge is the
    target of edge 1, edge 0 is forward exactly when its target is the
    source of edge 1, and edge 1 comes out forward.  When neither is, edge 0
    is forward exactly when its target is the target of edge 1, and edge 1
    comes out reverse, or forward when it is a loop on one node.  Every
    later edge is forward exactly when its source is the node reached after
    the edge before it.  There is one direction per edge. *)
Theorem first_direction_read_off_third_edge (e0 e1 e2 : EdgeObject.t)
    (rest : list EdgeObject.t) :
  let edges := e0 :: e1 :: e2 :: rest in
  let edge0 := EdgeObject.edge e0 in
  let edge1 := EdgeObject.edge e1 in
  let edge2 := EdgeObject.edge e2 in
  connectSameNodes edge0 edge1 →
  let directions := _detectDirectionsOfPathEdges edges in
  length directions = length edges
  ∧ (Edge.source edge2 = Edge.target edge1 ∨ Edge.target edge2 = Edge.target edge1 →
     directions !! 0 = Some (bool_decide (Edge.target edge0 = Edge.source edge1))
     ∧ directions !! 1 = Some true)
  ∧ (Edge.source edge2 ≠ Edge.target edge1 → Edge.target edge2 ≠ Edge.target edge1 →
     directions !! 0 = Some (bool_decide (Edge.target edge0 = Edge.target edge1))
     ∧ directions !! 1 = Some (bool_decide (Edge.source edge1 = Edge.target edge1)))
  ∧ (∀ i e previous forward,
       edges !! S i = Some e → edges !! i = Some previous →
       directions !! i = Some forward →
       directions !! S i
       = Some (bool_decide (Edge.source (EdgeObject.edge e)
                            = reachedNode (EdgeObject.edge previous) forward))).
Proof.
  intros edges edge0 edge1 edge2 Hsame directions.
  set (towardsThird :=
         includes2 (Edge.source edge2) (Edge.target edge2) (Edge.target edge1)).
  assert (Htowards : towardsThird = true
                     ↔ Edge.source edge2 = Edge.target edge1
                       ∨ Edge.target edge2 = Edge.target edge1).
  { unfold towardsThird, includes2.
    by rewrite orb_true_iff, !bool_decide_eq_true. }
  assert (Hsorted :
    bool_decide ((sort2 (Edge.source edge0) (Edge.target edge0)).1
                 = (sort2 (Edge.source edge1) (Edge.target edge1)).1)
    && bool_decide ((sort2 (Edge.source edge0) (Edge.target edge0)).2
                    = (sort2 (Edge.source edge1) (Edge.target edge1)).2) = true).
  { destruct Hsame as [[-> ->]|[-> ->]].
    - by rewrite !bool_decide_eq_true_2.
    - rewrite (sort2_comm (Edge.target edge1)). by rewrite !bool_decide_eq_true_2. }
  assert (Hdirections :
    directions
    = (if towardsThird
       then bool_decide (Edge.target edge0 = Edge.source edge1)
       else bool_decide (Edge.target edge0 = Edge.target edge1))
      :: detectDirectionsFrom
           (Some (reachedNode edge0
                    (if towardsThird
                     then bool_decide (Edge.target edge0 = Edge.source edge1)
                     else bool_decide (Edge.target edge0 = Edge.target edge1))))
           (e1 :: e2 :: rest)).
  { unfold directions, edges, _detectDirectionsOfPathEdges.
    fold edge0 edge1 edge2. rewrite Hsorted. fold towardsThird. done. }
  rewrite Hdirections. clear Hdirections Hsorted.
  split; [|split; [|split]].
  - cbn [length]. by rewrite detectDirectionsFrom_length.
  - intros Hthird%Htowards. rewrite Hthird. split; [done|].
    cbn [lookup list_lookup]. rewrite detectDirectionsFrom_head. f_equal.
    apply bool_decide_eq_true. fold edge1. clearbody edge0 edge1. unfold reachedNode.
    case_bool_decide as Hforward; [done|].
    destruct Hsame as [[? ?]|[? ?]]; congruence.
  - intros Hsource Htarget.
    assert (Hthird : towardsThird = false).
    { destruct towardsThird; [|done]. destruct (proj1 Htowards eq_refl); done. }
    rewrite Hthird. split; [done|].
    cbn [lookup list_lookup]. rewrite detectDirectionsFrom_head. f_equal.
    fold edge1. clearbody edge0 edge1. unfold reachedNode.
    apply bool_decide_ext.
    case_bool_decide as Hforward; destruct Hsame as [[? ?]|[? ?]];
      split; congruence.
  - intros i e previous forward He Hprevious Hforward.
    destruct i as [|i].
    + injection Hprevious as <-. injection Hforward as <-.
      simpl in He. injection He as <-. cbn [lookup list_lookup].
      apply detectDirectionsFrom_head.
    + cbn [lookup list_lookup] in *. by eapply detectDirectionsFrom_next.
Qed.

(** ** Transit points and overrun trimming *)

Section path_properties.
Context `{vectorOps : !V.Ops, planeOps : !v2d.Ops}.

(** C5, as the code has it.  When the two lines have no intersection, or
    have one that lies strictly outside the node circle (the inner circle
    being no larger than the node circle), the control point is the node
    center and the transit points are the crossings with the inner circle
    if both lines have one, else the crossings with the node circle if
    both lines have one; failing both, they are the raw ends of the lines
    when there is no intersection, and for each line its crossing with the
    inner circle, else its crossing with the node circle, else its raw
    end, when there is an intersection. *)
Theorem outer_intersection_uses_node_center
    (prev next : EdgeLine.t) (nodePos : V.Vector) (crossPoint : option V.Vector)
    (nodeRadius nodeCoreRadius : float)
    (prevCoreIp nextCoreIp prevNodeIp nextNodeIp : option V.Vector) :
  crossPoint = None
  ∨ (∃ intersection,
       crossPoint = Some intersection
       ∧ (nodeRadius <? V.calculateDistance intersection nodePos)%float = true
       ∧ (nodeCoreRadius <=? nodeRadius)%float = true) →
  calculateTransitPos prev next nodePos crossPoint nodeRadius nodeCoreRadius
    prevCoreIp nextCoreIp prevNodeIp nextNodeIp
  = match prevCoreIp, nextCoreIp, prevNodeIp, nextNodeIp with
    | Some prevCoreIp, Some nextCoreIp, _, _ => (prevCoreIp, nodePos, nextCoreIp)
    | _, _, Some prevNodeIp, Some nextNodeIp => (prevNodeIp, nodePos, nextNodeIp)
    | _, _, _, _ =>
        match crossPoint with
        | None => (V.target (EdgeLine.line prev), nodePos, V.source (EdgeLine.line next))
        | Some _ =>
            (findFirstNonNull prevCoreIp prevNodeIp (V.target (EdgeLine.line prev)),
             nodePos,
             findFirstNonNull nextCoreIp nextNodeIp (V.source (EdgeLine.line next)))
        end
    end.
Proof.
  unfold calculateTransitPos.
  intros [->|(intersection & -> & Houtside & Hcore)].
  - by destruct prevCoreIp, nextCoreIp, prevNodeIp, nextNodeIp.
  - rewrite (ltb_leb_false _ _ _ Houtside Hcore), (ltb_leb_asym _ _ Houtside).
    by destruct prevCoreIp, nextCoreIp, prevNodeIp, nextNodeIp.
Qed.

(** The transit loop only pushes entries. *)
Lemma transitStep_extends nodeStates nodeLayouts scale curveInNode prev next
    points points' :
  transitStep nodeStates nodeLayouts scale curveInNode prev next points = Some points' →
  ∃ pushed, points' = points ++ pushed.
Proof.
  unfold transitStep. intros Hstep.
  destruct (scaledNodeRadius _ _ _) as [nodeRadius|]; [|done]. cbn in Hstep.
  destruct (calculateTransitPos _ _ _ _ _ _ _ _ _ _) as [[p1 c] p2].
  repeat case_match; simplify_eq; try (by eexists).
  exists []. by rewrite app_nil_r.
Qed.

Lemma transitLoop_extends nodeStates nodeLayouts scale curveInNode prev rest
    points points' :
  transitLoop nodeStates nodeLayouts scale curveInNode prev rest points = Some points' →
  ∃ pushed, points' = points ++ pushed.
Proof.
  revert prev points. induction rest as [|next rest IH]; intros prev points; simpl.
  - intros [= <-]. exists []. by rewrite app_nil_r.
  - destruct (transitStep _ _ _ _ _ _ _) as [points1|] eqn:Hstep; [|done]. cbn.
    intros Hloop. apply transitStep_extends in Hstep as [pushed1 ->].
    apply IH in Hloop as [pushed2 ->]. exists (pushed1 ++ pushed2).
    by rewrite app_assoc.
Qed.

Lemma endBlock_extends lastEdge nodeStates nodeLayouts scale pathEndType margin
    points points' flag :
  endBlock lastEdge nodeStates nodeLayouts scale pathEndType margin points
  = Some (points', flag) →
  ∃ final, points' = points ++ [final].
Proof.
  unfold endBlock. intros Hend.
  repeat (case_match; simplify_option_eq); by eexists.
Qed.

Lemma startBlock_flag firstEdge nodeStates nodeLayouts scale pathEndType margin
    point flag :
  startBlock firstEdge nodeStates nodeLayouts scale pathEndType margin
  = Some (point, flag) →
  ∃ nearRadius farRadius,
    scaledNodeRadius nodeStates (EdgeLine.source firstEdge) scale = Some nearRadius
    ∧ scaledNodeRadius nodeStates (EdgeLine.target firstEdge) scale = Some farRadius
    ∧ flag = isMarginOverRun margin (lineMarginOf pathEndType margin nearRadius)
               farRadius (EdgeLine.line firstEdge).
Proof.
  unfold startBlock. intros Hstart.
  destruct (scaledNodeRadius _ (EdgeLine.source _) _) as [nearRadius|]; [|done].
  cbn in Hstart.
  destruct (if (_ <=? 0)%float then _ else _) as [nextPoint|]; [|done].
  cbn in Hstart.
  destruct (scaledNodeRadius _ (EdgeLine.target _) _) as [farRadius|]; [|done].
  cbn in Hstart. injection Hstart as _ <-. by exists nearRadius, farRadius.
Qed.

Lemma endBlock_flag lastEdge nodeStates nodeLayouts scale pathEndType margin
    points points' flag :
  endBlock lastEdge nodeStates nodeLayouts scale pathEndType margin points
  = Some (points', flag) →
  ∃ nearRadius farRadius,
    scaledNodeRadius nodeStates (EdgeLine.target lastEdge) scale = Some nearRadius
    ∧ scaledNodeRadius nodeStates (EdgeLine.source lastEdge) scale = Some farRadius
    ∧ flag = isMarginOverRun margin (lineMarginOf pathEndType margin nearRadius)
               farRadius (EdgeLine.line lastEdge).
Proof.
  unfold endBlock. intros Hend.
  destruct (scaledNodeRadius _ (EdgeLine.target _) _) as [nearRadius|]; [|done].
  cbn in Hend.
  destruct (if (_ <=? 0)%float then _ else _) as [nextPoint|]; [|done].
  cbn in Hend.
  destruct (scaledNodeRadius _ (EdgeLine.source _) _) as [farRadius|]; [|done].
  cbn in Hend.
  destruct (match EdgeLine.curve lastEdge with Some _ => _ | None => _ end); [|done].
  cbn in Hend. injection Hend as _ <-. by exists nearRadius, farRadius.
Qed.

Lemma trimOverrun_shape (startFlag endFlag : bool) start middle final :
  trimOverrun startFlag endFlag (Point start :: middle ++ [final])
  = (if startFlag then reentry (middle ++ [final]) else [Point start])
    ++ middle ++ (if endFlag then [] else [final]).
Proof.
  unfold trimOverrun, trimEnd.
  assert (Hstart : trimStart (Point start :: middle ++ [final])
                   = reentry (middle ++ [final]) ++ middle ++ [final]).
  { unfold trimStart, reentry. destruct (middle ++ [final]) as [|[p|leading lastp] rest]; done. }
  destruct startFlag, endFlag; rewrite ?Hstart, ?app_nil_r; try done.
  - by rewrite app_assoc, removelast_last.
  - by rewrite (app_comm_cons _ _ (Point start)), removelast_last.
Qed.

(** C7, as the code has it.  The points pushed by [_calculatePathPoints]
    are a start point, the entries of the transit nodes and a final entry.
    The start overrun is flagged when the margin is positive and the
    distance between the ends of the first edge line is at most the
    boundary offset (the margin, plus the scaled radius of the first node
    when the path ends at the edge of the node) plus the scaled radius of
    the node at the far end of that edge; the end overrun likewise, with
    the last edge line and the last node.  When the start overrun is
    flagged the start point is removed, and the first point of the entry
    that follows is put in front when that entry is an array; when the end
    overrun is flagged the final entry is removed; when neither is flagged,
    as for every margin that is not positive, the points are returned as
    they were pushed. *)
Theorem overrun_trimming_follows_flags
    (path : PathObject.t)
    (nodeStates : gmap string NodeState.t) (nodeLayouts : gmap string Position)
    (edgeStates : gmap string EdgeState.t)
    (scale : float) (curveInNode : bool) (pathEndType : PathEndType) (margin : float)
    (result : list PointItem) :
  _calculatePathPoints path nodeStates nodeLayouts edgeStates
    scale curveInNode pathEndType margin = Some result →
  ∃ edgePos firstEdge lastEdge firstNear firstFar lastNear lastFar start middle final,
    edgeLines (PathObject.edges path) edgeStates = Some edgePos
    ∧ head edgePos = Some firstEdge ∧ last edgePos = Some lastEdge
    ∧ scaledNodeRadius nodeStates (EdgeLine.source firstEdge) scale = Some firstNear
    ∧ scaledNodeRadius nodeStates (EdgeLine.target firstEdge) scale = Some firstFar
    ∧ scaledNodeRadius nodeStates (EdgeLine.target lastEdge) scale = Some lastNear
    ∧ scaledNodeRadius nodeStates (EdgeLine.source lastEdge) scale = Some lastFar
    ∧ let offset nearRadius :=
        (margin + match pathEndType with
                  | edgeOfNode => nearRadius
                  | centerOfNode => 0
                  end)%float in
      let startFlag :=
        (0 <? margin)%float
        && (V.calculateDistance (V.source (EdgeLine.line firstEdge))
              (V.target (EdgeLine.line firstEdge))
            <=? offset firstNear + firstFar)%float in
      let endFlag :=
        (0 <? margin)%float
        && (V.calculateDistance (V.source (EdgeLine.line lastEdge))
              (V.target (EdgeLine.line lastEdge))
            <=? offset lastNear + lastFar)%float in
      calculatePathPointsUntrimmed path nodeStates nodeLayouts edgeStates
        scale curveInNode pathEndType margin
      = Some (Point start :: middle ++ [final], startFlag, endFlag)
      ∧ result
        = (if startFlag then reentry (middle ++ [final]) else [Point start])
          ++ middle ++ (if endFlag then [] else [final])
      ∧ ((0 <? margin)%float = false → result = Point start :: middle ++ [final]).
Proof.
  unfold _calculatePathPoints. intros Hresult.
  destruct (calculatePathPointsUntrimmed _ _ _ _ _ _ _ _)
    as [[[points startFlag] endFlag]|] eqn:Huntrimmed; [|done].
  cbn in Hresult. injection Hresult as <-.
  pose proof Huntrimmed as Hpushed.
  unfold calculatePathPointsUntrimmed in Huntrimmed.
  destruct (edgeLines _ _) as [edgePos|] eqn:Hlines; [|done]. cbn in Huntrimmed.
  destruct (head edgePos) as [firstEdge|] eqn:Hfirst; [|done]. cbn in Huntrimmed.
  destruct (startBlock _ _ _ _ _ _) as [[start startFlag']|] eqn:Hstart; [|done].
  cbn in Huntrimmed.
  destruct (transitLoop _ _ _ _ _ _ _) as [points1|] eqn:Hloop; [|done].
  cbn in Huntrimmed.
  destruct (last edgePos) as [lastEdge|] eqn:Hlast; [|done]. cbn in Huntrimmed.
  destruct (endBlock _ _ _ _ _ _ _) as [[points2 endFlag']|] eqn:Hend; [|done].
  cbn in Huntrimmed. injection Huntrimmed as <- <- <-.
  apply transitLoop_extends in Hloop as [middle ->].
  destruct (endBlock_extends _ _ _ _ _ _ _ _ _ Hend) as [final ->].
  apply startBlock_flag in Hstart as (firstNear & firstFar & HfirstNear & HfirstFar & ->).
  apply endBlock_flag in Hend as (lastNear & lastFar & HlastNear & HlastFar & ->).
  cbn [app] in Hpushed |- *. rewrite trimOverrun_shape.
  exists edgePos, firstEdge, lastEdge, firstNear, firstFar, lastNear, lastFar,
    start, middle, final.
  unfold isMarginOverRun, lineMarginOf in *.
  do 7 (split; [done|]). cbn zeta.
  split; [done|]. split; [done|].
  intros Hmargin. by rewrite Hmargin.
Qed.
End path_properties.

(** ** The properties on the sample graphs *)

Import Reference.

(** Two values are different when a boolean test tells them apart. *)
Ltac told_apart test :=
  let Heq := fresh "Heq" in
  intros Heq; apply (f_equal test) in Heq; vm_compute in Heq; discriminate Heq.

(** The path that names [e1] and [constructor] is listed although no edge
    is called [constructor]: its second edge is a member of
    [Object.prototype].  The path that names [unknown] is left out. *)
Lemma pathList_lists_inherited_names_witness :
  ListedPath.mk Sample.inheritedPath
    [ ListedEdge.mk "e1" (Own (Edge.mk "A" "B"));
      ListedEdge.mk "constructor" (Member "constructor") ]
  ∈ pathList [Sample.unknownPath; Sample.inheritedPath] Sample.edges
  ∧ ∀ entry, entry ∈ pathList [Sample.unknownPath; Sample.inheritedPath] Sample.edges →
             ListedPath.path entry ≠ Sample.unknownPath.
Proof.
  pose proof (pathList_lists_inherited_names Sample.edges
                [Sample.unknownPath; Sample.inheritedPath])
    as (_ & _ & Hout & Hin).
  split.
  - apply (Hin Sample.inheritedPath "constructor").
    + right. left.
    + right. left.
    + vm_compute; reflexivity.
    + intros i [->|[->|[]%elem_of_nil]%elem_of_cons]%elem_of_cons.
      * left. by eexists.
      * right. vm_compute; reflexivity.
  - apply (Hout Sample.unknownPath "unknown").
    + right. left.
    + vm_compute; reflexivity.
    + vm_compute; reflexivity.
Defined.

(** The summarized group gets a state, the state of the group that is no
    longer summarized goes. *)
Lemma summarized_states_follow_groups_witness :
  createSummarizedEdgeStates Sample.staleStates Sample.groups !! "A<=>B"
  = Some (SummarizedEdgeState.mk (EdgeGroup.mk Sample.edges true))
  ∧ createSummarizedEdgeStates Sample.staleStates Sample.groups !! "B<=>C" = None.
Proof.
  split.
  - destruct (summarized_states_follow_groups Sample.staleStates Sample.groups "A<=>B")
      as (_ & _ & _ & Hcreated).
    apply Hcreated; vm_compute; reflexivity.
  - destruct (summarized_states_follow_groups Sample.staleStates Sample.groups "B<=>C")
      as (_ & _ & Hdeleted & _).
    apply Hdeleted; vm_compute; reflexivity.
Defined.

(** C9, as stated, fails for [labelText]: with a label text that is a
    function of the node and the node missing, the getter returns the text of
    the cached label, "B", where the value cached for [labelText] is "A". *)
Lemma labelText_not_its_cached_value_counterexample :
  (∅ : gmap string Node) !! "n" = None
  ∧ inherited "n" = false
  ∧ createNodeState.labelText ∅ "n" (Sample.nodeConfig Sample.nameOf) Sample.staleLabelText
    = Normal (Some (Str "B"))
  ∧ NodeState.labelText Sample.staleLabelText = Some (Str "A")
  ∧ createNodeState.labelText ∅ "n" (Sample.nodeConfig Sample.nameOf) Sample.staleLabelText
    ≠ Normal (NodeState.labelText Sample.staleLabelText).
Proof.
  split; [done|]. split; [vm_compute; reflexivity|].
  split; [vm_compute; reflexivity|]. split; [reflexivity|].
  vm_compute. discriminate.
Qed.

(** A missing node keeps its cached shape, an edge whose edge object is
    missing keeps its state, and so does an edge whose ends have no
    position. *)
Lemma missing_entities_keep_cached_values_witness :
  createNodeState.shape ∅ "n" (Sample.nodeConfig Sample.nameOf) Sample.staleLabelText
  = Some (Sample.circleShape 16)
  ∧ calcEdgeGeometry ∅ "e1" Sample.layouts Sample.nodeStates Sample.alone false
      Sample.plainLine Sample.curveConfig 1 (initialEdgeState true)
    = initialEdgeState true
  ∧ calcEdgeGeometry Sample.edges "e1" ∅ Sample.nodeStates Sample.alone false
      Sample.plainLine Sample.curveConfig 1 (initialEdgeState true)
    = initialEdgeState true.
Proof.
  split; [|split].
  - apply (missing_entities_keep_cached_values
             ∅ "n" (Sample.nodeConfig Sample.nameOf) Sample.staleLabelText
             ∅ "e1" Sample.layouts Sample.nodeStates Sample.alone false
             Sample.plainLine Sample.curveConfig 1 (initialEdgeState true));
      vm_compute; reflexivity.
  - apply (missing_entities_keep_cached_values
             ∅ "n" (Sample.nodeConfig Sample.nameOf) Sample.staleLabelText
             ∅ "e1" Sample.layouts Sample.nodeStates Sample.alone false
             Sample.plainLine Sample.curveConfig 1 (initialEdgeState true));
      vm_compute; reflexivity.
  - apply (proj2 (proj2 (missing_entities_keep_cached_values
             ∅ "n" (Sample.nodeConfig Sample.nameOf) Sample.staleLabelText
             Sample.edges "e1" ∅ Sample.nodeStates Sample.alone false
             Sample.plainLine Sample.curveConfig 1 (initialEdgeState true)))
             (Edge.mk "A" "B")); [vm_compute; reflexivity|].
    left. split; vm_compute; reflexivity.
Defined.

(** The first of two curved edges without margins has a curve. *)
Lemma curve_defined_iff_curved_shifted_unreversed_witness :
  is_Some (EdgeState.curve
             (calcEdgeGeometry Sample.edges "e1" Sample.layouts Sample.nodeStates
                Sample.firstOfTwo false Sample.plainLine Sample.curveConfig 1
                (initialEdgeState false))).
Proof.
  apply (curve_defined_iff_curved_shifted_unreversed
           Sample.edges "e1" Sample.layouts Sample.nodeStates Sample.firstOfTwo false
           Sample.plainLine 1 (initialEdgeState false)
           (Edge.mk "A" "B") (mkPosition 0 0) (mkPosition 10 0)
           (Sample.circleShape 1) (Sample.circleShape 1)
           ltac:(vm_compute; reflexivity) ltac:(vm_compute; reflexivity)
           ltac:(vm_compute; reflexivity) ltac:(vm_compute; reflexivity)
           ltac:(vm_compute; reflexivity) Sample.curveConfig).
  split; [reflexivity|]. split; vm_compute; reflexivity.
Defined.

(** The only edge of its group, with arrows: curved or straight, the same
    edge state. *)
Lemma zero_shift_curve_equals_straight_witness :
  calcEdgeGeometry Sample.edges "e1" Sample.layouts Sample.nodeStates
    Sample.alone false Sample.arrowLine (withType type_curve Sample.curveConfig) 1
    (initialEdgeState false)
  = calcEdgeGeometry Sample.edges "e1" Sample.layouts Sample.nodeStates
      Sample.alone false Sample.arrowLine (withType type_straight Sample.curveConfig) 1
      (initialEdgeState false).
Proof.
  apply (zero_shift_curve_equals_straight
           Sample.edges "e1" Sample.layouts Sample.nodeStates Sample.alone false
           Sample.arrowLine 1 (initialEdgeState false)
           (Edge.mk "A" "B") (mkPosition 0 0) (mkPosition 10 0)
           (Sample.circleShape 1) (Sample.circleShape 1)
           ltac:(vm_compute; reflexivity) ltac:(vm_compute; reflexivity)
           ltac:(vm_compute; reflexivity) ltac:(vm_compute; reflexivity)
           ltac:(vm_compute; reflexivity) Sample.curveConfig
           ltac:(vm_compute; reflexivity));
    vm_compute; reflexivity.
Defined.

(** C4, as stated, fails: for the first of two edges with margins of nine
    units the endpoints are swapped, and the line returned runs from the
    middle of the shifted line, (5, -2), to (5.5, -2); the stub centered at
    that middle with half-length 0.5 runs from (4.5, -2) to (5.5, -2). *)
Lemma stub_not_centered_counterexample :
  marginsReverseEndpoints Sample.originAB Sample.shiftedAB 9 9 = true
  ∧ calculateCurvePositionAndState Sample.originAB Sample.shiftedAB 2 9 9
    = (mkLinePosition 5 (-2) 5.5 (-2), None)
  ∧ centeredStub Sample.shiftedAB = mkLinePosition 4.5 (-2) 5.5 (-2)
  ∧ (calculateCurvePositionAndState Sample.originAB Sample.shiftedAB 2 9 9).1
    ≠ centeredStub Sample.shiftedAB.
Proof.
  split; [vm_compute; reflexivity|]. split; [vm_compute; reflexivity|].
  split; [vm_compute; reflexivity|].
  told_apart (λ line, (x1 line <? 5)%float).
Qed.

(** The same edge: the stub runs from (5, -2) to (5.5, -2). *)
Lemma swapped_endpoints_give_stub_witness :
  (2 =? 0)%float = false
  ∧ marginsReverseEndpoints Sample.originAB Sample.shiftedAB 9 9 = true
  ∧ calculateCurvePositionAndState Sample.originAB Sample.shiftedAB 2 9 9
    = (positionsToLinePosition (mkPosition 5 (-2)) (mkPosition 5.5 (-2)), None).
Proof.
  split; [reflexivity|]. split; [vm_compute; reflexivity|].
  rewrite (swapped_endpoints_give_stub Sample.originAB Sample.shiftedAB 2 9 9)
    by (vm_compute; reflexivity).
  vm_compute; reflexivity.
Defined.

(** C8, as stated, fails: for the only edge of its group the shift is zero,
    and the circumcircle routine is invoked with the two ends of the origin
    line and its middle, which are collinear. *)
Lemma circumcircle_invoked_on_collinear_points_counterexample :
  (Sample.alone.(EdgeLayoutPoint.groupWidth) / 2
   - Sample.alone.(EdgeLayoutPoint.pointInGroup) =? 0)%float = true
  ∧ (calculateCurvePositionAndState_traced Sample.originAB Sample.unshiftedAB 0 0 0).2
    = [(mkPosition 0 0, mkPosition 10 0, mkPosition 5 0)]
  ∧ collinear (mkPosition 0 0) (mkPosition 10 0) (mkPosition 5 0) = true
  ∧ (calculateCurvePositionAndState_traced Sample.originAB Sample.unshiftedAB 0 0 0).2
    ≠ [].
Proof.
  split; [vm_compute; reflexivity|]. split; [vm_compute; reflexivity|].
  split; [vm_compute; reflexivity|]. vm_compute. discriminate.
Qed.

(** With margins of one unit the shortcut gives the line from (1, 0) to
    (9, 0), whatever the circumcircle routine returns. *)
Lemma circumcircle_result_unused_for_zero_shift_witness :
  (0 =? 0)%float = true
  ∧ ∀ routine,
      @calculateCurvePositionAndState (withCircleRoutine V_ops routine) v2d_ops
        Sample.originAB Sample.unshiftedAB 0 1 1
      = (mkLinePosition 1 0 9 0, None).
Proof.
  split; [reflexivity|]. intros routine.
  rewrite (proj2 (circumcircle_result_unused_for_zero_shift
                    Sample.originAB Sample.unshiftedAB 0 1 1))
    by reflexivity.
  vm_compute; reflexivity.
Defined.

(** C5, as stated, fails: at [Q] the two lines cross at (-20, 0), outside
    the node circle of radius four; the first line crosses the inner circle,
    the second one crosses neither circle; the incoming transit point is the
    crossing of the first line with the inner circle, not the raw end of
    the first line. *)
Lemma transit_fallback_counterexample :
  Sample.crossQ = Some (mkPosition (-20) 0)
  ∧ (Sample.radiusQ <? V.calculateDistance (mkPosition (-20) 0) Sample.centerQ)%float
    = true
  ∧ (Sample.coreRadiusQ <=? Sample.radiusQ)%float = true
  ∧ is_Some (_getIntersectionOfLineAndNode Sample.prevLine Sample.centerQ
               Sample.coreRadiusQ true)
  ∧ _getIntersectionOfLineAndNode Sample.nextLine Sample.centerQ Sample.coreRadiusQ false
    = None
  ∧ _getIntersectionOfLineAndNode Sample.nextLine Sample.centerQ Sample.radiusQ false
    = None
  ∧ Sample.specTransitQ = (mkPosition 0 0, mkPosition 0 0, mkPosition 0 10)
  ∧ Sample.transitQ ≠ Sample.specTransitQ.
Proof.
  repeat (split; [vm_compute; (reflexivity || by eexists)|]).
  told_apart (λ pos : V.Vector * V.Vector * V.Vector, (x pos.1.1 <? 0)%float).
Qed.

(** At [Q] the control point is the center of the node, and each line
    contributes its own first available point. *)
Lemma outer_intersection_uses_node_center_witness :
  Sample.transitQ
  = (findFirstNonNull
       (_getIntersectionOfLineAndNode Sample.prevLine Sample.centerQ Sample.coreRadiusQ true)
       (_getIntersectionOfLineAndNode Sample.prevLine Sample.centerQ Sample.radiusQ true)
       (mkPosition 0 0),
     Sample.centerQ,
     mkPosition 0 10).
Proof.
  unfold Sample.transitQ.
  rewrite outer_intersection_uses_node_center.
  - vm_compute; reflexivity.
  - right. exists (mkPosition (-20) 0).
    split; [vm_compute; reflexivity|]. split; vm_compute; reflexivity.
Defined.

(** Two edges from [A] to [B] followed by an edge from [B] to [C], which
    has the target of the second edge as an end: the first is taken in
    reverse, the second forward.  Followed by an edge from [A] to [C], which
    has not: the first is taken forward, the second in reverse. *)
Lemma first_direction_read_off_third_edge_witness :
  connectSameNodes (Edge.mk "A" "B") (Edge.mk "A" "B")
  ∧ _detectDirectionsOfPathEdges Sample.backAndForth !! 0%nat = Some false
  ∧ _detectDirectionsOfPathEdges Sample.backAndForth !! 1%nat = Some true
  ∧ _detectDirectionsOfPathEdges Sample.awayFromThird !! 0%nat = Some true
  ∧ _detectDirectionsOfPathEdges Sample.awayFromThird !! 1%nat = Some false.
Proof.
  assert (Hsame : connectSameNodes (Edge.mk "A" "B") (Edge.mk "A" "B")) by (by left).
  split; [exact Hsame|].
  destruct (first_direction_read_off_third_edge
              (EdgeObject.mk "a" (Edge.mk "A" "B")) (EdgeObject.mk "b" (Edge.mk "A" "B"))
              (EdgeObject.mk "c" (Edge.mk "B" "C")) [] Hsame)
    as (_ & Htowards & _ & _).
  destruct (first_direction_read_off_third_edge
              (EdgeObject.mk "a" (Edge.mk "A" "B")) (EdgeObject.mk "b" (Edge.mk "A" "B"))
              (EdgeObject.mk "c" (Edge.mk "A" "C")) [] Hsame)
    as (_ & _ & Haway & _).
  destruct Htowards as [Hfirst Hsecond]; [left; reflexivity|].
  destruct Haway as [Hfirst' Hsecond']; [discriminate..|].
  split; [exact Hfirst|]. split; [exact Hsecond|].
  split; [exact Hfirst' | exact Hsecond'].
Defined.

(** C7, as stated, fails.  On the straight chain with a margin of 90 the
    boundary offset, 90, is less than the length of the first edge, 100, so
    the specification flags no overrun; the code adds the radius of the far
    node, 16, flags the start and drops the start point.  On the chain with
    a curved first edge and a margin of 120 the start is flagged, and the
    sequence returned begins with the first control point of the curve into
    the transit node, about (129.56, 35.78), where the first transit point
    is about (90.66, -7.53). *)
Lemma overrun_flag_and_reentry_counterexample :
  specOverrun 90 (lineMarginOf centerOfNode 90 16) Sample.firstLine = false
  ∧ specOverrun 90 (lineMarginOf centerOfNode 90 16) Sample.lastLine = false
  ∧ calculatePathPointsUntrimmed Sample.chain Sample.chainNodeStates Sample.chainLayouts
      Sample.chainEdgeStates 1 false centerOfNode 90
    = Some ([Point (mkPosition 90 0); Point (mkPosition 88 0); Point (mkPosition 112 0);
             Point (mkPosition 210 0)], true, false)
  ∧ _calculatePathPoints Sample.chain Sample.chainNodeStates Sample.chainLayouts
      Sample.chainEdgeStates 1 false centerOfNode 90
    = Some [Point (mkPosition 88 0); Point (mkPosition 112 0); Point (mkPosition 210 0)]
  ∧ (fst <$> calculatePathPointsUntrimmed Sample.chain Sample.chainNodeStates
               Sample.chainLayouts Sample.curvedChainEdgeStates 1 true centerOfNode 120)
    = Some ([Point (mkPosition 0x1.aa1bad75987d5p+6 0x1.c68d31d75e1bp+2);
             Points [mkPosition 0x1.031e4881f3cbap+7 0x1.1e3f4598f526ep+5;
                     mkPosition 0x1.e19a5cb2de334p+5 (-0x1.c2789685beed8p+4);
                     mkPosition 0x1.6a9efb16c1dc3p+6 (-0x1.e1d023d38be28p+2);
                     mkPosition 100 0]
               (mkPosition 112 0);
             Point (mkPosition 180 0)], true)
  ∧ _calculatePathPoints Sample.chain Sample.chainNodeStates Sample.chainLayouts
      Sample.curvedChainEdgeStates 1 true centerOfNode 120
    = Some [Point (mkPosition 0x1.031e4881f3cbap+7 0x1.1e3f4598f526ep+5);
            Points [mkPosition 0x1.031e4881f3cbap+7 0x1.1e3f4598f526ep+5;
                    mkPosition 0x1.e19a5cb2de334p+5 (-0x1.c2789685beed8p+4);
                    mkPosition 0x1.6a9efb16c1dc3p+6 (-0x1.e1d023d38be28p+2);
                    mkPosition 100 0]
              (mkPosition 112 0);
            Point (mkPosition 180 0)].
Proof.
  repeat (split; [vm_compute; reflexivity|]). vm_compute; reflexivity.
Qed.

(** On the straight chain with a margin of 90 the start overrun is
    flagged, the distance 100 being at most 90 + 16, and the end overrun is
    not: of the four points pushed the start point is dropped.  With a
    margin of 190 both are flagged, and only the two transit points are
    left. *)
Lemma overrun_trimming_follows_flags_witness :
  _calculatePathPoints Sample.chain Sample.chainNodeStates Sample.chainLayouts
    Sample.chainEdgeStates 1 false centerOfNode 90
  = Some [Point (mkPosition 88 0); Point (mkPosition 112 0); Point (mkPosition 210 0)]
  ∧ (∃ start middle final,
       calculatePathPointsUntrimmed Sample.chain Sample.chainNodeStates
         Sample.chainLayouts Sample.chainEdgeStates 1 false centerOfNode 90
       = Some (Point start :: middle ++ [final], true, false)
       ∧ [Point (mkPosition 88 0); Point (mkPosition 112 0); Point (mkPosition 210 0)]
         = reentry (middle ++ [final]) ++ middle ++ [final])
  ∧ _calculatePathPoints Sample.chain Sample.chainNodeStates Sample.chainLayouts
      Sample.chainEdgeStates 1 false centerOfNode 190
    = Some [Point (mkPosition 88 0); Point (mkPosition 112 0)]
  ∧ (∃ start middle final,
       calculatePathPointsUntrimmed Sample.chain Sample.chainNodeStates
         Sample.chainLayouts Sample.chainEdgeStates 1 false centerOfNode 190
       = Some (Point start :: middle ++ [final], true, true)
       ∧ [Point (mkPosition 88 0); Point (mkPosition 112 0)]
         = reentry (middle ++ [final]) ++ middle ++ []).
Proof.
  assert (Hstart :
    _calculatePathPoints Sample.chain Sample.chainNodeStates Sample.chainLayouts
      Sample.chainEdgeStates 1 false centerOfNode 90
    = Some [Point (mkPosition 88 0); Point (mkPosition 112 0); Point (mkPosition 210 0)])
    by (vm_compute; reflexivity).
  assert (Hboth :
    _calculatePathPoints Sample.chain Sample.chainNodeStates Sample.chainLayouts
      Sample.chainEdgeStates 1 false centerOfNode 190
    = Some [Point (mkPosition 88 0); Point (mkPosition 112 0)])
    by (vm_compute; reflexivity).
  split; [exact Hstart|]. split; [|split; [exact Hboth|]].
  - destruct (overrun_trimming_follows_flags _ _ _ _ _ _ _ _ _ Hstart)
      as (edgePos & firstEdge & lastEdge & firstNear & firstFar & lastNear & lastFar
          & start & middle & final
          & Hlines & Hfirst & Hlast & HfirstNear & HfirstFar & HlastNear & HlastFar
          & Hflags).
    vm_compute in Hlines. injection Hlines as <-.
    vm_compute in Hfirst. injection Hfirst as <-.
    vm_compute in Hlast. injection Hlast as <-.
    vm_compute in HfirstNear. injection HfirstNear as <-.
    vm_compute in HfirstFar. injection HfirstFar as <-.
    vm_compute in HlastNear. injection HlastNear as <-.
    vm_compute in HlastFar. injection HlastFar as <-.
    cbn zeta in Hflags.
    change ((0 <? 90)%float && _) with true in Hflags at 1.
    change ((0 <? 90)%float && _) with false in Hflags at 1.
    change ((0 <? 90)%float && _) with true in Hflags at 1.
    change ((0 <? 90)%float && _) with false in Hflags at 1.
    destruct Hflags as (Hpushed & Hresult & _).
    exists start, middle, final. split; [exact Hpushed | exact Hresult].
  - destruct (overrun_trimming_follows_flags _ _ _ _ _ _ _ _ _ Hboth)
      as (edgePos & firstEdge & lastEdge & firstNear & firstFar & lastNear & lastFar
          & start & middle & final
          & Hlines & Hfirst & Hlast & HfirstNear & HfirstFar & HlastNear & HlastFar
          & Hflags).
    vm_compute in Hlines. injection Hlines as <-.
    vm_compute in Hfirst. injection Hfirst as <-.
    vm_compute in Hlast. injection Hlast as <-.
    vm_compute in HfirstNear. injection HfirstNear as <-.
    vm_compute in HfirstFar. injection HfirstFar as <-.
    vm_compute in HlastNear. injection HlastNear as <-.
    vm_compute in HlastFar. injection HlastFar as <-.
    cbn zeta in Hflags.
    change ((0 <? 190)%float && _) with true in Hflags at 1.
    change ((0 <? 190)%float && _) with true in Hflags at 1.
    change ((0 <? 190)%float && _) with true in Hflags at 1.
    change ((0 <? 190)%float && _) with true in Hflags at 1.
    destruct Hflags as (Hpushed & Hresult & _).
    exists start, middle, final. split; [exact Hpushed | exact Hresult].
Defined.

(** * Further properties of the code *)

(** ** The flag watchers *)

Section flags.
Context {S : Type} (flag : S → bool) (setFlag : bool → S → S).
Context (flag_setFlag : ∀ value state, flag (setFlag value state) = value).

Lemma flag_marked value state : flag (marked flag setFlag value state) = value.
Proof.
  unfold marked. destruct (eqb (flag state) value) eqn:Heq; [|apply flag_setFlag].
  by apply eqb_prop in Heq.
Qed.

Lemma markStates_lookup value ids (states : gmap string S) id :
  markStates flag setFlag value ids states !! id
  = (λ state, if bool_decide (id ∈ ids) then marked flag setFlag value state else state)
    <$> states !! id.
Proof.
  unfold markStates. revert states. induction ids as [|k ids IH]; intros states.
  - simpl. by destruct (states !! id).
  - cbn [foldl]. rewrite IH.
    destruct (decide (k = id)) as [->|Hne].
    + rewrite (bool_decide_eq_true_2 (id ∈ id :: ids)) by left.
      destruct (states !! id) as [state|] eqn:Hstate; [|by rewrite Hstate].
      assert (Hstep : (if eqb (flag state) value then states
                       else <[id := setFlag value state]> states) !! id
                      = Some (marked flag setFlag value state)).
      { unfold marked. destruct (eqb (flag state) value); [done|].
        apply lookup_insert_eq. }
      rewrite Hstep. cbn. f_equal. case_bool_decide; [|done].
      unfold marked at 1. by rewrite flag_marked, eqb_reflx.
    + assert (Hstep : match states !! k with
                      | Some state =>
                          if eqb (flag state) value then states
                          else <[k := setFlag value state]> states
                      | None => states
                      end !! id = states !! id).
      { destruct (states !! k) as [state|]; [|done].
        destruct (eqb (flag state) value); [done | by rewrite lookup_insert_ne]. }
      rewrite Hstep. destruct (states !! id) as [state|]; [|done]. cbn. f_equal.
      destruct (decide (id ∈ ids)) as [Hin|Hin].
      * by rewrite !bool_decide_eq_true_2 by (done || by right).
      * rewrite (bool_decide_eq_false_2 (id ∈ ids)) by done.
        rewrite (bool_decide_eq_false_2 (id ∈ k :: ids)); [done|].
        rewrite elem_of_cons. intros [?|?]; congruence.
Qed.

Lemma updateFlags_lookup nodes prev (states : gmap string S) id :
  updateFlags flag setFlag nodes prev states !! id
  = (λ state,
       if bool_decide (id ∈ nodes ∧ id ∉ prev) then marked flag setFlag true state
       else if bool_decide (id ∈ prev ∧ id ∉ nodes) then marked flag setFlag false state
       else state)
    <$> states !! id.
Proof.
  unfold updateFlags. rewrite !markStates_lookup.
  destruct (states !! id) as [state|]; [|done]. cbn. f_equal.
  assert (Happend : id ∈ List.filter (λ n, negb (bool_decide (n ∈ prev))) nodes
                    ↔ id ∈ nodes ∧ id ∉ prev).
  { rewrite list_elem_of_In, filter_In, <- list_elem_of_In.
    rewrite negb_true_iff, bool_decide_eq_false. tauto. }
  assert (Hremoved : id ∈ List.filter (λ n, negb (bool_decide (n ∈ nodes))) prev
                     ↔ id ∈ prev ∧ id ∉ nodes).
  { rewrite list_elem_of_In, filter_In, <- list_elem_of_In.
    rewrite negb_true_iff, bool_decide_eq_false. tauto. }
  repeat case_bool_decide; tauto || done.
Qed.

Lemma updateFlags_mirrors nodes prev (states : gmap string S) :
  mirrors flag prev states → mirrors flag nodes (updateFlags flag setFlag nodes prev states).
Proof.
  intros Hmirror id state'. rewrite updateFlags_lookup.
  destruct (states !! id) as [state|] eqn:Hstate; [|done]. cbn. intros [= <-].
  specialize (Hmirror id state Hstate).
  destruct (decide (id ∈ nodes)) as [Hnow|Hnow], (decide (id ∈ prev)) as [Hbefore|Hbefore].
  - rewrite bool_decide_eq_false_2, bool_decide_eq_false_2 by tauto.
    rewrite Hmirror. by rewrite !bool_decide_eq_true_2.
  - rewrite bool_decide_eq_true_2 by tauto.
    by rewrite flag_marked, bool_decide_eq_true_2.
  - rewrite bool_decide_eq_false_2, bool_decide_eq_true_2 by tauto.
    by rewrite flag_marked, bool_decide_eq_false_2.
  - rewrite bool_decide_eq_false_2, bool_decide_eq_false_2 by tauto.
    rewrite Hmirror. by rewrite !bool_decide_eq_false_2.
Qed.
End flags.

Lemma marked_selected_node value state :
  marked NodeState.selected setNodeSelected value state = setNodeSelected value state.
Proof.
  unfold marked. destruct (eqb _ _) eqn:Heq; [|done].
  apply eqb_prop in Heq. subst value. by destruct state.
Qed.

Lemma marked_hovered_node value state :
  marked NodeState.hovered setNodeHovered value state = setNodeHovered value state.
Proof.
  unfold marked. destruct (eqb _ _) eqn:Heq; [|done].
  apply eqb_prop in Heq. subst value. by destruct state.
Qed.

Lemma marked_selected_edge value state :
  marked EdgeState.selected setEdgeSelected value state = setEdgeSelected value state.
Proof.
  unfold marked. destruct (eqb _ _) eqn:Heq; [|done].
  apply eqb_prop in Heq. subst value. by destruct state.
Qed.

Lemma marked_hovered_edge value state :
  marked EdgeState.hovered setEdgeHovered value state = setEdgeHovered value state.
Proof.
  unfold marked. destruct (eqb _ _) eqn:Heq; [|done].
  apply eqb_prop in Heq. subst value. by destruct state.
Qed.

(** X1.  The selection watcher of the nodes creates and deletes no state
    and touches nothing but the [selected] flag: the state of an identifier
    that joined the selection is selected, the state of one that left it is
    not, every other state is as it was.  The hover watcher of the nodes and
    the two watchers of the edges do the same with their flag. *)
Theorem flag_watchers_only_set_their_flag
    (nodes prev : list string)
    (nodeStates : gmap string NodeState.t) (edgeStates : gmap string EdgeState.t)
    (id : string) :
  let change {S} (set : bool → S → S) (state : S) : S :=
    if bool_decide (id ∈ nodes ∧ id ∉ prev) then set true state
    else if bool_decide (id ∈ prev ∧ id ∉ nodes) then set false state
    else state in
  watchSelectedNodes nodes prev nodeStates !! id
  = change setNodeSelected <$> nodeStates !! id
  ∧ watchHoveredNodes nodes prev nodeStates !! id
    = change setNodeHovered <$> nodeStates !! id
  ∧ watchSelectedEdges nodes prev edgeStates !! id
    = change setEdgeSelected <$> edgeStates !! id
  ∧ watchHoveredEdges nodes prev edgeStates !! id
    = change setEdgeHovered <$> edgeStates !! id.
Proof.
  intros change. unfold change, watchSelectedNodes, watchHoveredNodes,
    watchSelectedEdges, watchHoveredEdges.
  rewrite !updateFlags_lookup by done.
  repeat split.
  - destruct (nodeStates !! id); [|done]. cbn. f_equal.
    by rewrite !marked_selected_node.
  - destruct (nodeStates !! id); [|done]. cbn. f_equal.
    by rewrite !marked_hovered_node.
  - destruct (edgeStates !! id); [|done]. cbn. f_equal.
    by rewrite !marked_selected_edge.
  - destruct (edgeStates !! id); [|done]. cbn. f_equal.
    by rewrite !marked_hovered_edge.
Qed.

(** X2.  If the [selected] flag of every node state tells whether its
    identifier was in the selection before, then after the watcher ran it
    tells whether the identifier is in the selection now; likewise for the
    hover flag of the nodes and the two flags of the edges. *)
Theorem flag_watchers_keep_flags_in_step
    (nodes prev : list string)
    (nodeStates : gmap string NodeState.t) (edgeStates : gmap string EdgeState.t) :
  (mirrors NodeState.selected prev nodeStates →
   mirrors NodeState.selected nodes (watchSelectedNodes nodes prev nodeStates))
  ∧ (mirrors NodeState.hovered prev nodeStates →
     mirrors NodeState.hovered nodes (watchHoveredNodes nodes prev nodeStates))
  ∧ (mirrors EdgeState.selected prev edgeStates →
     mirrors EdgeState.selected nodes (watchSelectedEdges nodes prev edgeStates))
  ∧ (mirrors EdgeState.hovered prev edgeStates →
     mirrors EdgeState.hovered nodes (watchHoveredEdges nodes prev edgeStates)).
Proof. repeat split; by apply updateFlags_mirrors. Qed.

(** ** The watchers of the identifiers *)

Lemma foldl_store_lookup {S : Type} (skip : string → bool) (fresh : string → S)
    (ids : list string) (states : gmap string S) (id : string) :
  foldl (λ states k, if skip k then states else <[k := fresh k]> states) states ids !! id
  = if bool_decide (id ∈ ids) && negb (skip id) then Some (fresh id) else states !! id.
Proof.
  revert states. induction ids as [|k ids IH]; intros states; [done|].
  cbn [foldl]. rewrite IH.
  destruct (decide (id = k)) as [->|Hne].
  - rewrite (bool_decide_eq_true_2 (k ∈ k :: ids)) by left.
    destruct (skip k) eqn:Hskip; simpl; [by rewrite andb_false_r|].
    rewrite andb_true_r. case_bool_decide; [done | apply lookup_insert_eq].
  - assert (Hstep : (if skip k then states else <[k := fresh k]> states) !! id
                    = states !! id).
    { destruct (skip k); [done | by rewrite lookup_insert_ne]. }
    rewrite Hstep.
    rewrite (bool_decide_ext (id ∈ k :: ids) (id ∈ ids)); [done|].
    rewrite elem_of_cons. intuition congruence.
Qed.

Lemma gone_cons (keep : string → bool) (k : string) (ids : list string) (id : string) :
  bool_decide (id ∈ k :: ids) && negb (keep id)
  = (bool_decide (id ∈ ids) && negb (keep id))
    || (bool_decide (id = k) && negb (keep k)).
Proof.
  destruct (decide (id = k)) as [->|Hne].
  - rewrite (bool_decide_eq_true_2 (k ∈ k :: ids)) by left.
    rewrite (bool_decide_eq_true_2 (k = k)) by done.
    by destruct (bool_decide (k ∈ ids)), (keep k).
  - rewrite (bool_decide_eq_false_2 (id = k)) by done.
    rewrite orb_false_r.
    rewrite (bool_decide_ext (id ∈ k :: ids) (id ∈ ids)); [done|].
    rewrite elem_of_cons. intuition congruence.
Qed.

Lemma foldl_removeNode (keep : string → bool) (ids : list string) (w : NodeWorld.t) :
  let w' := foldl (λ w k, if keep k then w else removeNode k w) w ids in
  (∀ id, NodeWorld.nodeStates w' !! id
         = if bool_decide (id ∈ ids) && negb (keep id) then None
           else NodeWorld.nodeStates w !! id)
  ∧ (∀ id, NodeWorld.positions w' !! id
           = if bool_decide (id ∈ ids) && negb (keep id) then None
             else NodeWorld.positions w !! id)
  ∧ (∀ id, id ∈ NodeWorld.selectedNodes w'
           ↔ id ∈ NodeWorld.selectedNodes w
             ∧ bool_decide (id ∈ ids) && negb (keep id) = false)
  ∧ (∀ id, id ∈ NodeWorld.hoveredNodes w'
           ↔ id ∈ NodeWorld.hoveredNodes w
             ∧ bool_decide (id ∈ ids) && negb (keep id) = false).
Proof.
  revert w. induction ids as [|k ids IH]; intros w.
  - cbn. repeat split; tauto.
  - cbn [foldl]. cbn zeta in IH |- *.
    destruct (IH (if keep k then w else removeNode k w)) as (Hs & Hp & Hsel & Hhov).
    split; [|split; [|split]]; intros id.
    + rewrite Hs, gone_cons.
      destruct (bool_decide (id ∈ ids) && negb (keep id)); [done|]. simpl.
      case_bool_decide as Hk; simpl; [subst id|].
      * destruct (keep k); [done|]. apply lookup_delete_eq.
      * destruct (keep k); [done|]. by apply lookup_delete_ne.
    + rewrite Hp, gone_cons.
      destruct (bool_decide (id ∈ ids) && negb (keep id)); [done|]. simpl.
      case_bool_decide as Hk; simpl; [subst id|].
      * destruct (keep k); [done|]. apply lookup_delete_eq.
      * destruct (keep k); [done|]. by apply lookup_delete_ne.
    + rewrite Hsel, gone_cons, orb_false_iff.
      destruct (keep k) eqn:Hkeep; cbn; [rewrite andb_false_r; tauto|].
      rewrite andb_true_r, bool_decide_eq_false, elem_of_difference, elem_of_singleton.
      tauto.
    + rewrite Hhov, gone_cons, orb_false_iff.
      destruct (keep k) eqn:Hkeep; cbn; [rewrite andb_false_r; tauto|].
      rewrite andb_true_r, bool_decide_eq_false, elem_of_difference, elem_of_singleton.
      tauto.
Qed.

Lemma watchNodeIds_removed (idSet prev : gset string) (id : string) :
  bool_decide (id ∈ elements prev) && negb (bool_decide (id ∈ idSet))
  = bool_decide (id ∈ prev ∧ id ∉ idSet).
Proof.
  apply eq_true_iff_eq.
  rewrite andb_true_iff, negb_true_iff, !bool_decide_eq_true, bool_decide_eq_false.
  by rewrite elem_of_elements.
Qed.

Lemma watchNodeIds_lookup (idSet prev : gset string) (w : NodeWorld.t) (id : string) :
  let w' := watchNodeIds idSet prev w in
  NodeWorld.nodeStates w' !! id
  = (if bool_decide (id ∈ prev ∧ id ∉ idSet) then None
     else if bool_decide (id ∈ idSet ∧ id ∉ prev) then Some (newNodeState false false)
     else NodeWorld.nodeStates w !! id)
  ∧ NodeWorld.positions w' !! id
    = (if bool_decide (id ∈ prev ∧ id ∉ idSet) then None
       else NodeWorld.positions w !! id)
  ∧ (id ∈ NodeWorld.selectedNodes w'
     ↔ id ∈ NodeWorld.selectedNodes w ∧ ¬ (id ∈ prev ∧ id ∉ idSet))
  ∧ (id ∈ NodeWorld.hoveredNodes w'
     ↔ id ∈ NodeWorld.hoveredNodes w ∧ ¬ (id ∈ prev ∧ id ∉ idSet)).
Proof.
  cbn zeta. unfold watchNodeIds.
  match goal with
  | |- context [foldl _ ?w0 (elements prev)] =>
      destruct (foldl_removeNode (λ k, bool_decide (k ∈ idSet)) (elements prev) w0)
        as (Hs & Hp & Hsel & Hhov)
  end.
  rewrite Hs, Hp, Hsel, Hhov, !watchNodeIds_removed. cbn [NodeWorld.nodeStates
    NodeWorld.positions NodeWorld.selectedNodes NodeWorld.hoveredNodes].
  rewrite bool_decide_eq_false.
  repeat split; try tauto.
  case_bool_decide as Hgone; [done|].
  unfold createNodeStateEntry.
  rewrite (foldl_store_lookup (λ k, bool_decide (k ∈ prev))
             (λ _, newNodeState false false)).
  rewrite (bool_decide_ext (id ∈ elements idSet) (id ∈ idSet)) by apply elem_of_elements.
  destruct (decide (id ∈ idSet)) as [Hin|Hout], (decide (id ∈ prev)) as [Hp'|Hp'].
  - rewrite (bool_decide_eq_true_2 (id ∈ idSet)), (bool_decide_eq_true_2 (id ∈ prev)) by done.
    by rewrite (bool_decide_eq_false_2 (id ∈ idSet ∧ id ∉ prev)) by tauto.
  - rewrite (bool_decide_eq_true_2 (id ∈ idSet)), (bool_decide_eq_false_2 (id ∈ prev)) by done.
    by rewrite (bool_decide_eq_true_2 (id ∈ idSet ∧ id ∉ prev)) by tauto.
  - tauto.
  - rewrite (bool_decide_eq_false_2 (id ∈ idSet)) by done.
    by rewrite (bool_decide_eq_false_2 (id ∈ idSet ∧ id ∉ prev)) by tauto.
Qed.



(** ** The flag watchers after the watchers of the identifiers *)

Lemma updateFlags_nothing_to_do {S : Type} (flag : S → bool) (setFlag : bool → S → S)
    (now before : list string) (states : gmap string S) :
  (∀ value state, flag (setFlag value state) = value) →
  (∀ id, id ∈ now → id ∈ before) →
  (∀ id, id ∈ before → id ∉ now → states !! id = None) →
  updateFlags flag setFlag now before states = states.
Proof.
  intros Hflag Hshrinks Hgone. apply map_eq. intros id.
  rewrite updateFlags_lookup by done.
  destruct (states !! id) as [state|] eqn:Hstate; [|done]. cbn. f_equal.
  rewrite (bool_decide_eq_false_2 (id ∈ now ∧ id ∉ before)) by (intros [? ?]; auto).
  rewrite (bool_decide_eq_false_2 (id ∈ before ∧ id ∉ now)); [done|].
  intros [Hbefore Hnow]. specialize (Hgone id Hbefore Hnow). congruence.
Qed.

(** X23. The removals made by the watcher of the node identifiers ask
    nothing of the flag watchers: run with the selection (or the hovered
    nodes) as it was before and as it is after, they leave every node
    state as it is, since the nodes that left the selection have no state
    any more. *)
Theorem node_removal_needs_no_flag_update (idSet prev : gset string)
    (w : NodeWorld.t) (before now : list string) (hoveredBefore hoveredNow : list string) :
  let w' := watchNodeIds idSet prev w in
  (∀ id, id ∈ before ↔ id ∈ NodeWorld.selectedNodes w) →
  (∀ id, id ∈ now ↔ id ∈ NodeWorld.selectedNodes w') →
  (∀ id, id ∈ hoveredBefore ↔ id ∈ NodeWorld.hoveredNodes w) →
  (∀ id, id ∈ hoveredNow ↔ id ∈ NodeWorld.hoveredNodes w') →
  watchSelectedNodes now before (NodeWorld.nodeStates w') = NodeWorld.nodeStates w'
  ∧ watchHoveredNodes hoveredNow hoveredBefore (NodeWorld.nodeStates w')
    = NodeWorld.nodeStates w'.
Proof.
  cbn zeta. intros Hbefore Hnow HhoveredBefore HhoveredNow.
  split; (apply updateFlags_nothing_to_do; [done|..]).
  - intros id. rewrite Hnow, Hbefore.
    destruct (watchNodeIds_lookup idSet prev w id) as (_ & _ & -> & _). tauto.
  - intros id. rewrite Hnow, Hbefore.
    destruct (watchNodeIds_lookup idSet prev w id) as (-> & _ & -> & _).
    intros Hin Hout. case_bool_decide; [done|tauto].
  - intros id. rewrite HhoveredNow, HhoveredBefore.
    destruct (watchNodeIds_lookup idSet prev w id) as (_ & _ & _ & ->). tauto.
  - intros id. rewrite HhoveredNow, HhoveredBefore.
    destruct (watchNodeIds_lookup idSet prev w id) as (-> & _ & _ & ->).
    intros Hin Hout. case_bool_decide; [done|tauto].
Qed.

(** ** The states at the start, and the watcher of the edge identifiers *)


Section edge_watcher.
Context `{!Host, !V.Ops, !v2d.Ops, !EdgeGroup.Ops}.

Lemma foldl_removeEdge_thrown (keep : string → bool) (ids : list string) :
  foldl (λ w k, w ← w; if keep k then Some w else removeEdge k w) None ids = None.
Proof. by induction ids. Qed.

Lemma foldl_removeEdge_throws (keep : string → bool) (ids : list string)
    (w : EdgeWorld) (id : string) :
  id ∈ ids → keep id = false → edgeStates w !! id = None →
  foldl (λ w k, w ← w; if keep k then Some w else removeEdge k w) (Some w) ids = None.
Proof.
  revert w. induction ids as [|k ids IH]; intros w Hin Hkeep Hnone.
  - by apply elem_of_nil in Hin.
  - cbn [foldl mbind option_bind].
    destruct (decide (id = k)) as [->|Hne].
    + rewrite Hkeep. unfold removeEdge. rewrite Hnone. cbn.
      apply foldl_removeEdge_thrown.
    + apply elem_of_cons in Hin as [?|Hin]; [done|].
      destruct (keep k); [by apply IH|].
      unfold removeEdge. destruct (edgeStates w !! k); cbn.
      * apply IH; [done..|]. cbn. by rewrite lookup_delete_ne.
      * apply foldl_removeEdge_thrown.
Qed.

Lemma foldl_removeEdge (keep : string → bool) (ids : list string) (w : EdgeWorld) :
  NoDup ids →
  (∀ k, k ∈ ids → keep k = false → is_Some (edgeStates w !! k)) →
  ∃ w',
    foldl (λ w k, w ← w; if keep k then Some w else removeEdge k w) (Some w) ids
    = Some w'
    ∧ (∀ id, edgeStates w' !! id
             = if bool_decide (id ∈ ids) && negb (keep id) then None
               else edgeStates w !! id)
    ∧ (∀ id, id ∈ selectedEdges w'
             ↔ id ∈ selectedEdges w
               ∧ bool_decide (id ∈ ids) && negb (keep id) = false)
    ∧ (∀ id, id ∈ hoveredEdges w'
             ↔ id ∈ hoveredEdges w
               ∧ bool_decide (id ∈ ids) && negb (keep id) = false).
Proof.
  revert w. induction ids as [|k ids IH]; intros w Hnodup Hstates.
  - exists w. cbn. repeat split; tauto.
  - apply NoDup_cons in Hnodup as [Hfresh Hnodup].
    cbn [foldl mbind option_bind].
    assert (Hstep : ∃ w1,
      (if keep k then Some w else removeEdge k w) = Some w1
      ∧ (∀ id, edgeStates w1 !! id
               = if bool_decide (id = k) && negb (keep k) then None
                 else edgeStates w !! id)
      ∧ (∀ id, id ∈ selectedEdges w1
               ↔ id ∈ selectedEdges w ∧ bool_decide (id = k) && negb (keep k) = false)
      ∧ (∀ id, id ∈ hoveredEdges w1
               ↔ id ∈ hoveredEdges w ∧ bool_decide (id = k) && negb (keep k) = false)).
    { destruct (keep k) eqn:Hkeep.
      - exists w. split; [done|]. cbn.
        split; [|split]; intros id; rewrite andb_false_r; tauto.
      - destruct (Hstates k) as [state Hstate]; [left|done|].
        unfold removeEdge. rewrite Hstate. cbn. eexists. split; [done|]. cbn.
        split; [|split]; intros id; rewrite andb_true_r.
        + case_bool_decide as Hk; [subst; apply lookup_delete_eq
                                  | by apply lookup_delete_ne].
        + rewrite bool_decide_eq_false, elem_of_difference, elem_of_singleton. tauto.
        + rewrite bool_decide_eq_false, elem_of_difference, elem_of_singleton. tauto. }
    destruct Hstep as (w1 & -> & Hs1 & Hsel1 & Hhov1).
    destruct (IH w1 Hnodup) as (w' & -> & Hs & Hsel & Hhov).
    { intros j Hj Hkeep. rewrite Hs1.
      rewrite (bool_decide_eq_false_2 (j = k)) by (intros ->; done).
      apply Hstates; [by right | done]. }
    exists w'. split; [done|].
    split; [|split]; intros id.
    + rewrite Hs, Hs1, gone_cons.
      destruct (bool_decide (id ∈ ids) && negb (keep id)); [done|]. simpl.
      by destruct (bool_decide (id = k) && negb (keep k)).
    + rewrite Hsel, Hsel1, gone_cons, orb_false_iff. tauto.
    + rewrite Hhov, Hhov1, gone_cons, orb_false_iff. tauto.
Qed.

Lemma foldl_pointwise {A B : Type} (f g : A → B → A) (l : list B) (a : A) :
  (∀ a x, f a x = g a x) → foldl f a l = foldl g a l.
Proof.
  intros Hfg. revert a. induction l as [|x l IH]; intros a; [done|].
  cbn. by rewrite Hfg, IH.
Qed.

Lemma foldl_createEdgeState (inputs : EdgeInputs) (edges : gmap string Edge.t)
    (layouts : gmap string Position) (nodeStates : gmap string NodeState.t)
    (skip selected : string → bool) (ids : list string)
    (states : gmap string EdgeState.t) (id : string) :
  foldl
    (λ states edgeId,
       if skip edgeId then states
       else createEdgeState inputs states nodeStates edges edgeId
              (selected edgeId) layouts)
    states ids !! id
  = if bool_decide (id ∈ ids) && negb (skip id) && bool_decide (is_Some (edges !! id))
    then Some (runEdgeEffect inputs edges layouts nodeStates id
                 (initialEdgeState (selected id)))
    else states !! id.
Proof.
  pose proof (foldl_store_lookup
                (λ k, negb (negb (skip k) && bool_decide (is_Some (edges !! k))))
                (λ k, runEdgeEffect inputs edges layouts nodeStates k
                        (initialEdgeState (selected k))) ids states id) as Hfold.
  cbn beta in Hfold. rewrite negb_involutive, andb_assoc in Hfold.
  rewrite <- Hfold. f_equal. apply foldl_pointwise. intros states' k.
  unfold createEdgeState.
  destruct (skip k); [done|]. cbn.
  destruct (edges !! k); [by rewrite bool_decide_eq_true_2 by by eexists|].
  by rewrite bool_decide_eq_false_2 by by intros [? ?].
Qed.

Lemma watchEdgeIds_lookup (inputs : EdgeInputs) (edges : gmap string Edge.t)
    (layouts : gmap string Position) (nodeStates : gmap string NodeState.t)
    (idSet prev : gset string) (w : EdgeWorld) :
  (∀ id, id ∈ prev → id ∉ idSet → is_Some (edgeStates w !! id)) →
  ∃ w',
    watchEdgeIds inputs edges layouts nodeStates idSet prev w = Some w'
    ∧ (∀ id, edgeStates w' !! id
             = if bool_decide (id ∈ prev ∧ id ∉ idSet) then None
               else if bool_decide ((id ∈ idSet ∧ id ∉ prev) ∧ is_Some (edges !! id))
               then Some (runEdgeEffect inputs edges layouts nodeStates id
                            (initialEdgeState false))
               else edgeStates w !! id)
    ∧ (∀ id, id ∈ selectedEdges w'
             ↔ id ∈ selectedEdges w ∧ ¬ (id ∈ prev ∧ id ∉ idSet))
    ∧ (∀ id, id ∈ hoveredEdges w'
             ↔ id ∈ hoveredEdges w ∧ ¬ (id ∈ prev ∧ id ∉ idSet)).
Proof.
  intros Hstates. unfold watchEdgeIds.
  match goal with
  | |- context [foldl _ (Some ?w0) (elements prev)] =>
      destruct (foldl_removeEdge (λ k, bool_decide (k ∈ idSet)) (elements prev) w0)
        as (w' & Hw' & Hs & Hsel & Hhov)
  end.
  { apply NoDup_elements. }
  { intros k Hk Hout. apply elem_of_elements in Hk.
    apply bool_decide_eq_false in Hout. cbn.
    rewrite (foldl_createEdgeState inputs edges layouts nodeStates
               (λ k, bool_decide (k ∈ prev)) (λ _, false)).
    rewrite (bool_decide_eq_true_2 (k ∈ prev)) by done.
    rewrite andb_false_r. cbn. by apply Hstates. }
  exists w'. split; [exact Hw'|].
  split; [|split]; intros id.
  - rewrite Hs, watchNodeIds_removed. cbn.
    case_bool_decide as Hgone; [done|].
    rewrite (foldl_createEdgeState inputs edges layouts nodeStates
               (λ k, bool_decide (k ∈ prev)) (λ _, false)).
    rewrite (bool_decide_ext (id ∈ elements idSet) (id ∈ idSet)) by apply elem_of_elements.
    match goal with
    | |- (if ?a then _ else _) = (if ?b then _ else _) =>
        assert (Hab : a = b); [|by rewrite Hab]
    end.
    apply eq_true_iff_eq.
    rewrite !andb_true_iff, negb_true_iff, !bool_decide_eq_true, bool_decide_eq_false.
    tauto.
  - rewrite Hsel, watchNodeIds_removed, bool_decide_eq_false. cbn. tauto.
  - rewrite Hhov, watchNodeIds_removed, bool_decide_eq_false. cbn. tauto.
Qed.



Lemma watchEdgeIds_throws (inputs : EdgeInputs)
    (edges : gmap string Edge.t) (layouts : gmap string Position)
    (nodeStates : gmap string NodeState.t)
    (idSet prev : gset string) (w : EdgeWorld) (id : string) :
  id ∈ prev → id ∉ idSet → edgeStates w !! id = None →
  watchEdgeIds inputs edges layouts nodeStates idSet prev w = None.
Proof.
  intros Hin Hout Hnone. unfold watchEdgeIds.
  apply (foldl_removeEdge_throws (λ k, bool_decide (k ∈ idSet)) _ _ id).
  - by apply elem_of_elements.
  - by apply bool_decide_eq_false.
  - cbn.
    rewrite (foldl_createEdgeState inputs edges layouts nodeStates
               (λ k, bool_decide (k ∈ prev)) (λ _, false)).
    rewrite (bool_decide_eq_true_2 (id ∈ prev)) by done.
    by rewrite andb_false_r.
Qed.

Lemma watchEdgeIds_Some (inputs : EdgeInputs)
    (edges : gmap string Edge.t) (layouts : gmap string Position)
    (nodeStates : gmap string NodeState.t)
    (idSet prev : gset string) (w w' : EdgeWorld) :
  watchEdgeIds inputs edges layouts nodeStates idSet prev w = Some w' →
  (∀ id, edgeStates w' !! id
         = if bool_decide (id ∈ prev ∧ id ∉ idSet) then None
           else if bool_decide ((id ∈ idSet ∧ id ∉ prev) ∧ is_Some (edges !! id))
           then Some (runEdgeEffect inputs edges layouts nodeStates id
                        (initialEdgeState false))
           else edgeStates w !! id)
  ∧ (∀ id, id ∈ selectedEdges w'
           ↔ id ∈ selectedEdges w ∧ ¬ (id ∈ prev ∧ id ∉ idSet))
  ∧ (∀ id, id ∈ hoveredEdges w'
           ↔ id ∈ hoveredEdges w ∧ ¬ (id ∈ prev ∧ id ∉ idSet)).
Proof.
  intros Hrun.
  destruct (watchEdgeIds_lookup inputs edges layouts nodeStates idSet prev w)
    as (w'' & Hw'' & Hfacts).
  { intros id Hin Hout.
    destruct (edgeStates w !! id) as [state|] eqn:Hstate; [by eexists|].
    rewrite (watchEdgeIds_throws inputs edges layouts nodeStates idSet prev w id)
      in Hrun; done. }
  rewrite Hrun in Hw''. by injection Hw'' as <-.
Qed.

(** X8. If an edge that left has no state, the watcher of the edge
    identifiers throws: it dereferences the missing state to stop the
    effects of the edge. *)
Theorem edge_id_watcher_throws_without_state (inputs : EdgeInputs)
    (edges : gmap string Edge.t) (layouts : gmap string Position)
    (nodeStates : gmap string NodeState.t)
    (idSet prev : gset string) (w : EdgeWorld) (id : string) :
  id ∈ prev → id ∉ idSet → edgeStates w !! id = None →
  watchEdgeIds inputs edges layouts nodeStates idSet prev w = None.
Proof. apply watchEdgeIds_throws. Qed.

(** X24. Whenever the watcher of the edge identifiers returns, the
    removals it made ask nothing of the flag watchers: run with the
    selection (or the hovered edges) as it was before and as it is after,
    they leave every edge state as it is. *)
Theorem edge_removal_needs_no_flag_update (inputs : EdgeInputs)
    (edges : gmap string Edge.t) (layouts : gmap string Position)
    (nodeStates : gmap string NodeState.t)
    (idSet prev : gset string) (w w' : EdgeWorld)
    (before now : list string) (hoveredBefore hoveredNow : list string) :
  watchEdgeIds inputs edges layouts nodeStates idSet prev w = Some w' →
  (∀ id, id ∈ before ↔ id ∈ selectedEdges w) →
  (∀ id, id ∈ now ↔ id ∈ selectedEdges w') →
  (∀ id, id ∈ hoveredBefore ↔ id ∈ hoveredEdges w) →
  (∀ id, id ∈ hoveredNow ↔ id ∈ hoveredEdges w') →
  watchSelectedEdges now before (edgeStates w') = edgeStates w'
  ∧ watchHoveredEdges hoveredNow hoveredBefore (edgeStates w') = edgeStates w'.
Proof.
  intros Hrun Hbefore Hnow HhoveredBefore HhoveredNow.
  apply watchEdgeIds_Some in Hrun as (Hstates & Hselected & Hhovered).
  split; (apply updateFlags_nothing_to_do; [done|..]).
  - intros id. rewrite Hnow, Hbefore, Hselected. tauto.
  - intros id. rewrite Hnow, Hbefore, Hselected, Hstates.
    intros Hin Hout. case_bool_decide; [done|tauto].
  - intros id. rewrite HhoveredNow, HhoveredBefore, Hhovered. tauto.
  - intros id. rewrite HhoveredNow, HhoveredBefore, Hhovered, Hstates.
    intros Hin Hout. case_bool_decide; [done|tauto].
Qed.
End edge_watcher.

(** ** Summarized edge states, once more *)

(** X9. Running the maintenance of the summarized edge states a second
    time over the same groups changes nothing. *)
Theorem summarized_states_maintenance_is_idempotent
    (states : gmap string SummarizedEdgeState.t) (groups : gmap string EdgeGroup.t) :
  createSummarizedEdgeStates (createSummarizedEdgeStates states groups) groups
  = createSummarizedEdgeStates states groups.
Proof.
  apply map_eq. intros id.
  rewrite !createSummarizedEdgeStates_lookup.
  destruct (isSummarized groups id); [|done].
  destruct (states !! id); [done|]. by destruct (groups !! id).
Qed.

(** ** The getters of a node that is present *)

(** X10. While the node is present, the getter of [labelText] does not
    throw and does not use what is cached: with a function as configured
    label text it gives the result of the function on the node, and with a
    literal it gives the property of the node that the literal names; when
    the node has no such property of its own, it gives what
    [Object.prototype] defines under that name, and the empty string when
    that defines nothing. *)
Theorem label_text_of_present_node `{!Host}
    (nodes : gmap string Node) (id : string) (config : NodeConfig.t)
    (state : NodeState.t) (node : Node) :
  nodes !! id = Some node →
  createNodeState.labelText nodes id config state
  = Normal (Some match NodeLabelConfig.text (NodeConfig.label config) with
                 | Callable f => Str (f (Own node))
                 | Literal key =>
                     match node !! key with
                     | Some text => Str text
                     | None => if inherited key then HostValue [key] else Str EmptyString
                     end
                 end).
Proof.
  intros Hnode.
  unfold createNodeState.labelText, createNodeState.labelDotText, createNodeState.label.
  rewrite (read_own _ _ _ Hnode). cbn.
  destruct (NodeLabelConfig.text (NodeConfig.label config)) as [key|f]; [|done].
  unfold Config.isFunction, Config.value.
  destruct (node !! key) as [text|] eqn:Hkey; [by rewrite (read_own _ _ _ Hkey)|].
  unfold read, Node in *. rewrite Hkey. by destruct (inherited key).
Qed.

(** X11. While the node is present, its shape is its static shape unless
    it is hovered and a hover style is configured; and its static shape is
    the normal style resolved on the node unless it is selected and a
    selected style is configured.  So without hover and selected styles,
    neither flag changes how the node is drawn. *)
Theorem shape_of_present_node `{!Host}
    (nodes : gmap string Node) (id : string) (config : NodeConfig.t)
    (state : NodeState.t) (node : Node) :
  nodes !! id = Some node →
  (NodeState.hovered state = false ∨ NodeConfig.hover config = None →
   createNodeState.shape nodes id config state
   = createNodeState.staticShape nodes id config state)
  ∧ (NodeState.selected state = false ∨ NodeConfig.selected config = None →
     createNodeState.staticShape nodes id config state
     = Some (ShapeConfig.values (NodeConfig.normal config) (Own node))).
Proof.
  intros Hnode.
  unfold createNodeState.shape, createNodeState.staticShape,
    getNodeShape, getNodeStaticShape.
  rewrite (read_own _ _ _ Hnode). split.
  - intros [-> | ->]; [done|]. by destruct (NodeState.hovered state).
  - intros [-> | ->]; [done|]. by destruct (NodeState.selected state).
Qed.

(** X26. For an identifier that is no key of [nodes] but a name that
    [Object.prototype] defines, the getters do not return what they have
    cached: the read of the node finds the member of that name, and every
    getter computes its value on that member. *)
Theorem getters_recompute_on_inherited_member `{!Host}
    (nodes : gmap string Node) (id : string) (config : NodeConfig.t)
    (state : NodeState.t) :
  nodes !! id = None → inherited id = true →
  createNodeState.shape nodes id config state
  = Some (getNodeShape (Member id) (NodeState.selected state) (NodeState.hovered state)
            config)
  ∧ createNodeState.staticShape nodes id config state
    = Some (getNodeStaticShape (Member id) (NodeState.selected state) config)
  ∧ createNodeState.label nodes id config state
    = Some (NodeLabelConfig.values (NodeConfig.label config) (Member id))
  ∧ createNodeState.draggable nodes id config state
    = Some (Config.value (NodeConfig.draggable config) (Member id))
  ∧ createNodeState.selectable nodes id config state
    = Some (Config.value (NodeConfig.selectable config) (Member id))
  ∧ createNodeState.labelText nodes id config state
    = Normal (Some match NodeLabelConfig.text (NodeConfig.label config) with
                   | Callable f => Str (f (Member id))
                   | Literal key => HostValue [id; key]
                   end).
Proof.
  intros Hnode Hname.
  assert (Hread : read nodes id = Some (Member id)).
  { unfold read. by rewrite Hnode, Hname. }
  unfold createNodeState.shape, createNodeState.staticShape, createNodeState.label,
    createNodeState.draggable, createNodeState.selectable, createNodeState.labelText,
    createNodeState.labelDotText, createNodeState.label.
  rewrite Hread. repeat split.
  cbn [NodeLabelStyle.text NodeLabelConfig.values].
  destruct (NodeLabelConfig.text (NodeConfig.label config)); reflexivity.
Qed.

(** ** More on the geometry effect *)

Lemma eqb_zero_zero (sign : bool) (a : float) :
  Prim2SF a = S754_zero sign → (a =? 0)%float = true.
Proof. intros Ha. rewrite FloatAxioms.eqb_spec, Ha. by destruct sign. Qed.

Lemma eqb_zero_inv (a : float) :
  (a =? 0)%float = true → ∃ sign, Prim2SF a = S754_zero sign.
Proof.
  rewrite FloatAxioms.eqb_spec. destruct (Prim2SF a) as [sign| | |sign m e] eqn:Ha.
  - by exists sign.
  - by destruct s.
  - done.
  - by destruct sign.
Qed.

Lemma isFinite_cases (a : float) :
  Math.isFinite a = true →
  (∃ sign, Prim2SF a = S754_zero sign) ∨ (∃ sign m e, Prim2SF a = S754_finite sign m e).
Proof.
  unfold Math.isFinite. rewrite FloatAxioms.ltb_spec, FloatAxioms.abs_spec.
  destruct (Prim2SF a) as [sign|sign| |sign m e]; [by left; eexists|done|done|].
  right. by eexists _, _, _.
Qed.

Lemma zero_mul_finite (a s : float) :
  (a =? 0)%float = true → Math.isFinite s = true → (a * s =? 0)%float = true.
Proof.
  intros [sa Ha]%eqb_zero_inv Hs.
  assert (Hprod : ∃ sign, Prim2SF (a * s) = S754_zero sign).
  { rewrite FloatAxioms.mul_spec, Ha.
    destruct (isFinite_cases s Hs) as [[ss ->]|(ss & m & e & ->)]; by eexists. }
  destruct Hprod as [sign Hprod]. by apply (eqb_zero_zero sign).
Qed.

Section geometry_effect.
Context `{!Host, !V.Ops, !v2d.Ops, !EdgeGroup.Ops}.
Context (edges : gmap string Edge.t) (id : string)
  (layouts : gmap string Position) (nodeStates : gmap string NodeState.t)
  (edgeLayoutPoint : EdgeLayoutPoint.t) (isEdgeSummarized : bool)
  (l : Line.t) (config : EdgeConfig.t) (scale : float).

Lemma calcEdgeGeometry_flags (state : EdgeState.t) :
  let state' :=
    calcEdgeGeometry edges id layouts nodeStates
      edgeLayoutPoint isEdgeSummarized l config scale state in
  EdgeState.selected state' = EdgeState.selected state
  ∧ EdgeState.hovered state' = EdgeState.hovered state.
Proof.
  cbn zeta.
  destruct (entityMissing_or_read edges id layouts nodeStates)
    as [Hmissing|(edge & sourceRead & targetRead & sourceShape & targetShape
                  & Hedge & Hsource & Htarget & HsourceShape & HtargetShape)].
  - by rewrite calcEdgeGeometry_missing.
  - rewrite (calcEdgeGeometry_reads _ _ _ _ _ _ _ _ _ _ _ _ _ _ _
               Hedge Hsource Htarget HsourceShape HtargetShape).
    by destruct (EdgeConfig.type config).
Qed.

(** X12. A run of the geometry effect never changes the [selected] and
    [hovered] flags of the edge state, and what it stores does not depend
    on the geometry that was stored before: a second run with the same
    inputs changes nothing, and two states with the same flags come out
    equal when the edge, the positions and the static shapes of its ends
    are present. *)
Theorem geometry_effect_keeps_flags_and_forgets_geometry (state other : EdgeState.t) :
  let run :=
    calcEdgeGeometry edges id layouts nodeStates
      edgeLayoutPoint isEdgeSummarized l config scale in
  EdgeState.selected (run state) = EdgeState.selected state
  ∧ EdgeState.hovered (run state) = EdgeState.hovered state
  ∧ run (run state) = run state
  ∧ (¬ entityMissing edges id layouts nodeStates →
     EdgeState.selected other = EdgeState.selected state →
     EdgeState.hovered other = EdgeState.hovered state →
     run other = run state).
Proof.
  cbn zeta.
  destruct (calcEdgeGeometry_flags state) as [Hsel Hhov]. cbn zeta in Hsel, Hhov.
  split; [done|]. split; [done|].
  destruct (entityMissing_or_read edges id layouts nodeStates)
    as [Hmissing|(edge & sourceRead & targetRead & sourceShape & targetShape
                  & Hedge & Hsource & Htarget & HsourceShape & HtargetShape)].
  { split; [by rewrite !calcEdgeGeometry_missing | done]. }
  pose proof (λ state, calcEdgeGeometry_reads edges id layouts nodeStates
    edgeLayoutPoint isEdgeSummarized l config scale state edge sourceRead targetRead
    sourceShape targetShape Hedge Hsource Htarget HsourceShape HtargetShape)
    as Hrun.
  cbn zeta in Hrun. split.
  - rewrite (Hrun (calcEdgeGeometry _ _ _ _ _ _ _ _ _ state)), Hsel, Hhov.
    by rewrite (Hrun state).
  - intros _ Hs Hh. by rewrite (Hrun other), (Hrun state), Hs, Hh.
Qed.

(** X13. An edge without markers and without configured margin is drawn
    between the centers of its end nodes, whatever their shapes: a
    straight edge has the shifted line as origin and as display line and
    no curve; a curved edge, at a finite scale, has the line between the
    two node positions as origin and as display line, with a curve exactly
    when its shift in the group is not zero. *)
Theorem edge_without_markers_or_margin_joins_centers
    (state : EdgeState.t) (edge : Edge.t) (source target : Position)
    (sourceShape targetShape : ShapeStyle.t) :
  edges !! id = Some edge →
  layouts !! Edge.source edge = Some source →
  layouts !! Edge.target edge = Some target →
  nodeStates !! Edge.source edge ≫= NodeState.staticShape = Some sourceShape →
  nodeStates !! Edge.target edge ≫= NodeState.staticShape = Some targetShape →
  MarkerStyle.type (Line.source l) = head_none →
  MarkerStyle.type (Line.target l) = head_none →
  EdgeConfig.margin config = None →
  let state' :=
    calcEdgeGeometry edges id layouts nodeStates
      edgeLayoutPoint isEdgeSummarized l config scale state in
  let shiftedPosition :=
    EdgeGroup.calculateEdgeShiftedPosition edgeLayoutPoint isEdgeSummarized
      source target scale (EdgeConfig.keepOrder config) in
  let shift :=
    (EdgeLayoutPoint.groupWidth edgeLayoutPoint / 2
     - EdgeLayoutPoint.pointInGroup edgeLayoutPoint)%float in
  match EdgeConfig.type config with
  | type_straight =>
      EdgeState.origin state' = shiftedPosition
      ∧ EdgeState.position state' = shiftedPosition
      ∧ EdgeState.curve state' = None
  | type_curve =>
      Math.isFinite scale = true →
      let centers := v2d.positionsToLinePosition source target in
      EdgeState.origin state' = centers
      ∧ EdgeState.position state' = centers
      ∧ EdgeState.curve state'
        = if (shift =? 0)%float then None
          else Some (curveOf centers shiftedPosition centers)
  end.
Proof.
  intros Hedge Hsource Htarget HsourceShape HtargetShape Hms Hmt Hmargin.
  cbn zeta.
  pose proof (calcEdgeGeometry_present edges id layouts nodeStates
    edgeLayoutPoint isEdgeSummarized l scale state edge source target
    sourceShape targetShape Hedge Hsource Htarget HsourceShape HtargetShape config)
    as Hrun.
  cbn zeta in Hrun. rewrite Hrun. clear Hrun.
  assert (Hmargins : ∀ a b, edgeMargins l config a b = (0, 0)%float).
  { intros a b. unfold edgeMargins, markerMargin. by rewrite Hmargin, Hms, Hmt. }
  rewrite Hmargins. cbn [fst snd].
  destruct (EdgeConfig.type config).
  - done.
  - intros Hfinite.
    rewrite calculateCurvePositionAndState_cases.
    assert (Hzero : (0 * scale =? 0)%float = true) by by apply zero_mul_finite.
    unfold straightPositionAndState, marginsReverseEndpoints.
    rewrite Hzero. cbn [andb].
    by destruct (EdgeLayoutPoint.groupWidth edgeLayoutPoint / 2
                 - EdgeLayoutPoint.pointInGroup edgeLayoutPoint =? 0)%float.
Qed.
End geometry_effect.


(** ** Edge lines along a walk *)

Lemma sort2_inv (a b c d : string) :
  sort2 a b = sort2 c d → (a = c ∧ b = d) ∨ (a = d ∧ b = c).
Proof.
  unfold sort2. destruct (String.ltb b a), (String.ltb d c); intros [= -> ->]; tauto.
Qed.

Lemma _detectDirectionsOfPathEdges_length (edges : list EdgeObject.t) :
  edges ≠ [] → List.length (_detectDirectionsOfPathEdges edges) = List.length edges.
Proof.
  destruct edges as [|e0 [|e1 rest]]; [done|done|]. intros _.
  unfold _detectDirectionsOfPathEdges. cbn [List.length].
  by rewrite detectDirectionsFrom_length.
Qed.

Lemma zip_fst_Forall {A B : Type} (P : A → Prop) (l : list A) (k : list B) :
  List.length l = List.length k → Forall (λ p, P p.1) (zip l k) ↔ Forall P l.
Proof.
  revert k. induction l as [|a l IH]; intros [|b k]; simpl; try done.
  intros [= Hlen]. rewrite !Forall_cons, IH; done.
Qed.

Section edge_lines.
Context `{!V.Ops, !v2d.Ops}.
Context (edgeStates : gmap string EdgeState.t).

Abbreviation lineOfPair :=
  (λ '(edge, direction),
     _getEdgeLine edge direction <$> edgeStates !! EdgeObject.edgeId edge).

Lemma edgeLines_is_Some (edges : list EdgeObject.t) :
  edges ≠ [] →
  is_Some (edgeLines edges edgeStates)
  ↔ Forall (λ e, is_Some (edgeStates !! EdgeObject.edgeId e)) edges.
Proof.
  intros Hedges. unfold edgeLines. rewrite mapM_is_Some.
  rewrite <- (zip_fst_Forall _ edges (_detectDirectionsOfPathEdges edges))
    by by rewrite _detectDirectionsOfPathEdges_length.
  apply Forall_proper; [|done]. intros [e d]. cbn. by rewrite fmap_is_Some.
Qed.

Lemma edgeLines_length (edges : list EdgeObject.t) (lines : list EdgeLine.t) :
  edges ≠ [] → edgeLines edges edgeStates = Some lines → List.length lines = List.length edges.
Proof.
  intros Hedges Hlines. unfold edgeLines in Hlines.
  apply length_mapM in Hlines. rewrite <- Hlines, length_zip.
  rewrite _detectDirectionsOfPathEdges_length by done. lia.
Qed.

Lemma _getEdgeLine_ends (e : EdgeObject.t) (d : bool) (state : EdgeState.t) :
  EdgeLine.edgeId (_getEdgeLine e d state) = EdgeObject.edgeId e
  ∧ EdgeLine.source (_getEdgeLine e d state)
    = (if d then Edge.source (EdgeObject.edge e) else Edge.target (EdgeObject.edge e))
  ∧ EdgeLine.target (_getEdgeLine e d state)
    = (if d then Edge.target (EdgeObject.edge e) else Edge.source (EdgeObject.edge e))
  ∧ (EdgeLine.curve (_getEdgeLine e d state) = None ↔ EdgeState.curve state = None).
Proof.
  unfold _getEdgeLine. destruct d; cbn; [done|].
  repeat split; by destruct (EdgeState.curve state).
Qed.

Lemma lines_of_pairs_cons (e : EdgeObject.t) (d : bool)
    (pairs : list (EdgeObject.t * bool)) (lines : list EdgeLine.t) :
  mapM lineOfPair ((e, d) :: pairs) = Some lines →
  ∃ state rest,
    edgeStates !! EdgeObject.edgeId e = Some state
    ∧ mapM lineOfPair pairs = Some rest
    ∧ lines = _getEdgeLine e d state :: rest.
Proof.
  cbn. destruct (edgeStates !! EdgeObject.edgeId e) as [state|]; [|done]. cbn.
  destruct (mapM _ pairs) as [rest|]; [|done]. cbn.
  intros [= <-]. by eexists _, _.
Qed.

(** An edge line has the geometry of its edge state when its edge is
    stored from the source of the line, and the inverse geometry when it is
    stored from its target. *)
Lemma _getEdgeLine_geometry (e : EdgeObject.t) (d : bool) (state : EdgeState.t) :
  (d = false → Edge.source (EdgeObject.edge e) ≠ Edge.target (EdgeObject.edge e)) →
  let line := _getEdgeLine e d state in
  if bool_decide (Edge.source (EdgeObject.edge e) = EdgeLine.source line)
  then EdgeLine.line line = V.fromLinePosition (EdgeState.origin state)
       ∧ EdgeLine.curve line = EdgeState.curve state
  else EdgeLine.line line = V.fromLinePosition (v2d.inverseLine (EdgeState.origin state))
       ∧ EdgeLine.curve line
         = (λ c, Curve.mk (Curve.center c) (- Curve.theta c)%float
                   (Curve.circle c) (Curve.control c)) <$> EdgeState.curve state.
Proof.
  intros Hloop. cbn zeta. unfold _getEdgeLine. destruct d; cbn.
  - by rewrite bool_decide_eq_true_2.
  - by rewrite bool_decide_eq_false_2 by by apply Hloop.
Qed.

Abbreviation runsFromItsSource :=
  (λ (e : EdgeObject.t) (line : EdgeLine.t),
     ∃ state,
       edgeStates !! EdgeObject.edgeId e = Some state
       ∧ if bool_decide (Edge.source (EdgeObject.edge e) = EdgeLine.source line)
         then EdgeLine.line line = V.fromLinePosition (EdgeState.origin state)
              ∧ EdgeLine.curve line = EdgeState.curve state
         else EdgeLine.line line
              = V.fromLinePosition (v2d.inverseLine (EdgeState.origin state))
              ∧ EdgeLine.curve line
                = (λ c, Curve.mk (Curve.center c) (- Curve.theta c)%float
                          (Curve.circle c) (Curve.control c)) <$> EdgeState.curve state).

Lemma walk_from (edges : list EdgeObject.t) (a : string) (nodes : list string)
    (lines : list EdgeLine.t) :
  isWalk (a :: nodes) edges →
  mapM lineOfPair (zip edges (detectDirectionsFrom (Some a) edges)) = Some lines →
  EdgeLine.source <$> lines = removelast (a :: nodes)
  ∧ EdgeLine.target <$> lines = nodes
  ∧ Forall2 runsFromItsSource edges lines.
Proof.
  revert a nodes lines.
  induction edges as [|e edges IH]; intros a nodes lines Hwalk Hlines.
  - destruct nodes; [|done]. cbn in Hlines. injection Hlines as <-.
    repeat split. constructor.
  - destruct nodes as [|b nodes]; [done|]. destruct Hwalk as [Hjoin Hwalk].
    cbn [detectDirectionsFrom zip zip_with] in Hlines.
    apply lines_of_pairs_cons in Hlines as (state & rest & Hstate & Hrest & ->).
    set (d := bool_decide (Some a = Some (Edge.source (EdgeObject.edge e)))) in *.
    destruct (_getEdgeLine_ends e d state) as (_ & Hs & Ht & _).
    assert (Hd : (if d then Edge.source (EdgeObject.edge e)
                  else Edge.target (EdgeObject.edge e)) = a
                 ∧ (if d then Edge.target (EdgeObject.edge e)
                    else Edge.source (EdgeObject.edge e)) = b
                 ∧ (d = false →
                    Edge.source (EdgeObject.edge e) ≠ Edge.target (EdgeObject.edge e))).
    { unfold d. case_bool_decide as Hsrc.
      - injection Hsrc as Hsrc.
        destruct Hjoin as [[? ?]|[? ?]]; repeat split; congruence.
      - destruct Hjoin as [[? ?]|[? ?]]; [congruence|].
        repeat split; [done..|]. intros _ Heq. apply Hsrc. congruence. }
    destruct Hd as (Hda & Hdb & Hloop). rewrite Hdb in Hrest.
    destruct (IH b nodes rest Hwalk Hrest) as (IHs & IHt & IHg).
    rewrite !fmap_cons, Hs, Ht, Hda, Hdb, IHs, IHt.
    split; [by destruct nodes|]. split; [done|].
    constructor; [|done]. exists state. split; [done|].
    by apply _getEdgeLine_geometry.
Qed.

(** X15. Along a walk of at least two edges that does not come back to
    its first node right after the first two edges, every edge line runs
    in the direction of the walk, however its edge is stored: the line of
    the edge [i] goes from the node [i] of the walk to the node [i + 1], so
    each line starts at the node where the line before it ends; and it
    has the origin line and the curve of the edge state as they are when
    the edge is stored from the node [i], and the inverse of the origin
    line and the curve with its angle negated when the edge is stored from
    the node [i + 1]. *)
Theorem edge_lines_follow_the_walk
    (edges : list EdgeObject.t) (n0 n1 n2 : string) (nodes : list string)
    (lines : list EdgeLine.t) :
  isWalk (n0 :: n1 :: n2 :: nodes) edges →
  n0 ≠ n2 →
  edgeLines edges edgeStates = Some lines →
  EdgeLine.source <$> lines = removelast (n0 :: n1 :: n2 :: nodes)
  ∧ EdgeLine.target <$> lines = n1 :: n2 :: nodes
  ∧ EdgeLine.edgeId <$> lines = EdgeObject.edgeId <$> edges
  ∧ Forall2
      (λ e line,
         ∃ state,
           edgeStates !! EdgeObject.edgeId e = Some state
           ∧ if bool_decide (Edge.source (EdgeObject.edge e) = EdgeLine.source line)
             then EdgeLine.line line = V.fromLinePosition (EdgeState.origin state)
                  ∧ EdgeLine.curve line = EdgeState.curve state
             else EdgeLine.line line
                  = V.fromLinePosition (v2d.inverseLine (EdgeState.origin state))
                  ∧ EdgeLine.curve line
                    = (λ c, Curve.mk (Curve.center c) (- Curve.theta c)%float
                              (Curve.circle c) (Curve.control c))
                      <$> EdgeState.curve state)
      edges lines.
Proof.
  intros Hwalk Hstart Hlines.
  assert (Hids : EdgeLine.edgeId <$> lines = EdgeObject.edgeId <$> edges).
  { clear Hwalk Hstart. unfold edgeLines in Hlines.
    apply mapM_Some in Hlines.
    assert (Hlen : List.length edges ≤ List.length (_detectDirectionsOfPathEdges edges)).
    { destruct edges as [|e es]; [cbn; lia|].
      by rewrite _detectDirectionsOfPathEdges_length. }
    revert Hlen Hlines. generalize (_detectDirectionsOfPathEdges edges).
    revert lines. induction edges as [|e es IH]; intros lines [|d ds] Hlen Hlines.
    - by inversion Hlines.
    - by inversion Hlines.
    - cbn in Hlen. lia.
    - cbn in Hlen, Hlines. inversion Hlines as [|? line ? rest Hline Hrest]; subst.
      rewrite !fmap_cons. f_equal.
      + destruct (edgeStates !! EdgeObject.edgeId e) as [state|]; [|done].
        injection Hline as <-. apply _getEdgeLine_ends.
      + apply (IH rest ds); [lia | done]. }
  cut (EdgeLine.source <$> lines = removelast (n0 :: n1 :: n2 :: nodes)
       ∧ EdgeLine.target <$> lines = n1 :: n2 :: nodes
       ∧ Forall2 runsFromItsSource edges lines); [tauto|]. clear Hids.
  destruct edges as [|e0 [|e1 rest]]; [done|by destruct Hwalk as [_ ?]|].
  destruct Hwalk as [Hjoin0 Hwalk]. pose proof Hwalk as [Hjoin1 _].
  unfold edgeLines, _detectDirectionsOfPathEdges in Hlines.
  unfold joins in Hjoin0, Hjoin1.
  set (source := Edge.source (EdgeObject.edge e0)) in *.
  set (target := Edge.target (EdgeObject.edge e0)) in *.
  set (source1 := Edge.source (EdgeObject.edge e1)) in *.
  set (target1 := Edge.target (EdgeObject.edge e1)) in *.
  assert (Hnot : ¬ (sort2 source target = sort2 source1 target1)).
  { intros Heq%sort2_inv.
    destruct Heq as [[? ?]|[? ?]], Hjoin0 as [[? ?]|[? ?]],
      Hjoin1 as [[? ?]|[? ?]]; congruence. }
  assert (Hfirst : ∀ d : bool,
    d = includes2 source1 target1 target →
    (if d then source else target) = n0 ∧ (if d then target else source) = n1
    ∧ (d = false → source ≠ target)).
  { intros d ->. unfold includes2.
    repeat case_bool_decide; cbn;
      destruct Hjoin0 as [[? ?]|[? ?]], Hjoin1 as [[? ?]|[? ?]];
      repeat split; try congruence; intros _; congruence. }
  match type of Hlines with
  | mapM _ (zip _ (?d :: _)) = _ =>
      assert (Hd : d = includes2 source1 target1 target)
  end.
  { destruct rest as [|e2 rest]; [done|].
    destruct (sort2 source target) as [a0 b0], (sort2 source1 target1) as [a1 b1].
    cbn [fst snd].
    destruct (decide (a0 = a1)) as [->|?], (decide (b0 = b1)) as [->|?];
      [done | rewrite (bool_decide_eq_false_2 (b0 = b1)) by done; by rewrite andb_false_r
       | by rewrite (bool_decide_eq_false_2 (a0 = a1)) by done
       | by rewrite (bool_decide_eq_false_2 (a0 = a1)) by done]. }
  rewrite Hd in Hlines. clear Hd.
  destruct (Hfirst _ eq_refl) as (Hn0 & Hn1 & Hloop).
  cbn [zip zip_with] in Hlines.
  apply lines_of_pairs_cons in Hlines as (state & tail & Hstate & Htail & ->).
  rewrite Hn1 in Htail.
  destruct (walk_from _ _ _ _ Hwalk Htail) as (Hs & Ht & Hg).
  destruct (_getEdgeLine_ends e0 (includes2 source1 target1 target) state)
    as (_ & Hs0 & Ht0 & _).
  fold source target in Hs0, Ht0.
  rewrite !fmap_cons, Hs0, Ht0, Hn0, Hn1, Hs, Ht.
  split; [done|]. split; [done|].
  constructor; [|done]. exists state. split; [done|].
  by apply _getEdgeLine_geometry.
Qed.
End edge_lines.

(** ** The points of a path *)

Lemma leb_zero_not_positive (margin : float) :
  (margin <=? 0)%float = true → (0 <? margin)%float = false.
Proof.
  intros Hle. destruct (0 <? margin)%float eqn:Hlt; [|done].
  apply ltb_leb_asym in Hlt. congruence.
Qed.

Lemma leb_zero_add_zero (margin : float) :
  (margin <=? 0)%float = true → (margin + 0 <=? 0)%float = true.
Proof.
  rewrite !leb_spec, add_spec.
  destruct (Prim2SF margin) as [sign|sign| |sign m e]; try done.
  - by destruct sign.
Qed.

Section path_points.
Context `{!Host, !V.Ops, !v2d.Ops}.
Context (nodeStates : gmap string NodeState.t) (nodeLayouts : gmap string Position)
  (edgeStates : gmap string EdgeState.t) (scale : float).

(** The nodes at the ends of an edge line have a position, a state and a
    shape. *)
Abbreviation endsKnown :=
  (λ line : EdgeLine.t,
     ∀ n, n = EdgeLine.source line ∨ n = EdgeLine.target line →
          is_Some (nodeLayouts !! n) ∧ is_Some (scaledNodeRadius nodeStates n scale)).

Lemma startBlock_total (firstEdge : EdgeLine.t) pathEndType margin :
  endsKnown firstEdge →
  is_Some (startBlock firstEdge nodeStates nodeLayouts scale pathEndType margin).
Proof.
  intros Hends. unfold startBlock.
  destruct (Hends (EdgeLine.source firstEdge)) as [[center Hcenter] [r ->]]; [by left|].
  destruct (Hends (EdgeLine.target firstEdge)) as [_ [r' ->]]; [by right|].
  cbn. destruct (_ <=? 0)%float; cbn; [by eexists|].
  unfold _calculateEdgeOfNode.
  destruct (EdgeLine.curve firstEdge); cbn; [by eexists|].
  unfold V.Vector. rewrite Hcenter. by eexists.
Qed.

Lemma transitStep_total curveInNode (prev next : EdgeLine.t) points :
  endsKnown next →
  is_Some (transitStep nodeStates nodeLayouts scale curveInNode prev next points).
Proof.
  intros Hends. unfold transitStep.
  destruct (Hends (EdgeLine.source next)) as [_ [r ->]]; [by left|]. cbn.
  destruct (calculateTransitPos _ _ _ _ _ _ _ _ _ _) as [[p1 c] p2].
  repeat case_match; by eexists.
Qed.

Lemma transitLoop_total curveInNode (prev : EdgeLine.t) (rest : list EdgeLine.t) points :
  Forall endsKnown rest →
  is_Some (transitLoop nodeStates nodeLayouts scale curveInNode prev rest points).
Proof.
  intros Hrest. revert prev points.
  induction Hrest as [|next rest Hnext _ IH]; intros prev points; cbn; [by eexists|].
  destruct (transitStep_total curveInNode prev next points Hnext) as [points' ->].
  cbn. apply IH.
Qed.

Lemma endBlock_total (lastEdge : EdgeLine.t) pathEndType margin points :
  endsKnown lastEdge → points ≠ [] →
  is_Some (endBlock lastEdge nodeStates nodeLayouts scale pathEndType margin points).
Proof.
  intros Hends Hpoints. unfold endBlock.
  destruct (Hends (EdgeLine.target lastEdge)) as [[center Hcenter] [r ->]]; [by right|].
  destruct (Hends (EdgeLine.source lastEdge)) as [_ [r' ->]]; [by left|].
  apply last_is_Some in Hpoints as [lastPoints HlastPoints].
  cbn [mbind option_bind].
  assert (Hnext : ∃ nextPoint,
    (if (lineMarginOf pathEndType margin r <=? 0)%float
     then Some (V.target (EdgeLine.line lastEdge))
     else _calculateEdgeOfNode lastEdge (lineMarginOf pathEndType margin r)
            nodeLayouts false) = Some nextPoint).
  { destruct (_ <=? 0)%float; [by eexists|].
    unfold _calculateEdgeOfNode.
    destruct (EdgeLine.curve lastEdge); cbn; [by eexists|].
    unfold V.Vector. rewrite Hcenter. by eexists. }
  destruct Hnext as [nextPoint ->]. cbn [mbind option_bind].
  destruct (EdgeLine.curve lastEdge); cbn [mbind option_bind]; [|by eexists].
  rewrite HlastPoints. by eexists.
Qed.

(** X16. If an edge of the path has no edge state, the calculation of the
    points of the path throws. *)
Theorem path_points_throw_without_edge_state
    (pathConfig : PathConfig.t) (path : PathObject.t)
    (curveInNode : bool) (pathEndType : PathEndType) (margin : float)
    (e : EdgeObject.t) :
  e ∈ PathObject.edges path →
  edgeStates !! EdgeObject.edgeId e = None →
  _calculatePathPoints path nodeStates nodeLayouts edgeStates scale
    curveInNode pathEndType margin = None
  ∧ calcPathPoints pathConfig nodeStates nodeLayouts edgeStates scale path = None.
Proof.
  intros Hin Hstate.
  assert (Hedges : PathObject.edges path ≠ []).
  { intros Heq. rewrite Heq in Hin. by apply elem_of_nil in Hin. }
  assert (Hnone : edgeLines (PathObject.edges path) edgeStates = None).
  { destruct (edgeLines _ _) as [lines|] eqn:Hlines; [|done]. exfalso.
    assert (Hsome : is_Some (edgeLines (PathObject.edges path) edgeStates))
      by by rewrite Hlines.
    apply edgeLines_is_Some in Hsome; [|done].
    rewrite Forall_forall in Hsome. destruct (Hsome e Hin) as [state Hsome'].
    congruence. }
  assert (Hcalc : ∀ c p m,
    _calculatePathPoints path nodeStates nodeLayouts edgeStates scale c p m = None).
  { intros c p m. unfold _calculatePathPoints, calculatePathPointsUntrimmed.
    by rewrite Hnone. }
  split; [apply Hcalc|].
  unfold calcPathPoints. rewrite bool_decide_eq_false_2; [apply Hcalc|].
  by destruct (PathObject.edges path).
Qed.

Lemma edgeLines_Forall (P : EdgeObject.t → Prop) (Q : EdgeLine.t → Prop)
    (edges : list EdgeObject.t) (lines : list EdgeLine.t) :
  edgeLines edges edgeStates = Some lines →
  (∀ e d state, e ∈ edges → edgeStates !! EdgeObject.edgeId e = Some state →
                P e → Q (_getEdgeLine e d state)) →
  Forall P edges → Forall Q lines.
Proof.
  intros Hlines HPQ HP. unfold edgeLines in Hlines. apply mapM_Some in Hlines.
  eapply Forall2_Forall_r; [exact Hlines|].
  apply Forall_forall. intros [e d] Hin line Hline.
  apply elem_of_zip_l in Hin.
  destruct (edgeStates !! EdgeObject.edgeId e) as [state|] eqn:Hstate; [|done].
  injection Hline as <-. apply HPQ; [done..|].
  rewrite Forall_forall in HP. by apply HP.
Qed.

Lemma _calculatePathPoints_total
    (path : PathObject.t)
    (curveInNode : bool) (pathEndType : PathEndType) (margin : float) :
  PathObject.edges path ≠ [] →
  Forall
    (λ e, is_Some (edgeStates !! EdgeObject.edgeId e)
          ∧ ∀ n, n = Edge.source (EdgeObject.edge e) ∨ n = Edge.target (EdgeObject.edge e) →
                 is_Some (nodeLayouts !! n)
                 ∧ ∃ state, nodeStates !! n = Some state
                            ∧ is_Some (NodeState.shape state))
    (PathObject.edges path) →
  is_Some (_calculatePathPoints path nodeStates nodeLayouts edgeStates scale
             curveInNode pathEndType margin).
Proof.
  intros Hedges Hknown.
  destruct (proj2 (edgeLines_is_Some edgeStates _ Hedges)) as [lines Hlines].
  { eapply Forall_impl; [exact Hknown|]. by intros e [? _]. }
  assert (Hends : Forall endsKnown lines).
  { eapply edgeLines_Forall; [exact Hlines| |exact Hknown].
    intros e d state _ _ [_ Hnodes] n Hn.
    destruct (_getEdgeLine_ends e d state) as (_ & Hs & Ht & _).
    rewrite Hs, Ht in Hn.
    destruct (Hnodes n) as [Hcenter (nodeState & HnodeState & [shape Hshape])].
    { destruct d, Hn; auto. }
    split; [done|]. unfold scaledNodeRadius. rewrite HnodeState. cbn.
    rewrite Hshape. by eexists. }
  pose proof (edgeLines_length edgeStates _ _ Hedges Hlines) as Hlen.
  destruct lines as [|firstEdge rest].
  { destruct (PathObject.edges path); done. }
  unfold _calculatePathPoints, calculatePathPointsUntrimmed.
  rewrite Hlines. cbn [mbind option_bind head tail].
  apply Forall_cons in Hends as Hends'. destruct Hends' as [Hfirst Hrest].
  destruct (startBlock_total firstEdge pathEndType margin Hfirst)
    as [[nextPoint startFlag] ->].
  cbn [mbind option_bind].
  destruct (transitLoop_total curveInNode firstEdge rest [Point nextPoint] Hrest)
    as [points Hloop].
  rewrite Hloop. cbn [mbind option_bind].
  destruct (proj2 (last_is_Some (firstEdge :: rest))) as [lastEdge Hlast]; [done|].
  rewrite Hlast. cbn [mbind option_bind].
  apply last_Some_elem_of in Hlast.
  rewrite Forall_forall in Hends. specialize (Hends lastEdge Hlast).
  apply transitLoop_extends in Hloop as [pushed ->].
  destruct (endBlock_total lastEdge pathEndType margin
              ([Point nextPoint] ++ pushed) Hends) as [[points' endFlag] ->]; [done|].
  cbn [mbind option_bind]. by eexists.
Qed.

(** X17. If the path has an edge, every edge of the path has an edge
    state and every node at an end of one of its edges has a position and
    a node state with a shape, the points of the path are computed: the
    calculation does not throw. *)
Theorem path_points_are_computed
    (path : PathObject.t)
    (curveInNode : bool) (pathEndType : PathEndType) (margin : float) :
  PathObject.edges path ≠ [] →
  Forall
    (λ e, is_Some (edgeStates !! EdgeObject.edgeId e)
          ∧ ∀ n, n = Edge.source (EdgeObject.edge e) ∨ n = Edge.target (EdgeObject.edge e) →
                 is_Some (nodeLayouts !! n)
                 ∧ ∃ state, nodeStates !! n = Some state
                            ∧ is_Some (NodeState.shape state))
    (PathObject.edges path) →
  is_Some (_calculatePathPoints path nodeStates nodeLayouts edgeStates scale
             curveInNode pathEndType margin).
Proof. apply _calculatePathPoints_total. Qed.

(** X25. If every edge of the edge map has an edge state and the nodes
    at its two ends have a position and a node state with a shape, every
    entry of the renderable path list whose identifiers are all keys of
    the edge map is a path object, with the edge of each identifier, that
    is drawn: the calculation of its points does not throw. *)
Theorem listed_paths_are_drawn
    (pathConfig : PathConfig.t) (paths : list Path.t) (edgeMap : gmap string Edge.t)
    (entry : ListedPath.t) :
  (∀ id edge, edgeMap !! id = Some edge →
     is_Some (edgeStates !! id)
     ∧ ∀ n, n = Edge.source edge ∨ n = Edge.target edge →
            is_Some (nodeLayouts !! n)
            ∧ ∃ state, nodeStates !! n = Some state ∧ is_Some (NodeState.shape state)) →
  entry ∈ pathList paths edgeMap →
  Forall (λ edgeId, is_Some (edgeMap !! edgeId)) (Path.edges (ListedPath.path entry)) →
  ∃ po,
    asPathObject entry = Some po
    ∧ PathObject.path po = ListedPath.path entry
    ∧ Forall2 (λ edgeId eo,
                 EdgeObject.edgeId eo = edgeId
                 ∧ edgeMap !! edgeId = Some (EdgeObject.edge eo))
        (Path.edges (ListedPath.path entry)) (PathObject.edges po)
    ∧ is_Some (calcPathPoints pathConfig nodeStates nodeLayouts edgeStates scale po).
Proof.
  intros Hcover (_ & _ & Hedges)%pathList_entries Hresolves.
  destruct entry as [path listed]. simpl in *. subst listed.
  destruct (asPathObject_found edgeMap path Hresolves) as (edges & Hpo & Hall).
  exists (PathObject.mk path edges). split; [done|]. split; [done|]. split; [done|].
  unfold calcPathPoints. cbn [PathObject.edges PathObject.path].
  case_bool_decide as Hempty; [by eexists|].
  apply _calculatePathPoints_total; [by destruct edges|].
  cbn [PathObject.edges].
  eapply Forall2_Forall_r; [exact Hall|].
  apply Forall_forall. intros id _ eo [Hid Hedge].
  rewrite Hid. by apply Hcover.
Qed.
End path_points.

Lemma sub_self_cases (a : float) :
  Prim2SF (a - a) = S754_nan ∨ ∃ sign, Prim2SF (a - a) = S754_zero sign.
Proof.
  rewrite sub_spec. unfold SF64sub.
  destruct (Prim2SF a) as [sign|sign| |sign m e]; cbn.
  - right. destruct sign; by eexists.
  - left. by destruct sign.
  - by left.
  - right. unfold shl_align.
    change IntDef.Z.min with Z.min. change IntDef.Z.sub with Z.sub.
    rewrite Z.sub_diag. by eexists.
Qed.

Lemma div_by_zero_not_finite (a b : float) :
  (Prim2SF b = S754_nan ∨ ∃ sign, Prim2SF b = S754_zero sign) →
  Math.isFinite (a / b) = false.
Proof.
  intros Hb. unfold Math.isFinite, Math.abs.
  rewrite ltb_spec, abs_spec, div_spec. unfold SF64div.
  destruct Hb as [->|[sign ->]]; destruct (Prim2SF a) as [sa|sa| |sa ma ea]; done.
Qed.

Lemma sub_self_finite (a : float) :
  Math.isFinite a = true → (PrimFloat.abs (a - a) <? EPSILON)%float = true.
Proof.
  intros Hfinite. rewrite ltb_spec, abs_spec, sub_spec. unfold SF64sub.
  destruct (isFinite_cases a Hfinite) as [[sign ->]|(sign & m & e & ->)].
  - by destruct sign.
  - cbn. unfold shl_align.
    change IntDef.Z.min with Z.min. change IntDef.Z.sub with Z.sub.
    by rewrite Z.sub_diag.
Qed.

Section path_shape.
Context `{!V.Ops, !v2d.Ops}.
Context (nodeStates : gmap string NodeState.t) (nodeLayouts : gmap string Position)
  (edgeStates : gmap string EdgeState.t) (scale : float).

(** The stages of a run of [_calculatePathPoints] that returns. *)
Lemma _calculatePathPoints_Some (path : PathObject.t)
    curveInNode pathEndType margin (points : list PointItem) :
  _calculatePathPoints path nodeStates nodeLayouts edgeStates scale
    curveInNode pathEndType margin = Some points →
  ∃ firstEdge rest lastEdge start startFlag middle final endFlag,
    edgeLines (PathObject.edges path) edgeStates = Some (firstEdge :: rest)
    ∧ last (firstEdge :: rest) = Some lastEdge
    ∧ List.length (PathObject.edges path) = S (List.length rest)
    ∧ startBlock firstEdge nodeStates nodeLayouts scale pathEndType margin
      = Some (start, startFlag)
    ∧ transitLoop nodeStates nodeLayouts scale curveInNode firstEdge rest [Point start]
      = Some (Point start :: middle)
    ∧ endBlock lastEdge nodeStates nodeLayouts scale pathEndType margin
        (Point start :: middle)
      = Some (Point start :: middle ++ [final], endFlag)
    ∧ points = trimOverrun startFlag endFlag (Point start :: middle ++ [final]).
Proof.
  unfold _calculatePathPoints, calculatePathPointsUntrimmed. intros Hrun.
  destruct (edgeLines _ _) as [lines|] eqn:Hlines; [|done].
  cbn [mbind option_bind] in Hrun.
  destruct lines as [|firstEdge rest]; [done|].
  cbn [mbind option_bind head tail] in Hrun.
  destruct (startBlock _ _ _ _ _ _) as [[start startFlag]|] eqn:Hstart; [|done].
  cbn [mbind option_bind] in Hrun.
  destruct (transitLoop _ _ _ _ _ _ _) as [points1|] eqn:Hloop; [|done].
  cbn [mbind option_bind] in Hrun.
  destruct (last (firstEdge :: rest)) as [lastEdge|] eqn:Hlast; [|done].
  cbn [mbind option_bind] in Hrun.
  destruct (endBlock _ _ _ _ _ _ _) as [[points2 endFlag]|] eqn:Hend; [|done].
  cbn [mbind option_bind] in Hrun. injection Hrun as <-.
  pose proof Hloop as [middle ->]%transitLoop_extends.
  pose proof Hend as [final ->]%endBlock_extends.
  exists firstEdge, rest, lastEdge, start, startFlag, middle, final, endFlag.
  repeat split; try done.
  assert (Hedges : PathObject.edges path ≠ []).
  { intros Heq. rewrite Heq in Hlines. done. }
  by rewrite <- (edgeLines_length edgeStates _ _ Hedges Hlines).
Qed.

Lemma no_overrun_without_margin (margin lineMargin nodeRadius : float) (line : V.Line) :
  (0 <? margin)%float = false → isMarginOverRun margin lineMargin nodeRadius line = false.
Proof. unfold isMarginOverRun. by intros ->. Qed.

Lemma _calculatePathPoints_untrimmed (path : PathObject.t)
    curveInNode pathEndType margin (points : list PointItem) :
  (0 <? margin)%float = false →
  _calculatePathPoints path nodeStates nodeLayouts edgeStates scale
    curveInNode pathEndType margin = Some points →
  ∃ firstEdge rest lastEdge start startFlag middle final endFlag,
    edgeLines (PathObject.edges path) edgeStates = Some (firstEdge :: rest)
    ∧ last (firstEdge :: rest) = Some lastEdge
    ∧ List.length (PathObject.edges path) = S (List.length rest)
    ∧ startBlock firstEdge nodeStates nodeLayouts scale pathEndType margin
      = Some (start, startFlag)
    ∧ transitLoop nodeStates nodeLayouts scale curveInNode firstEdge rest [Point start]
      = Some (Point start :: middle)
    ∧ endBlock lastEdge nodeStates nodeLayouts scale pathEndType margin
        (Point start :: middle)
      = Some (Point start :: middle ++ [final], endFlag)
    ∧ points = Point start :: middle ++ [final].
Proof.
  intros Hmargin Hrun.
  apply _calculatePathPoints_Some in Hrun
    as (firstEdge & rest & lastEdge & start & startFlag & middle & final & endFlag
        & Hlines & Hlast & Hlen & Hstart & Hloop & Hend & ->).
  exists firstEdge, rest, lastEdge, start, startFlag, middle, final, endFlag.
  repeat split; try done.
  destruct (startBlock_flag _ _ _ _ _ _ _ _ Hstart) as (r1 & r2 & _ & _ & ->).
  destruct (endBlock_flag _ _ _ _ _ _ _ _ _ Hend) as (r3 & r4 & _ & _ & ->).
  by rewrite !no_overrun_without_margin.
Qed.

Lemma transitLoop_curveInNode (prev : EdgeLine.t) (rest : list EdgeLine.t)
    (points points' : list PointItem) :
  points ≠ [] →
  transitLoop nodeStates nodeLayouts scale true prev rest points = Some points' →
  ∃ pushed, points' = points ++ pushed ∧ List.length pushed = List.length rest
            ∧ Forall (λ item, isPoint item = false) pushed.
Proof.
  revert prev points points'.
  induction rest as [|next rest IH]; intros prev points points' Hpoints; cbn.
  - intros [= <-]. exists []. by rewrite app_nil_r.
  - destruct (transitStep _ _ _ _ _ _ _) as [points1|] eqn:Hstep; [|done].
    cbn [mbind option_bind]. intros Hloop.
    assert (Hpushed : ∃ leading lastp, points1 = points ++ [Points leading lastp]).
    { unfold transitStep in Hstep.
      destruct (scaledNodeRadius _ _ _); [|done]. cbn [mbind option_bind] in Hstep.
      destruct (calculateTransitPos _ _ _ _ _ _ _ _ _ _) as [[p1 c] p2].
      apply last_is_Some in Hpoints as [lastPoints HlastPoints].
      rewrite HlastPoints in Hstep.
      destruct (EdgeLine.curve prev); injection Hstep as <-; by eexists _, _. }
    destruct Hpushed as (leading & lastp & ->).
    apply IH in Hloop as (pushed & -> & Hlen & Hshape); [|by destruct points].
    exists (Points leading lastp :: pushed).
    rewrite <- app_assoc. cbn. rewrite Hlen. repeat split. by constructor.
Qed.

Lemma transitLoop_straight (prev : EdgeLine.t) (rest : list EdgeLine.t)
    (points points' : list PointItem) :
  EdgeLine.curve prev = None →
  Forall (λ line, EdgeLine.curve line = None) rest →
  transitLoop nodeStates nodeLayouts scale false prev rest points = Some points' →
  ∃ pushed, points' = points ++ pushed ∧ List.length pushed = 2 * List.length rest
            ∧ Forall (λ item, isPoint item = true) pushed.
Proof.
  intros Hprev Hrest. revert prev points points' Hprev.
  induction Hrest as [|next rest Hnext _ IH]; intros prev points points' Hprev; cbn.
  - intros [= <-]. exists []. by rewrite app_nil_r.
  - destruct (transitStep _ _ _ _ _ _ _) as [points1|] eqn:Hstep; [|done].
    cbn [mbind option_bind]. intros Hloop.
    assert (Hpushed : ∃ p1 p2, points1 = points ++ [Point p1; Point p2]).
    { unfold transitStep in Hstep.
      destruct (scaledNodeRadius _ _ _); [|done]. cbn [mbind option_bind] in Hstep.
      destruct (calculateTransitPos _ _ _ _ _ _ _ _ _ _) as [[p1 c] p2].
      rewrite Hprev, Hnext in Hstep. injection Hstep as <-. by eexists _, _. }
    destruct Hpushed as (p1 & p2 & ->).
    apply IH in Hloop as (pushed & -> & Hlen & Hshape); [|done].
    exists (Point p1 :: Point p2 :: pushed).
    rewrite <- app_assoc. cbn. rewrite Hlen. repeat split; [lia|].
    by repeat constructor.
Qed.

Lemma endBlock_straight (lastEdge : EdgeLine.t) pathEndType margin
    (points points' : list PointItem) (flag : bool) :
  EdgeLine.curve lastEdge = None →
  endBlock lastEdge nodeStates nodeLayouts scale pathEndType margin points
  = Some (points', flag) →
  ∃ p, points' = points ++ [Point p].
Proof.
  intros Hcurve. unfold endBlock. rewrite Hcurve.
  destruct (scaledNodeRadius _ (EdgeLine.target _) _); [|done].
  cbn [mbind option_bind].
  destruct (if (_ <=? 0)%float then _ else _) as [nextPoint|]; [|done].
  cbn [mbind option_bind].
  destruct (scaledNodeRadius _ (EdgeLine.source _) _); [|done].
  cbn [mbind option_bind]. intros [= <- _]. by eexists.
Qed.

(** X18. With [curveInNode] and a margin that is not positive, the points
    of a path are one single point, then one array of points for each
    node the path passes through, then one final entry: one entry more
    than the path has edges. *)
Theorem path_points_with_curves_in_nodes
    (path : PathObject.t) (pathEndType : PathEndType) (margin : float)
    (points : list PointItem) :
  (0 <? margin)%float = false →
  _calculatePathPoints path nodeStates nodeLayouts edgeStates scale
    true pathEndType margin = Some points →
  ∃ start middle final,
    points = Point start :: middle ++ [final]
    ∧ S (List.length middle) = List.length (PathObject.edges path)
    ∧ Forall (λ item, isPoint item = false) middle.
Proof.
  intros Hmargin Hrun.
  apply _calculatePathPoints_untrimmed in Hrun
    as (firstEdge & rest & lastEdge & start & startFlag & middle & final & endFlag
        & Hlines & Hlast & Hlen & Hstart & Hloop & Hend & ->); [|done].
  exists start, middle, final. split; [done|].
  apply transitLoop_curveInNode in Hloop as (pushed & Heq & Hpushed & Hshape); [|done].
  injection Heq as ->. by rewrite Hlen, Hpushed.
Qed.

(** X19. Without [curveInNode] and with a margin that is not positive, the
    points of a path whose edges are all straight are single points, two
    for each edge: the point where the path enters the edge and the point
    where it leaves it. *)
Theorem straight_path_points_come_in_pairs
    (path : PathObject.t) (pathEndType : PathEndType) (margin : float)
    (points : list PointItem) :
  (0 <? margin)%float = false →
  Forall
    (λ e, ∀ state, edgeStates !! EdgeObject.edgeId e = Some state →
                   EdgeState.curve state = None)
    (PathObject.edges path) →
  _calculatePathPoints path nodeStates nodeLayouts edgeStates scale
    false pathEndType margin = Some points →
  List.length points = 2 * List.length (PathObject.edges path)
  ∧ Forall (λ item, isPoint item = true) points.
Proof.
  intros Hmargin Hstraight Hrun.
  apply _calculatePathPoints_untrimmed in Hrun
    as (firstEdge & rest & lastEdge & start & startFlag & middle & final & endFlag
        & Hlines & Hlast & Hlen & Hstart & Hloop & Hend & ->); [|done].
  assert (Hcurves : Forall (λ line, EdgeLine.curve line = None) (firstEdge :: rest)).
  { eapply edgeLines_Forall; [exact Hlines| |exact Hstraight].
    intros e d state _ Hstate Hcurve.
    apply _getEdgeLine_ends. by apply Hcurve. }
  pose proof Hcurves as [Hfirst Hrest]%Forall_cons.
  apply transitLoop_straight in Hloop as (pushed & Heq & Hpushed & Hshape); [|done..].
  injection Heq as ->.
  assert (Hfinal : ∃ p, final = Point p).
  { rewrite Forall_forall in Hcurves.
    specialize (Hcurves lastEdge (last_Some_elem_of _ _ Hlast)).
    apply endBlock_straight in Hend as [p Heq]; [|done].
    rewrite (app_comm_cons _ _ (Point start)) in Heq.
    apply app_inj_tail in Heq as [_ ->]. by eexists. }
  destruct Hfinal as [p ->]. split.
  - cbn. rewrite length_app, Hpushed, Hlen. cbn. lia.
  - constructor; [done|]. apply Forall_app. split; [done|]. by repeat constructor.
Qed.

(** X20. When the path ends at the centers of the nodes and the margin is
    not positive, the points of the path begin with the source end of the
    first edge line, as a single point, and end at the target end of the
    last edge line. *)
Theorem path_runs_between_the_ends_of_its_edge_lines
    (path : PathObject.t) (curveInNode : bool) (margin : float)
    (points : list PointItem) :
  (margin <=? 0)%float = true →
  _calculatePathPoints path nodeStates nodeLayouts edgeStates scale
    curveInNode centerOfNode margin = Some points →
  ∃ lines firstEdge lastEdge,
    edgeLines (PathObject.edges path) edgeStates = Some lines
    ∧ head lines = Some firstEdge ∧ last lines = Some lastEdge
    ∧ head points = Some (Point (V.source (EdgeLine.line firstEdge)))
    ∧ lastPointOf <$> last points = Some (V.target (EdgeLine.line lastEdge)).
Proof.
  intros Hmargin Hrun.
  pose proof (leb_zero_add_zero margin Hmargin) as HlineMargin.
  apply _calculatePathPoints_untrimmed in Hrun
    as (firstEdge & rest & lastEdge & start & startFlag & middle & final & endFlag
        & Hlines & Hlast & Hlen & Hstart & Hloop & Hend & ->);
    [|by apply leb_zero_not_positive].
  exists (firstEdge :: rest), firstEdge, lastEdge.
  split; [done|]. split; [done|]. split; [done|]. split.
  - unfold startBlock, lineMarginOf in Hstart.
    destruct (scaledNodeRadius _ (EdgeLine.source _) _); [|done].
    cbn [mbind option_bind] in Hstart. rewrite HlineMargin in Hstart.
    cbn [mbind option_bind] in Hstart.
    destruct (scaledNodeRadius _ (EdgeLine.target _) _); [|done].
    cbn [mbind option_bind] in Hstart. by injection Hstart as <- _.
  - rewrite (app_comm_cons _ _ (Point start)), last_snoc. cbn. f_equal.
    unfold endBlock, lineMarginOf in Hend.
    destruct (scaledNodeRadius _ (EdgeLine.target _) _); [|done].
    cbn [mbind option_bind] in Hend. rewrite HlineMargin in Hend.
    cbn [mbind option_bind] in Hend.
    destruct (scaledNodeRadius _ (EdgeLine.source _) _); [|done].
    cbn [mbind option_bind] in Hend.
    destruct (EdgeLine.curve lastEdge); cbn [mbind option_bind] in Hend.
    + destruct (last (Point start :: middle)); [|done].
      cbn [mbind option_bind] in Hend. injection Hend as Heq _.
      by apply app_inj_tail in Heq as [_ <-].
    + injection Hend as Heq _.
      by apply app_inj_tail in Heq as [_ <-].
Qed.

(** X21. The transit points of a node are never invented: the incoming
    one is the crossing of the previous edge line with the inner circle or
    with the node circle, or the target end of that line; the outgoing one
    likewise, with the next edge line and its source end.  The control
    point is the crossing point of the two lines when there is one and its
    distance from the node center is less than the inner radius or at most
    the node radius, and the node center otherwise. *)
Theorem transit_points_are_crossings_or_line_ends
    (prev next : EdgeLine.t) (nodePos : V.Vector) (crossPoint : option V.Vector)
    (nodeRadius nodeCoreRadius : float)
    (prevCoreIp nextCoreIp prevNodeIp nextNodeIp : option V.Vector) :
  let pos :=
    calculateTransitPos prev next nodePos crossPoint nodeRadius nodeCoreRadius
      prevCoreIp nextCoreIp prevNodeIp nextNodeIp in
  (Some pos.1.1 = prevCoreIp ∨ Some pos.1.1 = prevNodeIp
   ∨ pos.1.1 = V.target (EdgeLine.line prev))
  ∧ pos.1.2
    = match crossPoint with
      | Some crossPoint =>
          let d := V.calculateDistance crossPoint nodePos in
          if (d <? nodeCoreRadius)%float || (d <=? nodeRadius)%float then crossPoint
          else nodePos
      | None => nodePos
      end
  ∧ (Some pos.2 = nextCoreIp ∨ Some pos.2 = nextNodeIp
     ∨ pos.2 = V.source (EdgeLine.line next)).
Proof.
  cbn zeta. unfold calculateTransitPos, findFirstNonNull.
  destruct crossPoint as [crossPoint|];
    [destruct (_ <? nodeCoreRadius)%float; [|destruct (_ <=? nodeRadius)%float]|];
    destruct prevCoreIp, nextCoreIp, prevNodeIp, nextNodeIp; cbn;
    repeat case_match; cbn; tauto.
Qed.

(** X22. Two straight edge lines that are both vertical, or that have
    the same slope, are taken as parallel: no crossing point is computed
    for them, whatever the coordinates are. *)
Theorem parallel_straight_lines_do_not_cross
    (prev next : EdgeLine.t) (nodePos : V.Vector) :
  EdgeLine.curve prev = None →
  EdgeLine.curve next = None →
  (x (V.target (EdgeLine.line prev)) = x (V.source (EdgeLine.line prev))
   ∧ x (V.target (EdgeLine.line next)) = x (V.source (EdgeLine.line next)))
  ∨ _getSlope (EdgeLine.line prev) = _getSlope (EdgeLine.line next) →
  _getIntersectionOfLines prev next nodePos = None.
Proof.
  intros Hprev Hnext Hparallel. unfold _getIntersectionOfLines.
  rewrite Hprev, Hnext.
  destruct Hparallel as [[Hxp Hxn]|Hslope].
  - unfold _getSlope. rewrite Hxp, Hxn.
    rewrite !div_by_zero_not_finite by apply sub_self_cases. done.
  - rewrite Hslope. unfold Math.abs.
    destruct (Math.isFinite (_getSlope (EdgeLine.line next))) eqn:Hfinite; [|done].
    by rewrite sub_self_finite.
Qed.
End path_shape.

(** ** The further properties on concrete graphs *)

(** The selection moves from [A] to [B]: the flags follow. *)
Lemma flag_watchers_keep_flags_in_step_witness :
  mirrors NodeState.selected ["A"] Scene.flaggedStates
  ∧ mirrors NodeState.selected ["B"]
      (watchSelectedNodes ["B"] ["A"] Scene.flaggedStates).
Proof.
  assert (Hbefore : mirrors NodeState.selected ["A"] Scene.flaggedStates).
  { intros id state. unfold Scene.flaggedStates.
    rewrite lookup_insert_Some, lookup_singleton_Some.
    intros [[<- <-]|[_ [<- <-]]]; vm_compute; reflexivity. }
  split; [exact Hbefore|].
  destruct (flag_watchers_keep_flags_in_step ["B"] ["A"] Scene.flaggedStates ∅)
    as (Hselected & _).
  exact (Hselected Hbefore).
Defined.




(** An edge [ghost] that never had a state leaves. *)
Lemma edge_id_watcher_throws_without_state_witness :
  watchEdgeIds Scene.inputs Scene.newEdges Sample.layouts Sample.nodeStates
    {[ "new" ]} {[ "old"; "ghost" ]} Scene.edgeWorld = None.
Proof.
  apply (edge_id_watcher_throws_without_state Scene.inputs Scene.newEdges
           Sample.layouts Sample.nodeStates {[ "new" ]} {[ "old"; "ghost" ]}
           Scene.edgeWorld "ghost").
  - apply (bool_decide_unpack _). vm_compute. exact I.
  - apply (bool_decide_unpack _). vm_compute. exact I.
  - vm_compute. reflexivity.
Defined.

(** The label text named by a literal key is read from the node; with
    the literal [toString], of which the node has no property, it is the
    member of [Object.prototype] of that name. *)
Lemma label_text_of_present_node_witness :
  createNodeState.labelText {[ "n" := Scene.namedNode ]} "n" Scene.textByKey
    Sample.staleLabelText
  = Normal (Some (Str "Alice"))
  ∧ createNodeState.labelText {[ "n" := Scene.namedNode ]} "n"
      (Sample.nodeConfig (Literal "toString")) Sample.staleLabelText
    = Normal (Some (HostValue ["toString"])).
Proof.
  split.
  - rewrite (label_text_of_present_node {[ "n" := Scene.namedNode ]} "n" Scene.textByKey
               Sample.staleLabelText Scene.namedNode).
    + vm_compute. reflexivity.
    + vm_compute. reflexivity.
  - rewrite (label_text_of_present_node {[ "n" := Scene.namedNode ]} "n"
               (Sample.nodeConfig (Literal "toString"))
               Sample.staleLabelText Scene.namedNode).
    + vm_compute. reflexivity.
    + vm_compute. reflexivity.
Defined.

(** No node is called [constructor], yet the getters of a state made
    for that identifier see a node: the shape is the configured one, not
    the cached one, and the label text is read from the member. *)
Lemma getters_recompute_on_inherited_member_witness :
  createNodeState.shape ∅ "constructor" Scene.textByKey (Sample.nodeState 1)
  = Some (Sample.circleShape 16)
  ∧ createNodeState.labelText ∅ "constructor" Scene.textByKey (Sample.nodeState 1)
    = Normal (Some (HostValue ["constructor"; "name"])).
Proof.
  destruct (getters_recompute_on_inherited_member ∅ "constructor" Scene.textByKey
              (Sample.nodeState 1))
    as (Hshape & _ & _ & _ & _ & HlabelText); [vm_compute; reflexivity..|].
  split; [rewrite Hshape | rewrite HlabelText]; vm_compute; reflexivity.
Defined.

(** No hover style and no selected style are configured. *)
Lemma shape_of_present_node_witness :
  createNodeState.shape {[ "n" := Scene.namedNode ]} "n" Scene.textByKey
    (setNodeHovered true Sample.staleLabelText)
  = Some (Sample.circleShape 16).
Proof.
  destruct (shape_of_present_node {[ "n" := Scene.namedNode ]} "n" Scene.textByKey
              (setNodeHovered true Sample.staleLabelText) Scene.namedNode)
    as [Hshape Hstatic]; [vm_compute; reflexivity|].
  rewrite Hshape by (right; reflexivity).
  rewrite Hstatic by (right; reflexivity).
  vm_compute. reflexivity.
Defined.

(** A state that was drawn elsewhere comes out as a fresh one does. *)
Lemma geometry_effect_keeps_flags_and_forgets_geometry_witness :
  calcEdgeGeometry Sample.edges "e1" Sample.layouts Sample.nodeStates
    Sample.firstOfTwo false Sample.plainLine Sample.curveConfig 1
    (Sample.straightEdgeState (mkLinePosition 1 2 3 4))
  = calcEdgeGeometry Sample.edges "e1" Sample.layouts Sample.nodeStates
      Sample.firstOfTwo false Sample.plainLine Sample.curveConfig 1
      (initialEdgeState false).
Proof.
  destruct (geometry_effect_keeps_flags_and_forgets_geometry
              Sample.edges "e1" Sample.layouts Sample.nodeStates
              Sample.firstOfTwo false Sample.plainLine Sample.curveConfig 1
              (initialEdgeState false)
              (Sample.straightEdgeState (mkLinePosition 1 2 3 4)))
    as (_ & _ & _ & Hsame).
  apply Hsame; [|reflexivity..].
  intros [Hedge|(edge & Hedge & Hmissing)]; [vm_compute in Hedge; discriminate|].
  vm_compute in Hedge. injection Hedge as <-.
  destruct Hmissing as [Hm|[Hm|[Hm|Hm]]]; vm_compute in Hm; discriminate.
Defined.

(** The straight edge [e1] without markers. *)
Lemma edge_without_markers_or_margin_joins_centers_witness :
  EdgeState.position
    (calcEdgeGeometry Sample.edges "e1" Sample.layouts Sample.nodeStates
       Sample.firstOfTwo false Sample.plainLine Sample.straightConfig 1
       (initialEdgeState false))
  = Sample.shiftedAB.
Proof.
  pose proof (edge_without_markers_or_margin_joins_centers
                Sample.edges "e1" Sample.layouts Sample.nodeStates
                Sample.firstOfTwo false Sample.plainLine Sample.straightConfig 1
                (initialEdgeState false) (Edge.mk "A" "B")
                (mkPosition 0 0) (mkPosition 10 0)
                (Sample.circleShape 1) (Sample.circleShape 1)
                eq_refl eq_refl eq_refl eq_refl eq_refl eq_refl eq_refl eq_refl)
    as Hjoins.
  cbn in Hjoins. destruct Hjoins as (_ & Hposition & _). exact Hposition.
Defined.

(** The triangle walk [A - B - C - A], whose first and last edges are
    stored against the walk: their lines are the inverses of the origin
    lines of their states, the line of the second edge is the origin line
    of its state. *)
Lemma edge_lines_follow_the_walk_witness :
  ∃ lines,
    edgeLines Scene.triangle Scene.triangleStates = Some lines
    ∧ EdgeLine.source <$> lines = ["A"; "B"; "C"]
    ∧ EdgeLine.target <$> lines = ["B"; "C"; "A"]
    ∧ EdgeLine.line <$> lines
      = [fromLinePosition (inverseLine (mkLinePosition 50 0 0 0));
         fromLinePosition (mkLinePosition 50 0 50 50);
         fromLinePosition (inverseLine (mkLinePosition 0 0 50 50))].
Proof.
  destruct (edgeLines Scene.triangle Scene.triangleStates) as [lines|] eqn:Hlines;
    [|vm_compute in Hlines; discriminate].
  exists lines. split; [reflexivity|].
  destruct (edge_lines_follow_the_walk Scene.triangleStates Scene.triangle
              "A" "B" "C" ["A"] lines) as (Hsources & Htargets & _ & Hgeometry).
  - cbn. unfold joins. cbn. tauto.
  - discriminate.
  - exact Hlines.
  - split; [exact Hsources|]. split; [exact Htargets|].
    destruct lines as [|l0 [|l1 [|l2 [|l3 lines]]]]; try discriminate Hsources.
    injection Hsources as Hs0 Hs1 Hs2.
    apply Forall2_cons in Hgeometry
      as [(state0 & Hstate0 & Hline0) Hgeometry].
    apply Forall2_cons in Hgeometry
      as [(state1 & Hstate1 & Hline1) Hgeometry].
    apply Forall2_cons in Hgeometry
      as [(state2 & Hstate2 & Hline2) _].
    vm_compute in Hstate0. injection Hstate0 as <-.
    vm_compute in Hstate1. injection Hstate1 as <-.
    vm_compute in Hstate2. injection Hstate2 as <-.
    rewrite Hs0 in Hline0. rewrite Hs1 in Hline1. rewrite Hs2 in Hline2.
    destruct Hline0 as [Hline0 _], Hline1 as [Hline1 _], Hline2 as [Hline2 _].
    rewrite !fmap_cons, Hline0, Hline1, Hline2. reflexivity.
Defined.

(** The chain without the state of its second edge. *)
Lemma path_points_throw_without_edge_state_witness :
  _calculatePathPoints Sample.chain Sample.chainNodeStates Sample.chainLayouts
    (delete "c2" Sample.chainEdgeStates) 1 false centerOfNode 0 = None.
Proof.
  apply (path_points_throw_without_edge_state
           Sample.chainNodeStates Sample.chainLayouts
           (delete "c2" Sample.chainEdgeStates) 1
           (PathConfig.mk false centerOfNode (Literal 0%float)) Sample.chain
           false centerOfNode 0 (EdgeObject.mk "c2" (Edge.mk "T" "U"))).
  - cbn. constructor. constructor.
  - vm_compute. reflexivity.
Defined.

(** The chain, with everything in place. *)
Lemma path_points_are_computed_witness :
  is_Some (_calculatePathPoints Sample.chain Sample.chainNodeStates Sample.chainLayouts
             Sample.chainEdgeStates 1 true edgeOfNode 2).
Proof.
  apply path_points_are_computed; [discriminate|].
  cbn. apply Forall_cons_2; [|apply Forall_cons_2; [|apply Forall_nil_2]].
  all: split; [vm_compute; eexists; reflexivity|].
  all: intros n [->| ->]; split; vm_compute; eauto.
Defined.

(** The chain with curves in its nodes: three entries for two edges. *)
Lemma path_points_with_curves_in_nodes_witness :
  ∃ points start middle final,
    _calculatePathPoints Sample.chain Sample.chainNodeStates Sample.chainLayouts
      Sample.chainEdgeStates 1 true centerOfNode 0 = Some points
    ∧ points = Point start :: middle ++ [final]
    ∧ List.length middle = 1.
Proof.
  destruct (_calculatePathPoints Sample.chain Sample.chainNodeStates
              Sample.chainLayouts Sample.chainEdgeStates 1 true centerOfNode 0)
    as [points|] eqn:Hpoints; [|vm_compute in Hpoints; discriminate].
  destruct (path_points_with_curves_in_nodes
              Sample.chainNodeStates Sample.chainLayouts Sample.chainEdgeStates 1
              Sample.chain centerOfNode 0 points)
    as (start & middle & final & Hshape & Hlength & _);
    [reflexivity | exact Hpoints |].
  exists points, start, middle, final.
  split; [reflexivity|]. split; [exact Hshape|].
  cbn in Hlength. by injection Hlength.
Defined.

(** The straight chain: four single points for two edges. *)
Lemma straight_path_points_come_in_pairs_witness :
  ∃ points,
    _calculatePathPoints Sample.chain Sample.chainNodeStates Sample.chainLayouts
      Sample.chainEdgeStates 1 false centerOfNode 0 = Some points
    ∧ List.length points = 4.
Proof.
  destruct (_calculatePathPoints Sample.chain Sample.chainNodeStates
              Sample.chainLayouts Sample.chainEdgeStates 1 false centerOfNode 0)
    as [points|] eqn:Hpoints; [|vm_compute in Hpoints; discriminate].
  exists points. split; [reflexivity|].
  destruct (straight_path_points_come_in_pairs
              Sample.chainNodeStates Sample.chainLayouts Sample.chainEdgeStates 1
              Sample.chain centerOfNode 0 points) as [Hlength _];
    [reflexivity | | exact Hpoints | exact Hlength].
  cbn. apply Forall_cons_2; [|apply Forall_cons_2; [|apply Forall_nil_2]].
  all: intros state Hstate; vm_compute in Hstate; injection Hstate as <-; reflexivity.
Defined.

(** The chain runs from the center of [S] to the center of [U]. *)
Lemma path_runs_between_the_ends_of_its_edge_lines_witness :
  ∃ points,
    _calculatePathPoints Sample.chain Sample.chainNodeStates Sample.chainLayouts
      Sample.chainEdgeStates 1 false centerOfNode 0 = Some points
    ∧ head points = Some (Point (mkPosition 0 0))
    ∧ lastPointOf <$> last points = Some (mkPosition 300 0).
Proof.
  destruct (_calculatePathPoints Sample.chain Sample.chainNodeStates
              Sample.chainLayouts Sample.chainEdgeStates 1 false centerOfNode 0)
    as [points|] eqn:Hpoints; [|vm_compute in Hpoints; discriminate].
  exists points. split; [reflexivity|].
  destruct (path_runs_between_the_ends_of_its_edge_lines
              Sample.chainNodeStates Sample.chainLayouts Sample.chainEdgeStates 1
              Sample.chain false 0 points)
    as (lines & firstEdge & lastEdge & Hlines & Hfirst & Hlast & Hhead & Hend);
    [reflexivity | exact Hpoints |].
  vm_compute in Hlines. injection Hlines as <-.
  vm_compute in Hfirst. injection Hfirst as <-.
  vm_compute in Hlast. injection Hlast as <-.
  split; [exact Hhead | exact Hend].
Defined.

(** Two vertical edge lines through the origin. *)
Lemma parallel_straight_lines_do_not_cross_witness :
  _getIntersectionOfLines Scene.upLine Scene.furtherUpLine (mkPosition 0 0) = None.
Proof.
  apply parallel_straight_lines_do_not_cross; [reflexivity..|].
  left. split; reflexivity.
Defined.


(** The selected node [A] leaves and the node [C] joins: the selection
    watcher, run with the selection [A] before and the empty selection
    after, changes no state. *)
Lemma node_removal_needs_no_flag_update_witness :
  NodeWorld.selectedNodes (watchNodeIds {[ "B"; "C" ]} {[ "A"; "B" ]} Scene.world) = ∅
  ∧ NodeWorld.nodeStates (watchNodeIds {[ "B"; "C" ]} {[ "A"; "B" ]} Scene.world) !! "A"
    = None
  ∧ watchSelectedNodes [] ["A"]
      (NodeWorld.nodeStates (watchNodeIds {[ "B"; "C" ]} {[ "A"; "B" ]} Scene.world))
    = NodeWorld.nodeStates (watchNodeIds {[ "B"; "C" ]} {[ "A"; "B" ]} Scene.world)
  ∧ watchHoveredNodes ["B"] ["B"]
      (NodeWorld.nodeStates (watchNodeIds {[ "B"; "C" ]} {[ "A"; "B" ]} Scene.world))
    = NodeWorld.nodeStates (watchNodeIds {[ "B"; "C" ]} {[ "A"; "B" ]} Scene.world).
Proof.
  assert (Hselected :
    NodeWorld.selectedNodes (watchNodeIds {[ "B"; "C" ]} {[ "A"; "B" ]} Scene.world) = ∅)
    by (vm_compute; reflexivity).
  assert (Hhovered :
    NodeWorld.hoveredNodes (watchNodeIds {[ "B"; "C" ]} {[ "A"; "B" ]} Scene.world)
    = {[ "B" ]})
    by (vm_compute; reflexivity).
  split; [exact Hselected|]. split; [vm_compute; reflexivity|].
  apply (node_removal_needs_no_flag_update {[ "B"; "C" ]} {[ "A"; "B" ]}
           Scene.world ["A"] [] ["B"] ["B"]).
  - intros id. cbn. rewrite list_elem_of_singleton, elem_of_singleton. tauto.
  - intros id. rewrite Hselected, elem_of_nil, elem_of_empty. tauto.
  - intros id. cbn. rewrite list_elem_of_singleton, elem_of_singleton. tauto.
  - intros id. rewrite Hhovered, list_elem_of_singleton, elem_of_singleton. tauto.
Defined.

(** The selected edge [old] leaves. *)
Lemma edge_removal_needs_no_flag_update_witness :
  ∃ w',
    watchEdgeIds Scene.inputs Scene.newEdges Sample.layouts Sample.nodeStates
      {[ "new" ]} {[ "old" ]} Scene.edgeWorld = Some w'
    ∧ watchSelectedEdges [] ["old"] (edgeStates w') = edgeStates w'.
Proof.
  destruct (watchEdgeIds Scene.inputs Scene.newEdges Sample.layouts Sample.nodeStates
              {[ "new" ]} {[ "old" ]} Scene.edgeWorld) as [w'|] eqn:Hrun;
    [|vm_compute in Hrun; discriminate].
  exists w'. split; [reflexivity|].
  pose proof (watchEdgeIds_Some _ _ _ _ _ _ _ _ Hrun) as (_ & Hselected & Hhovered).
  destruct (edge_removal_needs_no_flag_update Scene.inputs Scene.newEdges
              Sample.layouts Sample.nodeStates {[ "new" ]} {[ "old" ]}
              Scene.edgeWorld w' ["old"] [] ["old"] []) as [Hflags _].
  - exact Hrun.
  - intros id. cbn. rewrite list_elem_of_singleton, elem_of_singleton. tauto.
  - intros id. rewrite Hselected. cbn. rewrite elem_of_nil, !elem_of_singleton.
    split; [tauto|]. intros [-> Hkept]. apply Hkept. split; [reflexivity|].
    intros Heq. discriminate Heq.
  - intros id. cbn. rewrite list_elem_of_singleton, elem_of_singleton. tauto.
  - intros id. rewrite Hhovered. cbn. rewrite elem_of_nil, !elem_of_singleton.
    split; [tauto|]. intros [-> Hkept]. apply Hkept. split; [reflexivity|].
    intros Heq. discriminate Heq.
  - exact Hflags.
Defined.

(** The chain is listed and drawn. *)
Lemma listed_paths_are_drawn_witness :
  asPathObject
    (ListedPath.mk (Path.mk ["c1"; "c2"] ∅)
       [ ListedEdge.mk "c1" (Own (Edge.mk "S" "T"));
         ListedEdge.mk "c2" (Own (Edge.mk "T" "U")) ])
  = Some Sample.chain
  ∧ is_Some (calcPathPoints (PathConfig.mk false centerOfNode (Literal 0%float))
               Sample.chainNodeStates Sample.chainLayouts Sample.chainEdgeStates 1
               Sample.chain).
Proof.
  split; [vm_compute; reflexivity|].
  destruct (listed_paths_are_drawn Sample.chainNodeStates Sample.chainLayouts
              Sample.chainEdgeStates 1 (PathConfig.mk false centerOfNode (Literal 0%float))
              [Path.mk ["c1"; "c2"] ∅] Sample.chainEdges
              (ListedPath.mk (Path.mk ["c1"; "c2"] ∅)
                 [ ListedEdge.mk "c1" (Own (Edge.mk "S" "T"));
                   ListedEdge.mk "c2" (Own (Edge.mk "T" "U")) ]))
    as (po & Hpo & _ & _ & Hdrawn).
  - intros id edge. unfold Sample.chainEdges.
    rewrite lookup_insert_Some, lookup_singleton_Some.
    intros [[<- <-]|[_ [<- <-]]].
    all: split; [vm_compute; eexists; reflexivity|].
    all: intros n [->| ->]; split; vm_compute; eauto.
  - vm_compute. left.
  - repeat constructor; vm_compute; eexists; reflexivity.
  - vm_compute in Hpo. injection Hpo as <-. exact Hdrawn.
Defined.
